(** * Sharme durable-sync engine: local store, archive adapter, push tick, share redemption

    A shallow embedding of the parts of the repository that the
    specification's testable statements are about:

    - [core/db.js]    the SQLite-backed local store (facts, pending deletes,
                      meta, shared-conversation imports);
    - [core/arweave.ts] the read-only archive adapter ([gqlRequest],
                      [queryShards], [downloadShard]);
    - [mcp/server.js] the periodic fact push ([syncDirtyFacts]);
    - [cli/sync.ts]   share redemption ([syncCommand]).

    Tables are finite maps keyed by their UNIQUE / PRIMARY KEY column, JS
    exceptions are explicit results, and everything the code obtains from
    outside the process (gateways, the upload backend, the clock, crypto) is
    an argument of the function that uses it. An async function is run to
    completion: what other handlers of the process do to the store between
    two of its awaits is outside the model. *)

From Stdlib Require Import ZArith List Sorted Permutation QArith_base.
From Stdlib.Strings Require Import Ascii Byte.
From stdpp Require Import gmap strings list fin_maps pretty.
Import ListNotations.

Local Open Scope string_scope.
Local Open Scope list_scope.
Local Open Scope Z_scope.

(** ** JavaScript exceptions *)

(** A call either returns a value or throws. *)
Inductive Exc (E A : Type) : Type :=
| Return (a : A)
| Throw (e : E).
Arguments Return {E A} a.
Arguments Throw {E A} e.

(** ** The local store (core/db.js) *)

(** The object passed to [upsertFact] and produced by [rowToFact]
    (type [Fact] of types.ts: a fact without its [dirty] column). *)
Module Fact.
Record t : Type := mk {
  id : string;
  scope : string;
  key : string;
  value : string;
  tags : list string;
  confidence : Q;
  source_session : option string;
  created : string;
  last_confirmed : string;
  access_count : Z          (* a JS number; the facts here have integer counts *)
}.
End Fact.

(** One row of table [facts]. [tags] is stored as [JSON.stringify(fact.tags)]
    and read back with [JSON.parse]; on arrays of strings this is the
    identity, so the column holds the list itself. *)
Module Row.
Record t : Type := mk {
  id : string;              (* id TEXT PRIMARY KEY *)
  scope : string;
  key : string;             (* key TEXT NOT NULL UNIQUE *)
  value : string;
  tags : list string;
  confidence : Q;
  source_session : option string;
  created : string;
  last_confirmed : string;
  access_count : Z;         (* access_count INTEGER DEFAULT 0 *)
  dirty : Z                 (* dirty INTEGER DEFAULT 1 *)
}.
End Row.

(** One row of table [shared_conversation_imports] (without its key
    [share_id]). *)
Module ImportRow.
Record t : Type := mk {
  tx_id : string;
  conversation_id : string;
  client : string;
  project : string;
  message_count : Z;
  imported_at : string;
  payload : string
}.
End ImportRow.

(** The database: each table is a finite map from its unique key column to
    the row. [facts] is keyed by [key]; uniqueness of the other unique
    column, [id], is checked by the statements that write the table. *)
Record Db : Type := mkDb {
  facts : gmap string Row.t;
  pending_deletes : gmap string string;              (* key -> deleted_at *)
  meta : gmap string string;                         (* key -> value *)
  shared_conversation_imports : gmap string ImportRow.t (* share_id -> row *)
}.

Definition set_facts (db : Db) (m : gmap string Row.t) : Db :=
  mkDb m (pending_deletes db) (meta db) (shared_conversation_imports db).
Definition set_pending_deletes (db : Db) (m : gmap string string) : Db :=
  mkDb (facts db) m (meta db) (shared_conversation_imports db).
Definition set_meta (db : Db) (m : gmap string string) : Db :=
  mkDb (facts db) (pending_deletes db) m (shared_conversation_imports db).
Definition set_imports (db : Db) (m : gmap string ImportRow.t) : Db :=
  mkDb (facts db) (pending_deletes db) (meta db) m.

(** The error better-sqlite3 throws when a statement violates a UNIQUE or
    PRIMARY KEY constraint; the argument names the column. *)
Inductive SqliteError : Type :=
| UniqueViolation (column : string).

(** *** Statements and auto-commit

    db.js never opens a transaction ([db.transaction], BEGIN/COMMIT do not
    occur in it): every [db.prepare(sql).run(...)] is executed in SQLite's
    auto-commit mode. One statement is atomic: it either commits its whole
    effect or fails and changes nothing. A store function is a script of
    such statements. *)
Definition Stmt : Type := Db → Exc SqliteError Db.

(** Final database and the exception, if any, that stopped the script. A
    statement that throws leaves the effects of the statements committed
    before it. *)
Fixpoint run (ss : list Stmt) (db : Db) : Db * option SqliteError :=
  match ss with
  | [] => (db, None)
  | s :: ss' =>
      match s db with
      | Return db' => run ss' db'
      | Throw e => (db, Some e)
      end
  end.

(** The database states committed, in order, while the script runs: these
    are the states another connection to the file (or a restart after a
    crash) can observe. *)
Fixpoint commits (ss : list Stmt) (db : Db) : list Db :=
  match ss with
  | [] => []
  | s :: ss' =>
      match s db with
      | Return db' => db' :: commits ss' db'
      | Throw _ => []
      end
  end.

(** *** Meta operations *)

(** [getMeta]: SELECT value FROM meta WHERE key = ?; [row?.value ?? null]. *)
Definition getMeta (db : Db) (key : string) : option string := meta db !! key.

(** INSERT INTO meta ... ON CONFLICT(key) DO UPDATE SET value = excluded.value *)
Definition stmt_set_meta (key value : string) : Stmt :=
  λ db, Return (set_meta db (<[key := value]> (meta db))).

Definition setMeta (db : Db) (key value : string) : Db * option SqliteError :=
  run [stmt_set_meta key value] db.

(** *** Fact operations *)

(** The row the INSERT of [upsertFact] proposes: all columns of the fact,
    [dirty] = 1. *)
Definition row_of_fact (f : Fact.t) : Row.t :=
  Row.mk (Fact.id f) (Fact.scope f) (Fact.key f) (Fact.value f) (Fact.tags f)
         (Fact.confidence f) (Fact.source_session f) (Fact.created f)
         (Fact.last_confirmed f) (Fact.access_count f) 1.

(** The DO UPDATE SET list of [upsertFact]: every column of the existing row
    is taken from the proposed row except [key] (the conflict target) and
    [created], which the SET list does not mention. *)
Definition do_update (old excluded : Row.t) : Row.t :=
  Row.mk (Row.id excluded) (Row.scope excluded) (Row.key old) (Row.value excluded)
         (Row.tags excluded) (Row.confidence excluded) (Row.source_session excluded)
         (Row.created old) (Row.last_confirmed excluded) (Row.access_count excluded) 1.

(** [id] is the PRIMARY KEY of [facts]; the upsert clause only handles a
    conflict on [key]. The statement fails when the new id is already the id
    of a row stored under another key. *)
Definition id_conflict (db : Db) (f : Fact.t) : Prop :=
  map_Exists (λ k r, k ≠ Fact.key f ∧ Row.id r = Fact.id f) (facts db).

Global Instance id_conflict_dec db f : Decision (id_conflict db f).
Proof. unfold id_conflict. apply _. Defined.

(** INSERT INTO facts (...) VALUES (..., 1) ON CONFLICT(key) DO UPDATE SET ... *)
Definition stmt_upsert_fact (f : Fact.t) : Stmt :=
  λ db,
    if decide (id_conflict db f) then Throw (UniqueViolation "facts.id")
    else
      let row := match facts db !! Fact.key f with
                 | Some old => do_update old (row_of_fact f)
                 | None => row_of_fact f
                 end in
      Return (set_facts db (<[Fact.key f := row]> (facts db))).

(** DELETE FROM pending_deletes WHERE key = ? *)
Definition stmt_delete_pending (key : string) : Stmt :=
  λ db, Return (set_pending_deletes db (delete key (pending_deletes db))).

(** The two statements of [upsertFact], in source order. *)
Definition upsertFact_stmts (fact : Fact.t) : list Stmt :=
  [stmt_upsert_fact fact; stmt_delete_pending (Fact.key fact)].

Definition upsertFact (db : Db) (fact : Fact.t) : Db * option SqliteError :=
  run (upsertFact_stmts fact) db.

(** DELETE FROM facts WHERE key = ? *)
Definition stmt_delete_fact (key : string) : Stmt :=
  λ db, Return (set_facts db (delete key (facts db))).

(** INSERT OR REPLACE INTO pending_deletes (key, deleted_at) VALUES (?, ?) *)
Definition stmt_replace_pending (key deleted_at : string) : Stmt :=
  λ db, Return (set_pending_deletes db (<[key := deleted_at]> (pending_deletes db))).

(** [deleteFact]: [exists] is the result of the SELECT that runs first;
    [now] is [new Date().toISOString()]. *)
Definition deleteFact_stmts (exists_ : bool) (key now : string) : list Stmt :=
  stmt_delete_fact key :: (if exists_ then [stmt_replace_pending key now] else []).

Definition deleteFact (db : Db) (key now : string) : Db * option SqliteError :=
  let exists_ := bool_decide (is_Some (facts db !! key)) in
  run (deleteFact_stmts exists_ key now) db.

(** The double nearest to the non-negative integer [m]: [m] itself below
    2^53, otherwise [m] rounded to 53 significant bits, ties to even. *)
Definition round53 (m : Z) : Z :=
  if m <? 2 ^ 53 then m
  else
    let e := Z.log2 m - 52 in
    let q := Z.shiftr m e in
    let r := m - Z.shiftl q e in
    let half := Z.shiftl 1 (e - 1) in
    let q' := if (half <? r) || ((r =? half) && Z.odd q) then q + 1 else q in
    Z.shiftl q' e.

(** The number JavaScript gets for the integer [z] of a column: the
    driver hands an INTEGER over as a double, the nearest one. For a count
    that a fact brought with it, which is a double already, that is the
    count itself. *)
Definition double_of_integer (z : Z) : Z := Z.sgn z * round53 (Z.abs z).

(** [rowToFact]: drops [dirty]; [row.source_session || null] turns an empty
    string into null; [access_count] arrives as a double. *)
Definition rowToFact (row : Row.t) : Fact.t :=
  Fact.mk (Row.id row) (Row.scope row) (Row.key row) (Row.value row) (Row.tags row)
          (Row.confidence row)
          (match Row.source_session row with
           | Some EmptyString => None
           | o => o
           end)
          (Row.created row) (Row.last_confirmed row)
          (double_of_integer (Row.access_count row)).

(** [getFact]: SELECT * FROM facts WHERE key = ? *)
Definition getFact (db : Db) (key : string) : option Fact.t :=
  rowToFact <$> (facts db !! key).

(** [getDirtyFacts]: SELECT * FROM facts WHERE dirty = 1. The query has no
    ORDER BY, so SQL leaves the order of the rows open; here they come in
    the order in which the map enumerates them. *)
Definition getDirtyFacts (db : Db) : list Fact.t :=
  rowToFact <$> filter (λ r, Row.dirty r = 1) (map_to_list (facts db)).*2.

(** [getPendingDeletes]: SELECT key FROM pending_deletes *)
Definition getPendingDeletes (db : Db) : list string :=
  (map_to_list (pending_deletes db)).*1.

Definition clean (r : Row.t) : Row.t :=
  Row.mk (Row.id r) (Row.scope r) (Row.key r) (Row.value r) (Row.tags r)
         (Row.confidence r) (Row.source_session r) (Row.created r)
         (Row.last_confirmed r) (Row.access_count r) 0.

(** UPDATE facts SET dirty = 0 *)
Definition stmt_zero_dirty : Stmt :=
  λ db, Return (set_facts db (clean <$> facts db)).

(** DELETE FROM pending_deletes *)
Definition stmt_empty_pending : Stmt :=
  λ db, Return (set_pending_deletes db ∅).

Definition clearDirtyState_stmts : list Stmt := [stmt_zero_dirty; stmt_empty_pending].

Definition clearDirtyState (db : Db) : Db * option SqliteError :=
  run clearDirtyState_stmts db.

(** [access_count + 1] as SQLite computes it. A count within the 64-bit
    integers is an INTEGER and the sum is exact; when the sum does not fit
    (at 2^63 - 1) SQLite computes it in floating point, which gives 2^63. A
    count outside the 64-bit integers is a REAL, and adding 1 to a double of
    that size gives the same double. *)
Definition add_one (z : Z) : Z :=
  if (- 2 ^ 63 <=? z) && (z <? 2 ^ 63) then z + 1 else z.

Definition bump (r : Row.t) : Row.t :=
  Row.mk (Row.id r) (Row.scope r) (Row.key r) (Row.value r) (Row.tags r)
         (Row.confidence r) (Row.source_session r) (Row.created r)
         (Row.last_confirmed r) (add_one (Row.access_count r)) (Row.dirty r).

(** UPDATE facts SET access_count = access_count + 1 WHERE key = ? *)
Definition stmt_increment_access (key : string) : Stmt :=
  λ db, Return (set_facts db (alter bump key (facts db))).

Definition incrementAccessCount (db : Db) (key : string) : Db * option SqliteError :=
  run [stmt_increment_access key] db.

(** *** Shared-conversation imports *)

(** [hasSharedConversationImport]: SELECT 1 as ok ... WHERE share_id = ?;
    [Boolean(row?.ok)]. *)
Definition hasSharedConversationImport (db : Db) (shareId : string) : bool :=
  bool_decide (is_Some (shared_conversation_imports db !! shareId)).

(** The conversation object of types.ts, as far as the store reads it.
    [payload] stands for [JSON.stringify(conversation)]. *)
Module Conversation.
Record t : Type := mk {
  id : string;
  client : string;
  project : string;
  messages : list string;
  startedAt : string;
  updatedAt : string;
  json : string
}.
End Conversation.

(** The argument of [saveSharedConversationImport]. *)
Module Entry.
Record t : Type := mk {
  shareId : string;
  txId : string;
  conversation : Conversation.t
}.
End Entry.

(** INSERT INTO shared_conversation_imports (...) VALUES (?, ..., ?): a plain
    INSERT, with no OR REPLACE / OR IGNORE / ON CONFLICT clause, into a
    table whose PRIMARY KEY is [share_id]. *)
Definition stmt_insert_import (entry : Entry.t) (now : string) : Stmt :=
  λ db,
    match shared_conversation_imports db !! Entry.shareId entry with
    | Some _ => Throw (UniqueViolation "shared_conversation_imports.share_id")
    | None =>
        let c := Entry.conversation entry in
        let row := ImportRow.mk (Entry.txId entry) (Conversation.id c)
                                (Conversation.client c) (Conversation.project c)
                                (Z.of_nat (length (Conversation.messages c)))
                                now (Conversation.json c) in
        Return (set_imports db
                  (<[Entry.shareId entry := row]> (shared_conversation_imports db)))
    end.

(** [now] is [new Date().toISOString()]. *)
Definition saveSharedConversationImport (db : Db) (entry : Entry.t) (now : string)
  : Db * option SqliteError :=
  run [stmt_insert_import entry now] db.

(** *** Calls

    A call of one of the writing functions that db.js exports, and the
    database it leaves (an exception leaves what was committed before it). *)
Inductive Mutation : Type :=
| call_upsertFact (fact : Fact.t)
| call_deleteFact (key now : string)
| call_clearDirtyState
| call_incrementAccessCount (key : string)
| call_setMeta (key value : string)
| call_saveSharedConversationImport (entry : Entry.t) (now : string).

Definition call (db : Db) (m : Mutation) : Db :=
  match m with
  | call_upsertFact fact => (upsertFact db fact).1
  | call_deleteFact key now => (deleteFact db key now).1
  | call_clearDirtyState => (clearDirtyState db).1
  | call_incrementAccessCount key => (incrementAccessCount db key).1
  | call_setMeta key value => (setMeta db key value).1
  | call_saveSharedConversationImport entry now =>
      (saveSharedConversationImport db entry now).1
  end.

Definition calls (db : Db) (ms : list Mutation) : Db := foldl call db ms.

(** ** JavaScript strings and numbers

    A string is the UTF-8 encoding of the JavaScript string: the form in
    which tag values, headers, environment values and the columns of the
    database reach the process, and in which a string literal is written
    here. Tag names, decimal numbers and the separators the code looks for
    are ASCII, one byte each; white space is recognised in its UTF-8
    encoding. *)

Definition code (c : ascii) : Z := Z.of_N (N_of_ascii c).

(** White space as [String.prototype.trim] and [parseInt] see it
    (WhiteSpace and LineTerminator of ECMAScript). In one byte: TAB, LF,
    VT, FF, CR and SPACE. *)
Definition is_white (c : ascii) : bool :=
  ((9 <=? code c) && (code c <=? 13)) || (code c =? 32).

(** In two bytes: U+00A0 (C2 A0). *)
Definition is_white2 (c1 c2 : ascii) : bool :=
  (code c1 =? 194) && (code c2 =? 160).

(** In three bytes: U+1680 (E1 9A 80), U+2000 to U+200A (E2 80 80 to
    E2 80 8A), U+2028, U+2029 and U+202F (E2 80 A8, A9, AF), U+205F
    (E2 81 9F), U+3000 (E3 80 80) and U+FEFF (EF BB BF). *)
Definition is_white3 (c1 c2 c3 : ascii) : bool :=
  ((code c1 =? 225) && (code c2 =? 154) && (code c3 =? 128))
  || ((code c1 =? 226) && (code c2 =? 128)
      && (((128 <=? code c3) && (code c3 <=? 138))
          || (code c3 =? 168) || (code c3 =? 169) || (code c3 =? 175)))
  || ((code c1 =? 226) && (code c2 =? 129) && (code c3 =? 159))
  || ((code c1 =? 227) && (code c2 =? 128) && (code c3 =? 128))
  || ((code c1 =? 239) && (code c2 =? 187) && (code c3 =? 191)).

(** Drops the white-space characters at the start. *)
Fixpoint trimStart (s : string) : string :=
  match s with
  | String c1 r1 =>
      if is_white c1 then trimStart r1
      else
        match r1 with
        | String c2 r2 =>
            if is_white2 c1 c2 then trimStart r2
            else
              match r2 with
              | String c3 r3 => if is_white3 c1 c2 c3 then trimStart r3 else s
              | EmptyString => s
              end
        | EmptyString => s
        end
  | EmptyString => EmptyString
  end.

(** [s] consists of white-space characters. *)
Fixpoint all_white (s : string) : bool :=
  match s with
  | String c1 r1 =>
      if is_white c1 then all_white r1
      else
        match r1 with
        | String c2 r2 =>
            if is_white2 c1 c2 then all_white r2
            else
              match r2 with
              | String c3 r3 => is_white3 c1 c2 c3 && all_white r3
              | EmptyString => false
              end
        | EmptyString => false
        end
  | EmptyString => true
  end.

(** Drops the white-space characters at the end: a byte is kept when
    what starts at it is not white space only. (The later bytes of a
    character never start a white-space character.) *)
Fixpoint trimEnd (s : string) : string :=
  match s with
  | String c s' => if all_white s then EmptyString else String c (trimEnd s')
  | EmptyString => EmptyString
  end.

Definition trim (s : string) : string := trimEnd (trimStart s).

(** [String.prototype.toLowerCase] is the case conversion of Unicode; the
    code takes it from the language, and so do the definitions below, as a
    parameter. This is what it does to the letters A to Z, the stand-in for
    it in the sample runs, whose strings are ASCII. *)
Definition lower (c : ascii) : ascii :=
  if (65 <=? code c) && (code c <=? 90)
  then ascii_of_N (N_of_ascii c + 32)
  else c.

Fixpoint lowercase_ascii (s : string) : string :=
  match s with
  | String c s' => String (lower c) (lowercase_ascii s')
  | EmptyString => EmptyString
  end.

(** A JS string is truthy when it is not empty. *)
Definition truthy (s : string) : bool :=
  match s with
  | EmptyString => false
  | String _ _ => true
  end.

(** The integer-valued numbers the code computes with: the result of
    [parseInt] is NaN, an infinity, or an integer that a double represents
    exactly (-0 is identified with 0). *)
Inductive Num : Type :=
| NaN
| PosInf
| NegInf
| Fin (z : Z).

(** The Number value of the integer [z] (overflow gives an infinity). *)
Definition number_of_Z (z : Z) : Num :=
  let v := round53 (Z.abs z) in
  if 2 ^ 1024 <=? v then (if z <? 0 then NegInf else PosInf)
  else Fin (Z.sgn z * v).

Definition digit (c : ascii) : option Z :=
  if (48 <=? code c) && (code c <=? 57) then Some (code c - 48) else None.

(** The value of the longest prefix of decimal digits; [acc] is [None] until
    a digit has been read. *)
Fixpoint digits (s : string) (acc : option Z) : option Z :=
  match s with
  | String c s' =>
      match digit c with
      | Some d => digits s' (Some (10 * default 0 acc + d))
      | None => acc
      end
  | EmptyString => acc
  end.

(** [Number.parseInt(s, 10)]: skip leading white space, read an optional
    sign, then the longest run of decimal digits; NaN when there is no
    digit. What follows the digits is ignored. *)
Definition parseInt (s : string) : Num :=
  let s1 := trimStart s in
  let '(negative, s2) :=
    match s1 with
    | String "-" r => (true, r)
    | String "+" r => (false, r)
    | _ => (false, s1)
    end in
  match digits s2 None with
  | None => NaN
  | Some m => number_of_Z (if negative then - m else m)
  end.

(** [x + 1] on such numbers. *)
Definition plus_one (x : Num) : Num :=
  match x with
  | Fin z => number_of_Z (z + 1)
  | other => other
  end.

(** [Array.prototype.sort(compare)] is stable (ECMAScript 2019). With a
    consistent comparator its result is the one stable sorted arrangement
    of the array, computed here by insertion from the right: an element goes
    before the first later element that does not compare below it. *)
Section Sort.
Context {A : Type} (compare : A → A → Z).

Fixpoint insert_sorted (x : A) (l : list A) : list A :=
  match l with
  | [] => [x]
  | y :: l' => if compare x y <=? 0 then x :: l else y :: insert_sorted x l'
  end.

Definition sort (l : list A) : list A := foldr insert_sorted [] l.
End Sort.

(** ** The archive adapter (core/arweave.ts) *)

Definition GQL_PAGE_SIZE : Z := 1000.
Definition GQL_MAX_PAGES : nat := 1000.

Inductive ShardType : Type := delta | snapshot | identity.

Module ShardInfo.
Record t : Type := mk {
  txId : string;
  version : Z;
  type : ShardType;
  timestamp : string;
  signature : option string;
  wallet : string
}.
End ShardInfo.

(** *** What a gateway answers *)

(** [node { id tags { name value } }]: a tag is a (name, value) pair. *)
Record Node : Type := mkNode {
  node_id : string;
  node_tags : list (string * string)
}.

Record Edge : Type := mkEdge {
  cursor : string;
  node : Node
}.

(** The JSON document of a transactions query, with the optional members of
    the type annotation in [queryShards]. An element of [errors] is its
    [message], if it has one. *)
Record PageInfo : Type := mkPageInfo {
  hasNextPage : option bool
}.

Record Transactions : Type := mkTransactions {
  pageInfo : option PageInfo;
  edges : option (list Edge)
}.

Record Data : Type := mkData {
  transactions : option Transactions
}.

Record GqlJson : Type := mkJson {
  data : option Data;
  errors : option (list (option string))
}.

(** The request body of [queryShards]: the shard query with its variables. *)
Record GqlBody : Type := mkBody {
  var_wallet : string;
  var_first : Z;
  var_after : option string
}.

(** What [fetch(endpoint, ...)] followed by [res.json()] can do: reject
    (network error), resolve with a status that is not ok, resolve with a
    body that is not JSON, or resolve with a JSON document. *)
Inductive GqlReply : Type :=
| GqlNetworkError (message : string)
| GqlHttpError (status : Z) (statusText : string)
| GqlBadJson (message : string)
| GqlOk (json : GqlJson).

(** Why one endpoint was given up: the error caught by the [catch] of the
    loop over the endpoints, whose message the source formats as
    [`${endpoint}: ${message}`]. *)
Inductive EndpointFailure : Type :=
| Rejected (message : string)                 (* fetch or the body rejected *)
| BadStatus (status : Z) (statusText : string) (* `${res.status} ${res.statusText}` *)
| BlobTooLarge (bytes maxBytes : Z).           (* `blob too large: ${n} bytes (max ${maxBytes})` *)

(** The errors a query or a download throws to its caller. *)
Inductive ArweaveError : Type :=
| AllGatewaysFailed (errors : list (string * EndpointFailure))
    (* `Arweave ... failed across all gateways: ${errors.join(" | ")}` *)
| GraphQLReturnedErrors (messages : list string)
    (* `Arweave GraphQL returned errors: ${msg}` *)
| PaginationExceeded.
    (* `Arweave GraphQL pagination exceeded ${GQL_MAX_PAGES} pages.` *)

Section Gateways.
(** [String.prototype.toLowerCase]. *)
Variable toLowerCase : string → string.
(** The GraphQL gateways: what each endpoint answers to a request. *)
Variable gql : string → GqlBody → GqlReply.
(** [ARWEAVE_GQL_ENDPOINTS], in configuration order. *)
Variable ARWEAVE_GQL_ENDPOINTS : list string.

(** The loop of [gqlRequest] over the endpoints that are left; [errors]
    collects one entry per endpoint already given up. *)
Fixpoint gqlRequest_from (endpoints : list string) (body : GqlBody)
         (errors : list (string * EndpointFailure)) : Exc ArweaveError GqlJson :=
  match endpoints with
  | [] => Throw (AllGatewaysFailed errors)
  | endpoint :: rest =>
      match gql endpoint body with
      | GqlOk json => Return json
      | GqlNetworkError m => gqlRequest_from rest body (errors ++ [(endpoint, Rejected m)])
      | GqlHttpError st tx => gqlRequest_from rest body (errors ++ [(endpoint, BadStatus st tx)])
      | GqlBadJson m => gqlRequest_from rest body (errors ++ [(endpoint, Rejected m)])
      end
  end.

Definition gqlRequest (body : GqlBody) : Exc ArweaveError GqlJson :=
  gqlRequest_from ARWEAVE_GQL_ENDPOINTS body [].

(** [new Map(edge.node.tags.map((t) => [t.name, t.value]))]: a later tag
    of the same name replaces an earlier one. *)
Definition tagMap (tags : list (string * string)) : gmap string string :=
  foldl (λ m t, <[t.1 := t.2]> m) ∅ tags.

(** [rawType !== "delta" && rawType !== "snapshot" && rawType !== "identity"]
    skips the node; otherwise the type is one of the three. *)
Definition parse_type (rawType : option string) : option ShardType :=
  match rawType with
  | Some t =>
      if String.eqb t "delta" then Some delta
      else if String.eqb t "snapshot" then Some snapshot
      else if String.eqb t "identity" then Some identity
      else None
  | None => None
  end.

(** The body of the loop over the edges of [queryShards], after the
    duplicate check: the entry pushed for a node, or [None] when the node
    is skipped ([continue]). *)
Definition accept (walletAddress : string) (n : Node) : option ShardInfo.t :=
  let tags := tagMap (node_tags n) in
  match parse_type (tags !! "Type") with
  | None => None
  | Some rawType =>
      let wallet := default EmptyString (tags !! "Wallet") in
      if negb (truthy wallet)
         || negb (String.eqb (toLowerCase wallet) (toLowerCase walletAddress))
      then None
      else
        let rawSignature := default EmptyString (trim <$> tags !! "Signature") in
        let signature := if truthy rawSignature then Some rawSignature else None in
        let timestamp := default EmptyString (tags !! "Timestamp") in
        let push version :=
          Some (ShardInfo.mk (node_id n) version rawType timestamp signature wallet) in
        match rawType with
        | identity =>
            match signature with
            | None => None
            | Some _ => push 0
            end
        | _ =>
            match tags !! "Version" with
            | None => None
            | Some rawVersion =>
                if negb (truthy rawVersion) then None
                else
                  match parseInt rawVersion with
                  | Fin parsedVersion =>
                      if parsedVersion <? 1 then None
                      else
                        match signature with
                        | None => None
                        | Some _ => push parsedVersion
                        end
                  | _ => None      (* !Number.isFinite(parsedVersion) *)
                  end
            end
        end
  end.

(** The accumulators of [queryShards]: the array [shards] and the set
    [seenTxIds]. *)
Record Acc : Type := mkAcc {
  shards : list ShardInfo.t;
  seenTxIds : gset string
}.

(** One iteration of [for (const edge of edges)]. *)
Definition visit (walletAddress : string) (acc : Acc) (edge : Edge) : Acc :=
  let n := node edge in
  if decide (node_id n ∈ seenTxIds acc) then acc
  else
    let seen := {[node_id n]} ∪ seenTxIds acc in
    match accept walletAddress n with
    | None => mkAcc (shards acc) seen
    | Some s => mkAcc (shards acc ++ [s]) seen
    end.

(** [json.errors.map((e) => e.message ?? "unknown")] *)
Definition error_messages (errs : list (option string)) : list string :=
  default "unknown" <$> errs.

(** The [while (true)] loop of [queryShards]. [pages] is the number of
    pages that may still be requested, [GQL_MAX_PAGES - pageCount]: asking
    for one more throws. The result is the array [shards] at [break]. *)
Fixpoint queryShards_pages (pages : nat) (walletAddress : string)
         (acc : Acc) (after : option string) : Exc ArweaveError (list ShardInfo.t) :=
  match pages with
  | O => Throw PaginationExceeded
  | S pages' =>
      match gqlRequest (mkBody walletAddress GQL_PAGE_SIZE after) with
      | Throw e => Throw e
      | Return json =>
          match errors json with
          | Some (e :: es) => Throw (GraphQLReturnedErrors (error_messages (e :: es)))
          | _ =>
              let transactions := data json ≫= transactions in
              match default [] (transactions ≫= edges) with
              | [] => Return (shards acc)
              | e :: es =>
                  let acc' := foldl (visit walletAddress) acc (e :: es) in
                  let lastCursor := cursor (List.last es e) in
                  let more := match (transactions ≫= pageInfo) ≫= hasNextPage with
                              | Some true => true
                              | _ => false
                              end in
                  if negb more || negb (truthy lastCursor)
                  then Return (shards acc')
                  else queryShards_pages pages' walletAddress acc' (Some lastCursor)
              end
          end
      end
  end.

(** [queryShards]: the pages, then
    [shards.sort((a, b) => a.version - b.version)]. *)
Definition queryShards (walletAddress : string) : Exc ArweaveError (list ShardInfo.t) :=
  match queryShards_pages GQL_MAX_PAGES walletAddress (mkAcc [] ∅) None with
  | Throw e => Throw e
  | Return found =>
      Return (sort (λ a b, ShardInfo.version a - ShardInfo.version b) found)
  end.
End Gateways.

(** *** Downloads *)

(** The response [fetch(`${endpoint}/${txId}`)] resolves with:
    [content_length] is [res.headers.get("content-length")] and
    [arrayBuffer] is what reading the body gives. *)
Record DataResponse : Type := mkResponse {
  ok : bool;
  status : Z;
  statusText : string;
  content_length : option string;
  arrayBuffer : Exc string (list byte)
}.

Inductive DataReply : Type :=
| DataNetworkError (message : string)
| DataResolved (res : DataResponse).

(** What [downloadShard] does to the network, in order. *)
Inductive NetEvent : Type :=
| Fetched (endpoint : string)       (* await fetch(...) *)
| BodyRead (endpoint : string).     (* await res.arrayBuffer() *)

Section Download.
(** The data gateways: what each endpoint answers for a transaction id. *)
Variable gateway : string → string → DataReply.
(** [ARWEAVE_DATA_ENDPOINTS], in configuration order. *)
Variable ARWEAVE_DATA_ENDPOINTS : list string.

(** The check of the header: [Some declared] when the header is a
    non-empty string whose [parseInt] is finite and above [maxBytes]. *)
Definition declared_too_large (maxBytes : Z) (contentLength : option string) : option Z :=
  match contentLength with
  | Some h =>
      if truthy h then
        match parseInt h with
        | Fin declared => if maxBytes <? declared then Some declared else None
        | _ => None
        end
      else None
  | None => None
  end.

(** The second half of the [try] block: read the body, then check its
    actual length. *)
Definition read_body (endpoint : string) (res : DataResponse) (maxBytes : option Z)
  : Exc EndpointFailure (list byte) * list NetEvent :=
  let evs := [Fetched endpoint; BodyRead endpoint] in
  match arrayBuffer res with
  | Throw m => (Throw (Rejected m), evs)
  | Return buffer =>
      let byteLength := Z.of_nat (length buffer) in
      match maxBytes with
      | Some m =>
          if m <? byteLength then (Throw (BlobTooLarge byteLength m), evs)
          else (Return buffer, evs)
      | None => (Return buffer, evs)
      end
  end.

(** The body of the [try] block for one endpoint: what it returns or
    throws, and what it did to the network. [maxBytes] is [None] when the
    caller passed no number. *)
Definition attempt (endpoint txId : string) (maxBytes : option Z)
  : Exc EndpointFailure (list byte) * list NetEvent :=
  match gateway endpoint txId with
  | DataNetworkError m => (Throw (Rejected m), [Fetched endpoint])
  | DataResolved res =>
      if negb (ok res)
      then (Throw (BadStatus (status res) (statusText res)), [Fetched endpoint])
      else
        match maxBytes with
        | Some m =>
            match declared_too_large m (content_length res) with
            | Some declared => (Throw (BlobTooLarge declared m), [Fetched endpoint])
            | None => read_body endpoint res maxBytes
            end
        | None => read_body endpoint res maxBytes
        end
  end.

(** The loop of [downloadShard] over the endpoints that are left. *)
Fixpoint downloadShard_from (endpoints : list string) (txId : string)
         (maxBytes : option Z) (errors : list (string * EndpointFailure))
  : Exc ArweaveError (list byte) * list NetEvent :=
  match endpoints with
  | [] => (Throw (AllGatewaysFailed errors), [])
  | endpoint :: rest =>
      match attempt endpoint txId maxBytes with
      | (Return bytes, evs) => (Return bytes, evs)
      | (Throw err, evs) =>
          let '(r, evs') :=
            downloadShard_from rest txId maxBytes (errors ++ [(endpoint, err)]) in
          (r, evs ++ evs')
      end
  end.

Definition downloadShard (txId : string) (maxBytes : option Z)
  : Exc ArweaveError (list byte) * list NetEvent :=
  downloadShard_from ARWEAVE_DATA_ENDPOINTS txId maxBytes [].
End Download.

(** ** The fact push (mcp/server.js) *)

(** Modelled from the spec: the operation and shard types of types.ts, which
    is not among the sources (spec section 3: a shard has [shard_version],
    [shard_id], [type] and an ordered list of operations, each
    [upsert {fact}] or [delete {key}]). *)
Inductive Operation : Type :=
| upsert (fact : Fact.t)
| delete_op (key : string).

Record Shard : Type := mkShard {
  shard_version : Num;
  shard_id : string;
  shard_type : string;
  operations : list Operation
}.

(** Modelled from the spec: [factToUpsertOp] of core/shard.js, which is not
    among the sources (spec 4.C: [factToUpsertOp(fact)] is
    [{op: upsert, fact}]; the fact read by [rowToFact] has no [dirty]). *)
Definition factToUpsertOp (fact : Fact.t) : Operation := upsert fact.

(** One call of [pushShard] made by a tick and what it gave: the
    transaction id, or the error it threw. *)
Record PushCall : Type := mkCall {
  pushed_bytes : list byte;
  pushed_version : Num;
  push_result : Exc string string
}.

Definition uploaded (c : PushCall) : bool :=
  match push_result c with
  | Return _ => true
  | Throw _ => false
  end.

Inductive TickError : Type :=
| UploadError (message : string)
| StoreError (e : SqliteError).

(** How a tick ends: the early [return], the end of the [try] block, or the
    [catch] (which only writes `Sharme: sync failed, will retry: ...`). *)
Inductive TickOutcome : Type :=
| NothingToSync
| Synced (lastVersion : Num)
| SyncFailed (err : TickError).

Record Tick : Type := mkTick {
  store : Db;
  outcome : TickOutcome;
  pushes : list PushCall
}.

(** Sequencing of store calls inside a [try] block. *)
Definition and_then (r : Db * option SqliteError) (k : Db → Db * option SqliteError)
  : Db * option SqliteError :=
  match r with
  | (db, None) => k db
  | (db, Some e) => (db, Some e)
  end.

Section Push.
(** The functions the tick imports from modules that are not among the
    sources (core/shard.js, core/crypto.js, core/sync.js), the backend
    object, and [String] on numbers. *)
Context {Key Backend : Type}.
Variable createChunkedShards : list Operation → Num → string → list Shard.
Variable serializeShard : Shard → string.
Variable encrypt : string → Key → list byte.
Variable pushShard :
  list byte → Num → string → string → Key → Backend → Exc string string.
Variable String_of_number : Num → string.

Variables (encryptionKey identityKey : Key) (walletAddress : string).

(** One iteration of [for (const shard of shards)]: serialize, encrypt,
    [pushShard]. *)
Definition push_one (backend : Backend) (shard : Shard) : PushCall :=
  let serialized := serializeShard shard in
  let encrypted := encrypt serialized encryptionKey in
  mkCall encrypted (shard_version shard)
         (pushShard encrypted (shard_version shard) "delta"
                    walletAddress identityKey backend).

(** [for (const shard of shards) { ... }]: the first [pushShard] that
    throws ends the loop. The result is [lastVersion], or the error. *)
Fixpoint push_all (backend : Backend) (shards : list Shard) (lastVersion : Num)
  : Exc string Num * list PushCall :=
  match shards with
  | [] => (Return lastVersion, [])
  | shard :: rest =>
      let call := push_one backend shard in
      match push_result call with
      | Throw err => (Throw err, [call])
      | Return _ =>
          let '(res, calls) := push_all backend rest (shard_version shard) in
          (res, call :: calls)
      end
  end.

(** The operations a tick would push from [db]. *)
Definition pending_operations (db : Db) : list Operation :=
  (factToUpsertOp <$> getDirtyFacts db) ++ (delete_op <$> getPendingDeletes db).

(** [syncDirtyFacts]; [uuid] is the [uuidv4()] drawn by this tick. *)
Definition syncDirtyFacts (db : Db) (backend : Backend) (uuid : string) : Tick :=
  let dirtyFacts := getDirtyFacts db in
  let pendingDeletes := getPendingDeletes db in
  if (length dirtyFacts =? 0)%nat && (length pendingDeletes =? 0)%nat
  then mkTick db NothingToSync []
  else
    let operations := (factToUpsertOp <$> dirtyFacts) ++ (delete_op <$> pendingDeletes) in
    let currentVersion := parseInt (default "0" (getMeta db "current_version")) in
    let startVersion := plus_one currentVersion in
    let shards := createChunkedShards operations startVersion uuid in
    match push_all backend shards currentVersion with
    | (Throw err, calls) => mkTick db (SyncFailed (UploadError err)) calls
    | (Return lastVersion, calls) =>
        let r :=
          and_then (clearDirtyState db) (λ db1,
          and_then (setMeta db1 "current_version" (String_of_number lastVersion)) (λ db2,
          setMeta db2 "last_pushed_version" (String_of_number lastVersion))) in
        match r with
        | (db', None) => mkTick db' (Synced lastVersion) calls
        | (db', Some e) => mkTick db' (SyncFailed (StoreError e)) calls
        end
    end.
End Push.

(** ** Share redemption (cli/sync.ts) *)

Definition MAX_SHARE_BYTES : Z := 2 * 1024 * 1024.

(** [DecodedShareToken] of cli/share.ts. *)
Module Token.
Record t (Key : Type) : Type := mk {
  shareId : string;
  key : Key;
  txId : option string
}.
Arguments mk {Key}.
Arguments shareId {Key}.
Arguments key {Key}.
Arguments txId {Key}.
End Token.

(** [ConversationShareInfo] of core/arweave.ts. *)
Module ShareInfo.
Record t : Type := mk {
  txId : string;
  shareId : string;
  wallet : string;
  timestamp : string;
  signature : option string
}.
End ShareInfo.

(** The parsed share payload as [validatePayload] inspects it: a member
    that must be a string is [Some] exactly when its [typeof] is "string",
    [messages] is [Some] exactly when it is an array, [v] is [Some] when it
    is a number, and [conversation] is [None] when it is missing or falsy.
    [json] stands for [JSON.stringify(conversation)]. *)
Record RawConversation : Type := mkRaw {
  raw_id : option string;
  raw_client : option string;
  raw_project : option string;
  raw_messages : option (list string);
  raw_startedAt : option string;
  raw_updatedAt : option string;
  raw_json : string
}.

Record SharePayload : Type := mkPayload {
  payload_v : option Z;
  payload_conversation : option RawConversation
}.

Inductive SyncError : Type :=
| InvalidToken (message : string)        (* thrown by extractToken / decodeShareToken *)
| Archive (e : ArweaveError)
| NoShareFound (shareId : string)        (* `No share found for id: ...` *)
| BadShareSignature                      (* "Share signature verification failed." *)
| CouldNotDecrypt                        (* "Could not decrypt shared payload. ..." *)
| InvalidPayloadVersion                  (* "Invalid share payload version." *)
| InvalidConversation                    (* "Invalid conversation payload." *)
| Sqlite (e : SqliteError).

(** How the command ends: [process.exit(1)] after `Sharme not initialized`,
    the [return] after `Share already imported.`, the end of the function
    after `Conversation imported.`, or an exception. *)
Inductive SyncOutcome : Type :=
| NotInitialized
| ShareAlreadyImported
| ConversationImported
| SyncThrew (e : SyncError).

Global Instance Exc_bind {E} : MBind (Exc E) :=
  λ A B f m, match m with Return a => f a | Throw e => Throw e end.

(** [validatePayload] *)
Definition validatePayload (payload : SharePayload) : Exc SyncError Conversation.t :=
  match payload_v payload, payload_conversation payload with
  | Some 1, Some c =>
      match raw_id c, raw_client c, raw_project c,
            raw_messages c, raw_startedAt c, raw_updatedAt c with
      | Some id, Some client, Some project, Some messages, Some startedAt, Some updatedAt =>
          if String.eqb client "cursor" || String.eqb client "claude-code"
          then Return (Conversation.mk id client project messages startedAt updatedAt
                                       (raw_json c))
          else Throw InvalidConversation
      | _, _, _, _, _, _ => Throw InvalidConversation
      end
  | _, _ => Throw InvalidPayloadVersion
  end.

(** What the command reaches over the network. *)
Record Network : Type := mkNetwork {
  data_gateway : string → string → DataReply;
  data_endpoints : list string;
  queryConversationShare : string → Exc ArweaveError (option ShareInfo.t)
}.

Section Sync.
(** The pure functions the command imports: [extractToken] and
    [decodeShareToken] (cli/share.ts), [verifySignature]
    (core/identity.js), [decrypt] (core/crypto.js), and
    [JSON.parse(new TextDecoder().decode(...))]. *)
Context {Key : Type}.
Variable extractToken : string → Exc string string.
Variable decodeShareToken : string → Exc string (Token.t Key).
Variable verifySignature : list byte → string → string → bool.
Variable decrypt : list byte → Key → Exc string (list byte).
Variable parsePayload : list byte → Exc string SharePayload.

Definition download (net : Network) (txId : string) : Exc ArweaveError (list byte) :=
  (downloadShard (data_gateway net) (data_endpoints net) txId (Some MAX_SHARE_BYTES)).1.

Definition lift {A} (wrap : string → SyncError) (r : Exc string A) : Exc SyncError A :=
  match r with
  | Return a => Return a
  | Throw m => Throw (wrap m)
  end.

Definition archive {A} (r : Exc ArweaveError A) : Exc SyncError A :=
  match r with
  | Return a => Return a
  | Throw e => Throw (Archive e)
  end.

(** The command from the first download up to [validatePayload]: the
    transaction id the payload came from, and the conversation. *)
Definition fetchPayload (net : Network) (decoded : Token.t Key)
  : Exc SyncError (option string * Conversation.t) :=
  (* if (txId) { try { encrypted = await downloadShard(...) } catch { encrypted = null } } *)
  let direct :=
    match Token.txId decoded with
    | Some t => if truthy t
                then match download net t with
                     | Return bytes => Some bytes
                     | Throw _ => None
                     end
                else None
    | None => None
    end in
  (* if (!encrypted) { shareInfo = await queryConversationShare(...); ... } *)
  '(shareInfo, txId, encrypted) ←
    match direct with
    | Some bytes => Return (None, Token.txId decoded, bytes)
    | None =>
        found ← archive (queryConversationShare net (Token.shareId decoded));
        match found with
        | None => Throw (NoShareFound (Token.shareId decoded))
        | Some info =>
            bytes ← archive (download net (ShareInfo.txId info));
            Return (Some info, Some (ShareInfo.txId info), bytes)
        end
    end;
  (* if (shareInfo?.signature && shareInfo.wallet) *)
  let valid :=
    match shareInfo with
    | Some info =>
        match ShareInfo.signature info with
        | Some sig =>
            if truthy sig && truthy (ShareInfo.wallet info)
            then verifySignature encrypted sig (ShareInfo.wallet info)
            else true
        | None => true
        end
    | None => true
    end in
  if negb valid then Throw BadShareSignature
  else
    payload ← match decrypt encrypted (Token.key decoded) ≫= parsePayload with
              | Return p => Return p
              | Throw _ => Throw CouldNotDecrypt
              end;
    conversation ← validatePayload payload;
    Return (txId, conversation).

(** The command up to [validatePayload]: the decoded token, the
    transaction id the payload came from, and the conversation. *)
Definition fetchShare (net : Network) (urlOrToken : string)
  : Exc SyncError (Token.t Key * option string * Conversation.t) :=
  token ← lift InvalidToken (extractToken urlOrToken);
  decoded ← lift InvalidToken (decodeShareToken token);
  '(txId, conversation) ← fetchPayload net decoded;
  Return (decoded, txId, conversation).

(** [syncCommand]. [home] is the database file, [None] when
    [existsSync(dbPath)] is false; opening an existing database leaves it
    as it is (the schema is created IF NOT EXISTS). [now] is the clock
    read by [saveSharedConversationImport]. *)
Definition syncCommand (net : Network) (home : option Db) (urlOrToken now : string)
  : option Db * SyncOutcome :=
  match home with
  | None => (None, NotInitialized)
  | Some db =>
      match fetchShare net urlOrToken with
      | Throw e => (Some db, SyncThrew e)
      | Return (decoded, txId, conversation) =>
          let alreadyImported := hasSharedConversationImport db (Token.shareId decoded) in
          if alreadyImported then (Some db, ShareAlreadyImported)
          else
            let entry := Entry.mk (Token.shareId decoded) (default "unknown" txId)
                                  conversation in
            match saveSharedConversationImport db entry now with
            | (db', None) => (Some db', ConversationImported)
            | (db', Some e) => (Some db', SyncThrew (Sqlite e))
            end
      end
  end.
End Sync.



(** * Specification predicates *)

(** Row [row] carries the columns of fact [f] that [upsertFact] writes on
    an insert and on a replace alike. *)
Definition holds (row : Row.t) (f : Fact.t) : Prop :=
  Row.id row = Fact.id f
  ∧ Row.scope row = Fact.scope f
  ∧ Row.value row = Fact.value f
  ∧ Row.tags row = Fact.tags f
  ∧ Row.confidence row = Fact.confidence f
  ∧ Row.source_session row = Fact.source_session f
  ∧ Row.last_confirmed row = Fact.last_confirmed f
  ∧ Row.access_count row = Fact.access_count f.

(** The name of a shard type as it appears in the [Type] tag. *)
Definition type_name (t : ShardType) : string :=
  match t with
  | delta => "delta"
  | snapshot => "snapshot"
  | identity => "identity"
  end.

(** Strict acceptance: what the tags of node [n] must be for [s] to be its
    entry in the result of [queryShards walletAddress]. *)
Definition strictly_accepted (toLowerCase : string → string)
           (walletAddress : string) (n : Node) (s : ShardInfo.t) : Prop :=
  let tags := tagMap (node_tags n) in
  ShardInfo.txId s = node_id n
  ∧ tags !! "Type" = Some (type_name (ShardInfo.type s))
  ∧ (tags !! "Wallet" = Some (ShardInfo.wallet s)
     ∧ toLowerCase (ShardInfo.wallet s) = toLowerCase walletAddress)
  ∧ (∃ sig, tags !! "Signature" = Some sig
            ∧ sig ≠ EmptyString ∧ trim sig ≠ EmptyString
            ∧ ShardInfo.signature s = Some (trim sig))
  ∧ match ShardInfo.type s with
    | identity => ShardInfo.version s = 0
    | _ => ∃ raw, tags !! "Version" = Some raw
                  ∧ parseInt raw = Fin (ShardInfo.version s)
                  ∧ 1 ≤ ShardInfo.version s
    end.

(** Node [n] is in a page that one of the configured gateways serves for a
    query about [walletAddress]. *)
Definition served (gql : string → GqlBody → GqlReply) (endpoints : list string)
           (walletAddress : string) (n : Node) : Prop :=
  ∃ endpoint after json es e,
    endpoint ∈ endpoints
    ∧ gql endpoint (mkBody walletAddress GQL_PAGE_SIZE after) = GqlOk json
    ∧ (data json ≫= transactions) ≫= edges = Some es
    ∧ e ∈ es ∧ node e = n.

(** What the loop over the edges of [queryShards] maintains: every collected
    entry is the strictly accepted entry of a served node, no transaction id
    occurs twice, and the ids of the collected entries have been seen. *)
Definition collected_ok (toLowerCase : string → string)
           (gql : string → GqlBody → GqlReply) (endpoints : list string)
           (w : string) (acc : Acc) : Prop :=
  Forall (λ s, ∃ n, served gql endpoints w n ∧ strictly_accepted toLowerCase w n s)
         (shards acc)
  ∧ NoDup (ShardInfo.txId <$> shards acc)
  ∧ ∀ s, s ∈ shards acc → ShardInfo.txId s ∈ seenTxIds acc.

(** The entries of [l] whose version is [v], in the order of [l]. *)
Definition with_version (v : Z) (l : list ShardInfo.t) : list ShardInfo.t :=
  filter (λ s, ShardInfo.version s = v) l.

(** Why a reply makes [gqlRequest] give an endpoint up, if it does: a
    rejected fetch, a status that is not ok, or a body that is not JSON. A
    JSON document, whatever it holds, does not. *)
Definition failure_of (r : GqlReply) : option EndpointFailure :=
  match r with
  | GqlNetworkError m => Some (Rejected m)
  | GqlHttpError st tx => Some (BadStatus st tx)
  | GqlBadJson m => Some (Rejected m)
  | GqlOk _ => None
  end.

(** The entries `${endpoint}: ${message}` of the endpoints that fail. *)
Definition failures (gql : string → GqlBody → GqlReply) (body : GqlBody)
           (endpoints : list string) : list (string * EndpointFailure) :=
  omap (λ ep, (λ f, (ep, f)) <$> failure_of (gql ep body)) endpoints.

(** The response of [endpoint] for [txId] is ok and its Content-Length
    header declares [declared] bytes. *)
Definition declares (gateway : string → string → DataReply) (endpoint txId : string)
           (declared : Z) : Prop :=
  ∃ res h, gateway endpoint txId = DataResolved res
           ∧ ok res = true
           ∧ content_length res = Some h ∧ h ≠ EmptyString
           ∧ parseInt h = Fin declared.

(** The response of [endpoint] for [txId] is ok, is not refused for its
    header under [maxBytes], and its body is [bytes]. *)
Definition delivers (gateway : string → string → DataReply) (endpoint txId : string)
           (maxBytes : Z) (bytes : list byte) : Prop :=
  ∃ res, gateway endpoint txId = DataResolved res
         ∧ ok res = true
         ∧ declared_too_large maxBytes (content_length res) = None
         ∧ arrayBuffer res = Return bytes.

(** * Sample data used to exercise the statements *)

Module Sample.
(** White space outside ASCII, in UTF-8: U+00A0, U+2028 and U+FEFF; and the
    letter U+00E0, whose second byte is the second byte of U+00A0. *)
Definition nbsp : string := String "194" (String "160" EmptyString).
Definition line_separator : string :=
  String "226" (String "128" (String "168" EmptyString)).
Definition bom : string := String "239" (String "187" (String "191" EmptyString)).
Definition a_grave : string := String "195" (String "160" EmptyString).

Definition fact (id key value created : string) : Fact.t :=
  Fact.mk id "global" key value ["auth"] (Qmake 1 1) None created created 0.

(** An empty database, and one where key "k" waits in [pending_deletes]. *)
Definition empty : Db := mkDb ∅ ∅ ∅ ∅.
Definition deleted_k : Db := mkDb ∅ {["k" := "2026-01-01T00:00:00.000Z"]} ∅ ∅.

(** A fact stored under "k1" with id "a", a later version of it, and a fact
    that reuses id "a" under another key. *)
Definition jwt : Fact.t := fact "a" "k1" "JWT" "t0".
Definition jwt_again : Fact.t := fact "b" "k1" "JWT, rotated" "t5".
Definition same_id : Fact.t := fact "a" "k2" "other" "t1".
Definition revived : Fact.t := fact "a" "k" "JWT" "t0".
Definition one_fact : Db := (upsertFact empty jwt).1.
Definition two_dirty : Db := (upsertFact one_fact (fact "c" "k3" "v" "t1")).1.

(** Stand-ins for the modules outside the sources, to run a tick on
    concrete data: a chunker that puts one operation in each shard, numbered
    from the start version; a backend that accepts the versions below a
    limit and fails on the others (limit 0: the backend is unreachable);
    numbers printed in decimal. *)
Fixpoint one_op_per_shard (ops : list Operation) (v : Num) (id : string) : list Shard :=
  match ops with
  | [] => []
  | op :: ops' => mkShard v id "delta" [op] :: one_op_per_shard ops' (plus_one v) id
  end.
Definition show (n : Num) : string :=
  match n with
  | NaN => "NaN"
  | PosInf => "Infinity"
  | NegInf => "-Infinity"
  | Fin z => pretty z
  end.
Definition backend_push (bytes : list byte) (v : Num) (type wallet : string)
           (identityKey : unit) (limit : Z) : Exc string string :=
  match v with
  | Fin n => if n <? limit then Return "tx" else Throw "fetch failed"
  | _ => Throw "fetch failed"
  end.
Definition tick (db : Db) (limit : Z) : Tick :=
  syncDirtyFacts one_op_per_shard (λ _, "{}") (λ _ _, []) backend_push show
                 tt tt "wallet" db limit "uuid".

(** Two GraphQL gateways: the first is unreachable, the second serves the
    shards of wallet "0xABC" in two pages. The first page holds a delta of
    version 2, a delta of version 1, the first transaction again, a delta
    tagged for another wallet, and a delta with a blank signature; the
    second an identity record, a snapshot whose version is not a number, and
    a conversation chunk. *)
Definition tx (id type wallet version signature : string) : Edge :=
  mkEdge ("cursor-" +:+ id)
         (mkNode id [("App-Name", "sharme"); ("Type", type); ("Wallet", wallet);
                     ("Version", version); ("Timestamp", "1700000000");
                     ("Signature", signature)]).
Definition page1 : GqlJson :=
  mkJson (Some (mkData (Some (mkTransactions (Some (mkPageInfo (Some true)))
                  (Some [tx "t2" "delta" "0xabc" "2" "sig2";
                         tx "t1" "delta" "0xABC" "1" "sig1";
                         tx "t2" "delta" "0xabc" "2" "sig2";
                         tx "t5" "delta" "0xdef" "3" "sig5";
                         tx "t6" "delta" "0xabc" "4" "  "])))))
         None.
Definition page2 : GqlJson :=
  mkJson (Some (mkData (Some (mkTransactions (Some (mkPageInfo (Some false)))
                  (Some [tx "t0" "identity" "0xabc" EmptyString "sig0";
                         tx "t7" "snapshot" "0xabc" "v7" "sig7";
                         tx "t8" "conversation" "0xabc" "1" "sig8"])))))
         None.
Definition gql (endpoint : string) (body : GqlBody) : GqlReply :=
  if String.eqb endpoint "https://arweave.net/graphql" then GqlNetworkError "ECONNRESET"
  else match var_after body with
       | None => GqlOk page1
       | Some _ => GqlOk page2
       end.
Definition gql_endpoints : list string :=
  ["https://arweave.net/graphql"; "https://g8way.io/graphql"].
Definition found : list ShardInfo.t :=
  [ShardInfo.mk "t0" 0 identity "1700000000" (Some "sig0") "0xabc";
   ShardInfo.mk "t1" 1 delta "1700000000" (Some "sig1") "0xABC";
   ShardInfo.mk "t2" 2 delta "1700000000" (Some "sig2") "0xabc"].

(** Two gateways of which the first answers with GraphQL errors (HTTP 200)
    and the second with a single page that holds one delta. *)
Definition last_page : GqlJson :=
  mkJson (Some (mkData (Some (mkTransactions (Some (mkPageInfo (Some false)))
                  (Some [tx "t1" "delta" "0xABC" "1" "sig1"])))))
         None.
Definition gql_erring (endpoint : string) (body : GqlBody) : GqlReply :=
  if String.eqb endpoint "https://arweave.net/graphql"
  then GqlOk (mkJson None (Some [Some "rate limited"; None]))
  else GqlOk last_page.

(** Two data gateways: the first announces more bytes than it will be
    allowed to send, the second sends three bytes. *)
Definition blob : list byte := [x01; x02; x03].
Definition blobs (endpoint txId : string) : DataReply :=
  if String.eqb endpoint "https://arweave.net"
  then DataResolved (mkResponse true 200 "OK" (Some "4096") (Return (blob ++ blob)))
  else DataResolved (mkResponse true 200 "OK" None (Return blob)).
Definition data_endpoints : list string := ["https://arweave.net"; "https://g8way.io"].

(** A gateway that keeps announcing a next page. *)
Definition endless (endpoint : string) (body : GqlBody) : GqlReply := GqlOk page1.

(** A share token, the payload it unlocks, and stand-ins for the token
    codec and the crypto (the payload travels in clear). *)
Definition token : Token.t unit := Token.mk "share-1" tt (Some "tx-1").
Definition payload : SharePayload :=
  mkPayload (Some 1)
            (Some (mkRaw (Some "c1") (Some "cursor") (Some "demo")
                         (Some ["hello"; "world"]) (Some "t0") (Some "t1") "{...}")).
Definition sync (net : Network) (home : option Db) (now : string) : option Db * SyncOutcome :=
  syncCommand (λ url, Return url) (λ _, Return token) (λ _ _ _, true)
              (λ bytes _, Return bytes) (λ _, Return payload)
              net home "sharme://share/abc" now.
Definition online : Network := mkNetwork blobs data_endpoints (λ _, Return None).
(** Another archive that serves the same share: one gateway, no index. *)
Definition elsewhere : Network :=
  mkNetwork (λ _ _, DataResolved (mkResponse true 200 "OK" None (Return blob)))
            ["https://g8way.io"] (λ _, Return None).
Definition offline : Network :=
  mkNetwork (λ _ _, DataNetworkError "ENOTFOUND") data_endpoints
            (λ _, Throw (AllGatewaysFailed [])).

(** A redeemed share. *)
Definition talk : Conversation.t :=
  Conversation.mk "c1" "cursor" "demo" ["hello"; "world"] "t0" "t1" "{...}".
Definition entry : Entry.t := Entry.mk "share-1" "tx-1" talk.
Definition imported : Db := (saveSharedConversationImport empty entry "t8").1.
End Sample.


(** * More of the store (core/db.js) *)

(** ORDER BY last_confirmed DESC. The column is TEXT and compares byte by
    byte: a row goes before the rows whose [last_confirmed] is smaller. *)
Definition newest_first (a b : Row.t) : Z :=
  match String.compare (Row.last_confirmed b) (Row.last_confirmed a) with
  | Lt => -1
  | Eq => 0
  | Gt => 1
  end.

(** [before compare x y]: the comparator lets [x] stand before [y]. *)
Definition before {A : Type} (compare : A → A → Z) (x y : A) : Prop := compare x y ≤ 0.

(** [getAllFacts]: SELECT * FROM facts ORDER BY last_confirmed DESC. SQL
    leaves the order of rows with equal [last_confirmed] open; here they
    stay in the order in which the map enumerates them. *)
Definition getAllFacts (db : Db) : list Fact.t :=
  rowToFact <$> sort newest_first (map_to_list (facts db)).*2.

(** [getFactsByScope]: SELECT * FROM facts WHERE scope = ? OR
    scope = 'global' ORDER BY last_confirmed DESC. *)
Definition getFactsByScope (db : Db) (scope : string) : list Fact.t :=
  rowToFact <$>
    sort newest_first
         (filter (λ r, Row.scope r = scope ∨ Row.scope r = "global")
                 (map_to_list (facts db)).*2).

(** The database [openDatabase] creates when the file does not exist yet:
    four empty tables. *)
Definition fresh : Db := mkDb ∅ ∅ ∅ ∅.

(** What the schema promises about [facts] (key is UNIQUE, id is the
    PRIMARY KEY): the row found under a key carries that key, and two rows
    with the same id are one row. *)
Definition schema_ok (db : Db) : Prop :=
  (∀ k r, facts db !! k = Some r → Row.key r = k)
  ∧ (∀ k1 k2 r1 r2,
       facts db !! k1 = Some r1 → facts db !! k2 = Some r2 →
       Row.id r1 = Row.id r2 → k1 = k2).

(** No key is at once a stored fact and a pending delete. *)
Definition never_both (db : Db) : Prop :=
  ∀ k, is_Some (facts db !! k) → pending_deletes db !! k = None.

(** The fact [getFact] gives back after [upsertFact db f]: [f], except that
    [created] is the stored one when the key was there already, and that an
    empty [source_session] is read back as null. The access count comes
    back as the double it is. *)
Definition read_back (db : Db) (f : Fact.t) : Fact.t :=
  Fact.mk (Fact.id f) (Fact.scope f) (Fact.key f) (Fact.value f) (Fact.tags f)
          (Fact.confidence f)
          (match Fact.source_session f with
           | Some s => if truthy s then Some s else None
           | None => None
           end)
          (match facts db !! Fact.key f with
           | Some old => Row.created old
           | None => Fact.created f
           end)
          (Fact.last_confirmed f) (double_of_integer (Fact.access_count f)).

(** A fact with its access count raised by one. *)
Definition accessed (f : Fact.t) : Fact.t :=
  Fact.mk (Fact.id f) (Fact.scope f) (Fact.key f) (Fact.value f) (Fact.tags f)
          (Fact.confidence f) (Fact.source_session f) (Fact.created f)
          (Fact.last_confirmed f) (Fact.access_count f + 1).

(** * More of the server (mcp/server.js) *)

(** [s.startsWith(prefix)] *)
Definition startsWith (s prefix : string) : bool := String.prefix prefix s.

(** The key under which [store_fact] stores:
    [key.startsWith("global:") || key.startsWith("project:") ? key :
     `${factScope}:${key}`]. *)
Definition fullKey (key factScope : string) : string :=
  if startsWith key "global:" || startsWith key "project:" then key
  else factScope +:+ ":" +:+ key.

(** The handler of the tool [store_fact]: [scope] is [None] when the caller
    gave none, [uuid] is the [uuidv4()] and [now] the
    [new Date().toISOString()] of the call. The result is the text of the
    answer, or the exception of the store. *)
Definition new_fact (key value : string) (tags : list string)
           (scope : option string) (uuid now : string) : Fact.t :=
  let factScope := default "global" scope in
  Fact.mk uuid factScope (fullKey key factScope) value tags (Qmake 1 1) None now now 0.

Definition store_fact (db : Db) (key value : string) (tags : list string)
           (scope : option string) (uuid now : string) : Db * Exc SqliteError string :=
  let fact := new_fact key value tags scope uuid now in
  match upsertFact db fact with
  | (db', None) => (db', Return ("Stored: " +:+ Fact.key fact))
  | (db', Some e) => (db', Throw e)
  end.

(** A message of a conversation. Each character of [content] and [role]
    stands for one UTF-16 code unit, so that [String.length] is [.length]. *)
Module Message.
Record t : Type := mk {
  role : string;
  content : string
}.
End Message.

Definition CHARS_PER_TOKEN : Z := 4.
(** [128_000 * 0.15], which is the double 19200. *)
Definition TOKEN_BUDGET : Z := 19200.
Definition charBudget : Z := TOKEN_BUDGET * CHARS_PER_TOKEN.

(** [msg.content.length + msg.role.length + 10] *)
Definition msgChars (msg : Message.t) : Z :=
  Z.of_nat (String.length (Message.content msg))
  + Z.of_nat (String.length (Message.role msg)) + 10.

(** The loop of [recall_conversation] that fills [msgs] from the end of
    the conversation: [latest_first] holds the messages not yet visited,
    the latest one first; the first message that does not fit ends the
    loop ([break]). *)
Fixpoint fill_from_end (latest_first : list Message.t) (msgs : list Message.t)
         (totalChars : Z) : list Message.t :=
  match latest_first with
  | [] => msgs
  | msg :: older =>
      if charBudget <? totalChars + msgChars msg then msgs
      else fill_from_end older (msg :: msgs) (totalChars + msgChars msg)
  end.

(** The messages [recall_conversation] shows of a conversation. *)
Definition shown (messages : list Message.t) : list Message.t :=
  fill_from_end (reverse messages) [] 0.

(** The characters a list of messages is counted for. *)
Definition chars (msgs : list Message.t) : Z := foldr (λ m n, msgChars m + n) 0 msgs.

(** The meta key of the cursor of a conversation:
    [`conversation_offset:${conversation.client}:${conversation.id}`]. *)
Definition stateKey (conversation : Conversation.t) : string :=
  "conversation_offset:" +:+ Conversation.client conversation
  +:+ ":" +:+ Conversation.id conversation.

(** The callback the server gives to the conversation watcher: first the
    offset it resumes from, then the callback. [pushConversationDelta]
    (core/sync.js, not among the sources) is given the conversation and
    that offset and returns the ids of the chunks it uploaded, or throws;
    [String(n)] of an array length is its decimal notation. *)
Definition resume_offset (db : Db) (conversation : Conversation.t) : Z :=
  let lastSyncedRaw := getMeta db (stateKey conversation) in
  let lastSynced := parseInt (default "0" lastSyncedRaw) in
  (* Number.isFinite(lastSynced) ? lastSynced : 0 *)
  match lastSynced with Fin n => n | _ => 0 end.

Definition on_conversation
           (pushConversationDelta : Conversation.t → Z → Exc string (list string))
           (db : Db) (conversation : Conversation.t) : Db :=
  match pushConversationDelta conversation (resume_offset db conversation) with
  | Throw _ => db
  | Return [] => db
  | Return (_ :: _) =>
      (setMeta db (stateKey conversation)
               (pretty (length (Conversation.messages conversation)))).1
  end.

(** The handler of the tool [recall_context]. [recallContext] is the
    ranking of engine/recall.js, which is not among the sources;
    [defaultScope] is [`project:${projectName}`]. The result is the store
    after the loop over [results], and [results]. *)
Definition recall_context
           (recallContext : string → string → list Fact.t → list Fact.t)
           (defaultScope : string) (db : Db) (topic : string) (scope : option string)
  : Db * list Fact.t :=
  let searchScope := default defaultScope scope in
  let allFacts := getAllFacts db in
  let results := recallContext topic searchScope allFacts in
  (foldl (λ db fact, (incrementAccessCount db (Fact.key fact)).1) db results, results).

(** A fact with its access count raised by [n]. *)
Definition accessed_times (n : nat) (f : Fact.t) : Fact.t :=
  Fact.mk (Fact.id f) (Fact.scope f) (Fact.key f) (Fact.value f) (Fact.tags f)
          (Fact.confidence f) (Fact.source_session f) (Fact.created f)
          (Fact.last_confirmed f) (Fact.access_count f + Z.of_nat n).

(** How often [key] is among the keys of [results]. *)
Definition times_recalled (key : string) (results : list Fact.t) : nat :=
  length (filter (λ fact, Fact.key fact = key) results).

(** * More of the archive adapter (core/arweave.ts) *)

(** [s.split(sep)] for a separator of one character. *)
Fixpoint split (sep : ascii) (s : string) : list string :=
  match s with
  | EmptyString => [EmptyString]
  | String c rest =>
      if Ascii.eqb c sep then EmptyString :: split sep rest
      else match split sep rest with
           | first :: others => String c first :: others
           | [] => [String c EmptyString]
           end
  end.

(** [s.replace(/\/+$/, EmptyString)]: [s] without the slashes at its end. *)
Fixpoint strip_slashes (s : string) : string :=
  match s with
  | EmptyString => EmptyString
  | String c rest =>
      match strip_slashes rest with
      | EmptyString => if Ascii.eqb c "/" then EmptyString else String c EmptyString
      | kept => String c kept
      end
  end.

(** [n] slashes. *)
Fixpoint slashes (n : nat) : string :=
  match n with
  | O => EmptyString
  | S n' => String "/" (slashes n')
  end.

(** [parseEndpointList]; [envValue] is [None] when the variable is unset. *)
Definition parseEndpointList (envValue : option string) (fallback : list string)
  : list string :=
  match envValue with
  | None => fallback
  | Some v =>
      if negb (truthy v) || String.eqb (trim v) EmptyString then fallback
      else
        let values :=
          strip_slashes <$> filter (λ s, truthy s = true) (trim <$> split "," v) in
        if (0 <? length values)%nat then values else fallback
  end.

Definition DEFAULT_GQL_ENDPOINTS : list string :=
  ["https://arweave.net/graphql"; "https://g8way.io/graphql"].
Definition DEFAULT_DATA_ENDPOINTS : list string :=
  ["https://arweave.net"; "https://g8way.io"].

(** The two lists the module computes when it is loaded, from
    [process.env.SHARME_ARWEAVE_GQLS] and [process.env.SHARME_ARWEAVE_DATAS]. *)
Definition ARWEAVE_GQL_ENDPOINTS (SHARME_ARWEAVE_GQLS : option string) : list string :=
  parseEndpointList SHARME_ARWEAVE_GQLS DEFAULT_GQL_ENDPOINTS.
Definition ARWEAVE_DATA_ENDPOINTS (SHARME_ARWEAVE_DATAS : option string) : list string :=
  parseEndpointList SHARME_ARWEAVE_DATAS DEFAULT_DATA_ENDPOINTS.

(** The entries [downloadShard] pushes to [errors] while it goes through
    [endpoints]: one for each endpoint whose attempt throws. *)
Definition download_failures (gateway : string → string → DataReply)
           (txId : string) (maxBytes : option Z) (endpoints : list string)
  : list (string * EndpointFailure) :=
  omap (λ endpoint,
          match (attempt gateway endpoint txId maxBytes).1 with
          | Throw err => Some (endpoint, err)
          | Return _ => None
          end) endpoints.

(** What [downloadShard] does to the network when it tries each of
    [endpoints]. *)
Definition download_events (gateway : string → string → DataReply)
           (txId : string) (maxBytes : option Z) (endpoints : list string)
  : list NetEvent :=
  concat ((λ endpoint, (attempt gateway endpoint txId maxBytes).2) <$> endpoints).

(** A page that makes [queryShards] ask for the next one: no errors, at
    least one edge, [hasNextPage === true] and a non-empty last cursor. *)
Definition announces_more (json : GqlJson) : Prop :=
  (errors json = None ∨ errors json = Some [])
  ∧ ∃ e es, (data json ≫= transactions) ≫= edges = Some (e :: es)
            ∧ ((data json ≫= transactions) ≫= pageInfo) ≫= hasNextPage = Some true
            ∧ truthy (cursor (List.last es e)) = true.

(** [ConversationChunkInfo] *)
Module ChunkInfo.
Record t : Type := mk {
  txId : string;
  wallet : string;
  client : string;
  project : string;
  session : string;
  chunkIndex : Z;
  chunkTotal : Z;
  offset : Z;
  count : Z;
  timestamp : string;
  signature : option string
}.
End ChunkInfo.

(** [raw ? Number.parseInt(raw, 10) : 0] *)
Definition parse_or_zero (raw : option string) : Num :=
  match raw with
  | Some r => if truthy r then parseInt r else Fin 0
  | None => Fin 0
  end.

(** The body of the loop over the edges of [queryConversationChunks],
    after the duplicate check: the entry pushed for a node, or [None] when
    the node is skipped ([continue]). *)
Definition accept_chunk (toLowerCase : string → string)
           (walletAddress : string) (n : Node) : option ChunkInfo.t :=
  let tags := tagMap (node_tags n) in
  let wallet := default EmptyString (tags !! "Wallet") in
  if negb (truthy wallet)
     || negb (String.eqb (toLowerCase wallet) (toLowerCase walletAddress))
  then None
  else
    match tags !! "Client" with
    | None => None
    | Some client =>
        if negb (String.eqb client "cursor") && negb (String.eqb client "claude-code")
        then None
        else
          let project := default EmptyString (tags !! "Project") in
          let session := default EmptyString (tags !! "Session") in
          if negb (truthy project) || negb (truthy session) then None
          else
            let rawChunk := default "1/1" (tags !! "Chunk") in
            let chunkParts := split "/" rawChunk in
            match parseInt (default "1" (chunkParts !! 0%nat)),
                  parseInt (default "1" (chunkParts !! 1%nat)) with
            | Fin chunkIndex, Fin chunkTotal =>
                if (chunkIndex <? 1) || (chunkTotal <? 1) || (chunkTotal <? chunkIndex)
                then None
                else
                  match parse_or_zero (tags !! "Offset"),
                        parse_or_zero (tags !! "Count") with
                  | Fin offset, Fin count =>
                      if (offset <? 0) || (count <? 0) then None
                      else
                        let rawSignature :=
                          default EmptyString (trim <$> tags !! "Signature") in
                        if truthy rawSignature
                        then Some (ChunkInfo.mk (node_id n) wallet client project session
                                     chunkIndex chunkTotal offset count
                                     (default EmptyString (tags !! "Timestamp"))
                                     (Some rawSignature))
                        else None
                  | _, _ => None
                  end
            | _, _ => None
            end
    end.

(** The accumulators of [queryConversationChunks]: the array [chunks] and
    the set [seenTxIds]. *)
Record ChunkAcc : Type := mkChunkAcc {
  chunks : list ChunkInfo.t;
  seenChunkTxIds : gset string
}.

(** One iteration of [for (const edge of edges)]. *)
Definition visit_chunk (toLowerCase : string → string)
           (walletAddress : string) (acc : ChunkAcc) (edge : Edge) : ChunkAcc :=
  let n := node edge in
  if decide (node_id n ∈ seenChunkTxIds acc) then acc
  else
    let seen := {[node_id n]} ∪ seenChunkTxIds acc in
    match accept_chunk toLowerCase walletAddress n with
    | None => mkChunkAcc (chunks acc) seen
    | Some c => mkChunkAcc (chunks acc ++ [c]) seen
    end.

Section Chunks.
(** [String.prototype.toLowerCase], what each endpoint answers to the
    conversation query, the endpoints, and [String.prototype.localeCompare]. *)
Variable toLowerCase : string → string.
Variable gql : string → GqlBody → GqlReply.
Variable endpoints : list string.
Variable localeCompare : string → string → Z.

(** The [while (true)] loop of [queryConversationChunks]; [pages] is the
    number of pages that may still be requested. *)
Fixpoint queryConversationChunks_pages (pages : nat) (walletAddress : string)
         (acc : ChunkAcc) (after : option string) : Exc ArweaveError (list ChunkInfo.t) :=
  match pages with
  | O => Throw PaginationExceeded
  | S pages' =>
      match gqlRequest gql endpoints (mkBody walletAddress GQL_PAGE_SIZE after) with
      | Throw e => Throw e
      | Return json =>
          match errors json with
          | Some (e :: es) => Throw (GraphQLReturnedErrors (error_messages (e :: es)))
          | _ =>
              let transactions := data json ≫= transactions in
              match default [] (transactions ≫= edges) with
              | [] => Return (chunks acc)
              | e :: es =>
                  let acc' := foldl (visit_chunk toLowerCase walletAddress) acc (e :: es) in
                  let lastCursor := cursor (List.last es e) in
                  let more := match (transactions ≫= pageInfo) ≫= hasNextPage with
                              | Some true => true
                              | _ => false
                              end in
                  if negb more || negb (truthy lastCursor)
                  then Return (chunks acc')
                  else queryConversationChunks_pages pages' walletAddress acc'
                                                     (Some lastCursor)
              end
          end
      end
  end.

(** The comparator of [chunks.sort(...)]. *)
Definition compare_chunks (a b : ChunkInfo.t) : Z :=
  if negb (String.eqb (ChunkInfo.session a) (ChunkInfo.session b))
  then localeCompare (ChunkInfo.session a) (ChunkInfo.session b)
  else if negb (ChunkInfo.offset a =? ChunkInfo.offset b)
  then ChunkInfo.offset a - ChunkInfo.offset b
  else if negb (ChunkInfo.chunkIndex a =? ChunkInfo.chunkIndex b)
  then ChunkInfo.chunkIndex a - ChunkInfo.chunkIndex b
  else localeCompare (ChunkInfo.timestamp a) (ChunkInfo.timestamp b).

(** [queryConversationChunks] *)
Definition queryConversationChunks (walletAddress : string)
  : Exc ArweaveError (list ChunkInfo.t) :=
  match queryConversationChunks_pages GQL_MAX_PAGES walletAddress (mkChunkAcc [] ∅) None with
  | Throw e => Throw e
  | Return found => Return (sort compare_chunks found)
  end.
End Chunks.

(** What the tags of node [n] must be for [c] to be its entry in the result
    of [queryConversationChunks walletAddress]. *)
Definition well_formed_chunk (toLowerCase : string → string)
           (walletAddress : string) (n : Node) (c : ChunkInfo.t) : Prop :=
  let tags := tagMap (node_tags n) in
  ChunkInfo.txId c = node_id n
  ∧ (tags !! "Wallet" = Some (ChunkInfo.wallet c)
     ∧ toLowerCase (ChunkInfo.wallet c) = toLowerCase walletAddress)
  ∧ (tags !! "Client" = Some (ChunkInfo.client c)
     ∧ (ChunkInfo.client c = "cursor" ∨ ChunkInfo.client c = "claude-code"))
  ∧ (tags !! "Project" = Some (ChunkInfo.project c) ∧ ChunkInfo.project c ≠ EmptyString)
  ∧ (tags !! "Session" = Some (ChunkInfo.session c) ∧ ChunkInfo.session c ≠ EmptyString)
  ∧ 1 ≤ ChunkInfo.chunkIndex c ≤ ChunkInfo.chunkTotal c
  ∧ 0 ≤ ChunkInfo.offset c
  ∧ 0 ≤ ChunkInfo.count c
  ∧ ∃ raw, tags !! "Signature" = Some raw
           ∧ trim raw ≠ EmptyString
           ∧ ChunkInfo.signature c = Some (trim raw).

Module Arweave.
(** [queryConversationShare]; [reply] is what
    [await gqlRequest({ query, variables: { shareId } })] gives: the
    document of a gateway, or the exception of [gqlRequest]. *)
Definition queryConversationShare (reply : Exc ArweaveError GqlJson) (shareId : string)
  : Exc ArweaveError (option ShareInfo.t) :=
  match reply with
  | Throw e => Throw e
  | Return json =>
      match errors json with
      | Some (e :: es) => Throw (GraphQLReturnedErrors (error_messages (e :: es)))
      | _ =>
          (* json.data?.transactions?.edges?.[0]?.node *)
          match head (default [] ((data json ≫= transactions) ≫= edges)) with
          | None => Return None
          | Some edge =>
              let tags := tagMap (node_tags (node edge)) in
              if bool_decide (tags !! "Type" ≠ Some "conversation-share")
                 || bool_decide (tags !! "Share-Id" ≠ Some shareId)
              then Return None
              else
                let wallet := default EmptyString (tags !! "Wallet") in
                let timestamp := default EmptyString (tags !! "Timestamp") in
                let rawSignature := default EmptyString (trim <$> tags !! "Signature") in
                let signature := if truthy rawSignature then Some rawSignature else None in
                Return (Some (ShareInfo.mk (node_id (node edge)) shareId wallet
                                           timestamp signature))
          end
      end
  end.
End Arweave.

(** * The share token (cli/share.ts) *)

(** A value that [JSON.parse] returns. [JNumber] holds the numbers of
    [Num]; [JFraction] stands for every other number. An object has one
    member for each of its names. *)
#[local] Set Warnings "-register-all".
Inductive Json : Type :=
| JNull
| JBool (b : bool)
| JNumber (n : Num)
| JFraction
| JString (s : string)
| JArray (items : list Json)
| JObject (members : list (string * Json)).
#[local] Set Warnings "register-all".

(** [value.name], [None] for [undefined]: an array or a primitive has none
    of the members the code reads. *)
Definition member (value : Json) (name : string) : option Json :=
  match value with
  | JObject members => (λ found, found.2.2) <$> list_find (λ m, m.1 = name) members
  | _ => None
  end.

(** [isShareTokenV1] *)
Definition isShareTokenV1 (value : Json) : bool :=
  match value with
  | JObject _ =>
      match member value "v", member value "sid", member value "k" with
      | Some (JNumber (Fin 1)), Some (JString sid), Some (JString k) =>
          truthy sid && truthy k
          && match member value "t" with
             | None => true
             | Some (JString _) => true
             | Some _ => false
             end
      | _, _, _ => false
      end
  | _ => false
  end.

Section ShareToken.
(** [parse_text token] is
    [JSON.parse(Buffer.from(token, "base64url").toString("utf-8"))], which
    throws when the text is not JSON; [encode_text value] is
    [Buffer.from(JSON.stringify(value), "utf-8").toString("base64url")];
    [base64url s] is [Buffer.from(s, "base64url")], which never throws.
    [URL_parse] is [new URL(s)], [None] when it throws, reduced to the two
    parts [extractToken] reads. *)
Variable parse_text : string → Exc string Json.
Variable encode_text : Json → string.
Variable base64url : string → list byte.

(** [encodeShareToken] of the token [{ v: 1, sid, k, t }]; without [t]
    the object has no such member. *)
Definition token_object (sid k : string) (t : option string) : Json :=
  JObject ([("v", JNumber (Fin 1)); ("sid", JString sid); ("k", JString k)]
           ++ match t with Some t => [("t", JString t)] | None => [] end).

Definition encodeShareToken (sid k : string) (t : option string) : string :=
  encode_text (token_object sid k t).

(** [decodeShareToken] *)
Definition decodeShareToken (token : string) : Exc string (Token.t (list byte)) :=
  match parse_text token with
  | Throw _ => Throw "Invalid share token format."
  | Return parsed =>
      if negb (isShareTokenV1 parsed) then Throw "Invalid share token payload."
      else
        match member parsed "sid", member parsed "k" with
        | Some (JString sid), Some (JString k) =>
            let keyBytes := base64url k in
            if negb (length keyBytes =? 32)%nat
            then Throw "Invalid share token key length."
            else Return (Token.mk sid keyBytes
                           (match member parsed "t" with
                            | Some (JString t) => Some t
                            | _ => None
                            end))
        | _, _ => Throw "Invalid share token payload."
        end
  end.

(** The parts of a [URL] that [extractToken] reads:
    [url.searchParams.get("token")] and [url.pathname]. *)
Record Url : Type := mkUrl {
  token_param : option string;
  pathname : string
}.
Variable URL_parse : string → option Url.

(** [s.includes(sub)] *)
Definition includes (s sub : string) : bool :=
  match String.index 0 sub s with
  | Some _ => true
  | None => false
  end.

(** [extractToken] *)
Definition extractToken (input : string) : Exc string string :=
  let trimmed := trim input in
  if String.eqb trimmed EmptyString then Throw "Missing share token."
  else if negb (includes trimmed "://") then Return trimmed
  else
    match URL_parse trimmed with
    | None => Throw "Invalid share URL."
    | Some url =>
        match token_param url with
        | Some fromQuery =>
            if truthy fromQuery then Return fromQuery
            else
              match last (filter (λ s, truthy s = true) (split "/" (pathname url))) with
              | Some part => Return part
              | None => Throw "Could not extract token from URL."
              end
        | None =>
            match last (filter (λ s, truthy s = true) (split "/" (pathname url))) with
            | Some part => Return part
            | None => Throw "Could not extract token from URL."
            end
        end
    end.
End ShareToken.

(** Sample data: the reply to a share lookup whose transaction carries a
    blank signature, a network that answers the lookup with it, and stand-ins
    for the codec of the token. *)
Module Demo.
Definition unsigned_share : GqlJson :=
  mkJson (Some (mkData (Some (mkTransactions None
            (Some [mkEdge "c" (mkNode "tx-1" [("App-Name", "sharme");
                                             ("Type", "conversation-share");
                                             ("Share-Id", "share-1");
                                             ("Wallet", "0xabc");
                                             ("Signature", "  ")])])))))
         None.
Definition lookup_only : Network :=
  mkNetwork Sample.blobs Sample.data_endpoints
            (λ shareId, Arweave.queryConversationShare (Return unsigned_share) shareId).
Definition legacy_token : Token.t unit := Token.mk "share-1" tt None.
Definition sync (verifySignature : list byte → string → string → bool)
           (home : option Db) (now : string) : option Db * SyncOutcome :=
  syncCommand (λ url, Return url) (λ _, Return legacy_token) verifySignature
              (λ bytes _, Return bytes) (λ _, Return Sample.payload)
              lookup_only home "sharme://share/abc" now.
Definition key32 : list byte := replicate 32 x00.

(** A gateway that serves two chunks of one session, the later one first,
    and a chunk whose [Chunk] tag has no total. *)
Definition chunk (id offset part : string) : Edge :=
  mkEdge ("cursor-" +:+ id)
         (mkNode id [("App-Name", "sharme"); ("Type", "conversation");
                     ("Wallet", "0xabc"); ("Client", "cursor"); ("Project", "demo");
                     ("Session", "s1"); ("Chunk", part); ("Offset", offset);
                     ("Count", "2"); ("Timestamp", "1700000000");
                     ("Signature", "sig")]).
Definition chunk_page : GqlJson :=
  mkJson (Some (mkData (Some (mkTransactions (Some (mkPageInfo (Some false)))
                  (Some [chunk "c2" "2" "2/2"; chunk "c1" "0" "1/2";
                         chunk "c3" "4" "2"])))))
         None.
Definition chunk_gql (endpoint : string) (body : GqlBody) : GqlReply := GqlOk chunk_page.
Definition byte_order (a b : string) : Z :=
  match String.compare a b with
  | Lt => -1
  | Eq => 0
  | Gt => 1
  end.
End Demo.
(** * Properties *)

(** ** The JavaScript helpers on concrete inputs *)

Example parseInt_reads_a_prefix :
  parseInt " 12abc" = Fin 12 ∧ parseInt "1.5" = Fin 1 ∧ parseInt "+7" = Fin 7
  ∧ parseInt "-3" = Fin (-3) ∧ parseInt "0x10" = Fin 0.
Proof. repeat split. Qed.

Example parseInt_without_digits :
  parseInt "abc" = NaN ∧ parseInt EmptyString = NaN ∧ parseInt "-" = NaN.
Proof. repeat split. Qed.

Example parseInt_rounds_to_double :
  parseInt "9007199254740993" = Fin 9007199254740992
  ∧ parseInt "9007199254740995" = Fin 9007199254740996
  ∧ number_of_Z (2 ^ 1024) = PosInf
  ∧ number_of_Z (2 ^ 1024 - 2 ^ 971) = Fin (2 ^ 1024 - 2 ^ 971).
Proof. repeat split; vm_compute; reflexivity. Qed.

Example trim_strips_both_ends :
  trim "  a b  " = "a b" ∧ trim "   " = EmptyString ∧ trim EmptyString = EmptyString.
Proof. repeat split. Qed.

Example trim_strips_unicode_white_space :
  trim (Sample.nbsp +:+ " a b" +:+ Sample.bom +:+ Sample.line_separator) = "a b"
  ∧ trim (Sample.nbsp +:+ Sample.bom) = EmptyString
  ∧ trim (" " +:+ Sample.a_grave +:+ " ") = Sample.a_grave
  ∧ parseInt (Sample.nbsp +:+ "7") = Fin 7
  ∧ parseInt (Sample.line_separator +:+ Sample.bom +:+ "-12px") = Fin (-12).
Proof. repeat split. Qed.

Example lowercase_ascii_letters : lowercase_ascii "AbC-Z@[9" = "abc-z@[9".
Proof. reflexivity. Qed.

Example sort_is_stable :
  sort (λ a b : Z * string, a.1 - b.1) [(3, "a"); (1, "b"); (3, "c"); (1, "d"); (2, "e")]
  = [(1, "b"); (1, "d"); (2, "e"); (3, "a"); (3, "c")].
Proof. reflexivity. Qed.

Example tagMap_last_wins :
  tagMap [("Type", "conversation"); ("Type", "delta")] !! "Type" = Some "delta".
Proof. vm_compute. reflexivity. Qed.

Example accept_examples :
  accept lowercase_ascii "0xABC" (node (Sample.tx "t1" "delta" "0xabc" "1" " sig "))
  = Some (ShardInfo.mk "t1" 1 delta "1700000000" (Some "sig") "0xabc")
  ∧ accept lowercase_ascii "0xABC" (node (Sample.tx "t1" "delta" "0xabc" "0" "sig")) = None
  ∧ accept lowercase_ascii "0xABC" (node (Sample.tx "t1" "delta" "0xabd" "1" "sig")) = None
  ∧ accept lowercase_ascii "0xABC" (node (Sample.tx "t1" "identity" "0xabc" "7" "sig"))
    = Some (ShardInfo.mk "t1" 0 identity "1700000000" (Some "sig") "0xabc")
  ∧ accept lowercase_ascii "0xABC"
           (node (Sample.tx "t1" "delta" "0xabc" (Sample.nbsp +:+ "7")
                            (Sample.nbsp +:+ "sig" +:+ Sample.bom)))
    = Some (ShardInfo.mk "t1" 7 delta "1700000000" (Some "sig") "0xabc")
  ∧ accept lowercase_ascii "0xABC"
           (node (Sample.tx "t1" "delta" "0xabc" "7" Sample.nbsp)) = None.
Proof. repeat split; vm_compute; reflexivity. Qed.

Example pagination_is_bounded :
  queryShards lowercase_ascii Sample.endless ["https://arweave.net/graphql"] "0xABC"
  = Throw PaginationExceeded.
Proof. vm_compute. reflexivity. Qed.

(** ** Scripts of statements *)

Lemma last_nonempty {A} (x : A) (l : list A) (d d' : A) :
  List.last (x :: l) d = List.last (x :: l) d'.
Proof.
  revert x. induction l as [| y l IH]; intros x; [reflexivity |].
  change (List.last (y :: l) d = List.last (y :: l) d'). apply IH.
Qed.

(** The database a script leaves is the last state it committed. *)
Lemma run_last_commit ss : ∀ db, (run ss db).1 = List.last (commits ss db) db.
Proof.
  induction ss as [| s ss IH]; intros db; simpl; [reflexivity |].
  destruct (s db) as [db' | e]; [| reflexivity].
  rewrite IH. destruct (commits ss db') as [| d l]; [reflexivity |].
  change (List.last (d :: l) db' = List.last (d :: l) db). apply last_nonempty.
Qed.

(** ** upsertFact *)

Lemma upsertFact_conflict db f :
  id_conflict db f → upsertFact db f = (db, Some (UniqueViolation "facts.id")).
Proof.
  intros Hc. unfold upsertFact, upsertFact_stmts, stmt_upsert_fact. simpl.
  destruct (decide (id_conflict db f)); [reflexivity | contradiction].
Qed.

Lemma upsertFact_ok db f :
  ¬ id_conflict db f →
  upsertFact db f =
    (mkDb (<[Fact.key f :=
               match facts db !! Fact.key f with
               | Some old => do_update old (row_of_fact f)
               | None => row_of_fact f
               end]> (facts db))
          (delete (Fact.key f) (pending_deletes db))
          (meta db) (shared_conversation_imports db),
     None).
Proof.
  intros Hc. unfold upsertFact, upsertFact_stmts, stmt_upsert_fact. simpl.
  destruct (decide (id_conflict db f)); [contradiction | reflexivity].
Qed.

(** C4, as amended. [upsertFact] is two auto-committed statements, not one
    transaction. When the id of [f] is not already the id of a row stored
    under another key, it inserts or replaces the row under [f]'s key,
    leaves that row with the columns of [f] and [dirty] = 1, removes the
    pending delete of that key and touches nothing else; the state between
    the two statements, with the row written and the pending delete still
    there, is committed on its own. When the id is taken by a row under
    another key, the call throws a uniqueness error and changes nothing. *)
Theorem upsertFact_two_statements (db : Db) (f : Fact.t) :
  (id_conflict db f →
     upsertFact db f = (db, Some (UniqueViolation "facts.id"))
     ∧ commits (upsertFact_stmts f) db = [])
  ∧ (¬ id_conflict db f →
     let db' := (upsertFact db f).1 in
     (upsertFact db f).2 = None
     ∧ (∃ row, facts db' !! Fact.key f = Some row
               ∧ Row.dirty row = 1
               ∧ holds row f
               ∧ Row.created row = match facts db !! Fact.key f with
                                   | Some old => Row.created old
                                   | None => Fact.created f
                                   end)
     ∧ pending_deletes db' !! Fact.key f = None
     ∧ (∀ k, k ≠ Fact.key f →
             facts db' !! k = facts db !! k
             ∧ pending_deletes db' !! k = pending_deletes db !! k)
     ∧ meta db' = meta db
     ∧ shared_conversation_imports db' = shared_conversation_imports db
     ∧ ∃ mid, commits (upsertFact_stmts f) db = [mid; db']
              ∧ facts mid = facts db'
              ∧ pending_deletes mid = pending_deletes db).
Proof.
  split.
  - intros Hc. split; [by apply upsertFact_conflict |].
    unfold upsertFact_stmts, stmt_upsert_fact. simpl.
    destruct (decide (id_conflict db f)); [reflexivity | contradiction].
  - intros Hc. cbv zeta. rewrite (upsertFact_ok db f Hc). simpl.
    split; [reflexivity |].
    split.
    { eexists. split; [apply lookup_insert_eq |].
      destruct (facts db !! Fact.key f); repeat split. }
    split; [apply lookup_delete_eq |].
    split.
    { intros k Hk. split.
      - by rewrite lookup_insert_ne.
      - by rewrite lookup_delete_ne. }
    split; [reflexivity |]. split; [reflexivity |].
    unfold stmt_upsert_fact.
    destruct (decide (id_conflict db f)); [contradiction |].
    eexists. split; [reflexivity |]. split; reflexivity.
Qed.

Lemma upsertFact_two_statements_witness :
  ¬ id_conflict Sample.deleted_k Sample.revived
  ∧ (upsertFact Sample.deleted_k Sample.revived).2 = None
  ∧ pending_deletes (upsertFact Sample.deleted_k Sample.revived).1 !! "k" = None.
Proof.
  assert (Hc : ¬ id_conflict Sample.deleted_k Sample.revived)
    by (apply (bool_decide_unpack _); vm_compute; exact I).
  split; [exact Hc |].
  destruct (upsertFact_two_statements Sample.deleted_k Sample.revived) as [_ H].
  destruct (H Hc) as (H1 & _ & H3 & _).
  split; [exact H1 | exact H3].
Defined.

(** C4, as stated, fails on the code in two ways. First, a fact whose id is
    already used under another key is neither inserted nor replaced: the
    call throws. Second, the call is not one transaction: after the first
    statement a state is committed in which the row is written (dirty) and
    the pending delete of the same key is still there. *)
Lemma upsertFact_not_atomic :
  (upsertFact Sample.one_fact Sample.same_id
   = (Sample.one_fact, Some (UniqueViolation "facts.id"))
   ∧ facts (upsertFact Sample.one_fact Sample.same_id).1 !! "k2" = None)
  ∧ (∃ mid after,
       commits (upsertFact_stmts Sample.revived) Sample.deleted_k = [mid; after]
       ∧ (Row.dirty <$> facts mid !! "k") = Some 1
       ∧ is_Some (pending_deletes mid !! "k")
       ∧ mid ≠ after).
Proof.
  split.
  - split; vm_compute; reflexivity.
  - eexists _, _. split; [vm_compute; reflexivity |].
    split; [vm_compute; reflexivity |].
    split; [vm_compute; eexists; reflexivity |].
    intros Heq. apply (f_equal (λ d, pending_deletes d !! "k")) in Heq.
    vm_compute in Heq. discriminate.
Qed.

(** The columns [upsertFact] writes over an existing row: all of the fact's
    but [key] and [created]. *)
Lemma do_update_columns old f :
  do_update old (row_of_fact f) =
    Row.mk (Fact.id f) (Fact.scope f) (Row.key old) (Fact.value f) (Fact.tags f)
           (Fact.confidence f) (Fact.source_session f) (Row.created old)
           (Fact.last_confirmed f) (Fact.access_count f) 1.
Proof. reflexivity. Qed.

Lemma upsertFact_lookup_created db f k old :
  facts db !! k = Some old →
  ∃ row, facts (upsertFact db f).1 !! k = Some row ∧ Row.created row = Row.created old.
Proof.
  intros Hk. destruct (decide (id_conflict db f)) as [Hc | Hc].
  - rewrite (upsertFact_conflict db f Hc). simpl. eauto.
  - rewrite (upsertFact_ok db f Hc). simpl.
    destruct (decide (Fact.key f = k)) as [-> | Hne].
    + rewrite lookup_insert_eq, Hk. eexists. split; reflexivity.
    + rewrite lookup_insert_ne by done. eauto.
Qed.

(** No call other than [deleteFact] on the key removes a row or changes its
    [created]. *)
Lemma call_keeps_created db m k old :
  facts db !! k = Some old →
  (∀ now, m ≠ call_deleteFact k now) →
  ∃ row, facts (call db m) !! k = Some row ∧ Row.created row = Row.created old.
Proof.
  intros Hk Hm. destruct m as [f | k' now | | k' | k' v | e now]; simpl.
  - by apply upsertFact_lookup_created.
  - destruct (decide (k' = k)) as [-> | Hne]; [by destruct (Hm now) |].
    unfold deleteFact, deleteFact_stmts, stmt_delete_fact.
    destruct (bool_decide (is_Some (facts db !! k'))); simpl;
      rewrite lookup_delete_ne by done; eauto.
  - rewrite lookup_fmap, Hk. simpl. eauto.
  - rewrite lookup_alter. case_decide; simplify_eq; rewrite Hk; simpl; eauto.
  - eauto.
  - unfold saveSharedConversationImport, stmt_insert_import. simpl.
    destruct (shared_conversation_imports db !! Entry.shareId e); simpl; eauto.
Qed.

Lemma calls_keep_created ms : ∀ db k old,
  facts db !! k = Some old →
  (∀ now, call_deleteFact k now ∉ ms) →
  ∃ row, facts (calls db ms) !! k = Some row ∧ Row.created row = Row.created old.
Proof.
  induction ms as [| m ms IH]; intros db k old Hk Hms; simpl.
  - eauto.
  - destruct (call_keeps_created db m k old Hk) as (row & Hrow & Hc).
    { intros now ->. apply (Hms now). left. }
    destruct (IH (call db m) k row Hrow) as (row' & Hrow' & Hc').
    { intros now Hin. apply (Hms now). by right. }
    exists row'. split; [done | congruence].
Qed.

(** C5. When a row is stored under the key of [f], [upsertFact db f] leaves
    a row under that key with the stored [created] (and [key]); when the
    call succeeds the other columns are those of [f] and [dirty] is 1, when
    it throws the row is as before. Hence through any later calls of the
    store, as long as the key is not deleted, [created] stays what it was
    at insertion. *)
Theorem upsertFact_keeps_created (db : Db) (f : Fact.t) (old : Row.t) :
  facts db !! Fact.key f = Some old →
  (∃ row, facts (upsertFact db f).1 !! Fact.key f = Some row
          ∧ Row.created row = Row.created old
          ∧ Row.key row = Row.key old
          ∧ ((upsertFact db f).2 = None →
               row = Row.mk (Fact.id f) (Fact.scope f) (Row.key old) (Fact.value f)
                            (Fact.tags f) (Fact.confidence f) (Fact.source_session f)
                            (Row.created old) (Fact.last_confirmed f)
                            (Fact.access_count f) 1)
          ∧ ((upsertFact db f).2 ≠ None → row = old))
  ∧ (∀ ms, (∀ now, call_deleteFact (Fact.key f) now ∉ ms) →
           ∃ row, facts (calls db ms) !! Fact.key f = Some row
                  ∧ Row.created row = Row.created old).
Proof.
  intros Hk. split.
  - destruct (decide (id_conflict db f)) as [Hc | Hc].
    + rewrite (upsertFact_conflict db f Hc). simpl. exists old.
      repeat split; try done.
    + rewrite (upsertFact_ok db f Hc). simpl.
      rewrite lookup_insert_eq, Hk. eexists. split; [reflexivity |].
      repeat split; try done.
  - intros ms Hms. by apply calls_keep_created.
Qed.

Lemma upsertFact_keeps_created_witness :
  facts Sample.one_fact !! "k1" = Some (row_of_fact Sample.jwt)
  ∧ (Row.created <$> facts (upsertFact Sample.one_fact Sample.jwt_again).1 !! "k1")
    = Some "t0".
Proof.
  assert (Hk : facts Sample.one_fact !! Fact.key Sample.jwt_again
               = Some (row_of_fact Sample.jwt)) by (vm_compute; reflexivity).
  split; [exact Hk |].
  destruct (upsertFact_keeps_created Sample.one_fact Sample.jwt_again _ Hk)
    as [(row & Hrow & Hc & _) _].
  change (Fact.key Sample.jwt_again) with "k1" in Hrow.
  rewrite Hrow. simpl. rewrite Hc. reflexivity.
Defined.

(** ** deleteFact *)

Lemma set_facts_same db : set_facts db (facts db) = db.
Proof. by destruct db. Qed.

Lemma deleteFact_absent db key now :
  facts db !! key = None → deleteFact db key now = (db, None).
Proof.
  intros Hk. unfold deleteFact, deleteFact_stmts.
  rewrite bool_decide_eq_false_2 by (rewrite Hk; by intros [? ?]).
  simpl. unfold stmt_delete_fact. by rewrite delete_id, set_facts_same.
Qed.

Lemma deleteFact_present db key now :
  is_Some (facts db !! key) →
  deleteFact db key now =
    (mkDb (delete key (facts db)) (<[key := now]> (pending_deletes db))
          (meta db) (shared_conversation_imports db), None).
Proof.
  intros Hk. unfold deleteFact, deleteFact_stmts.
  rewrite bool_decide_eq_true_2 by done. reflexivity.
Qed.

(** C6. Deleting a key twice in a row leaves the store as deleting it once.
    Deleting a key that has no fact changes nothing (no row removed, no
    pending delete written); deleting a key that has one removes the fact
    and inserts or replaces the pending delete [(key, now)]. The call never
    throws. *)
Theorem deleteFact_idempotent (db : Db) (key now now' : string) :
  deleteFact (deleteFact db key now).1 key now' = deleteFact db key now
  ∧ (facts db !! key = None → deleteFact db key now = (db, None))
  ∧ (is_Some (facts db !! key) →
       (deleteFact db key now).2 = None
       ∧ facts (deleteFact db key now).1 = delete key (facts db)
       ∧ pending_deletes (deleteFact db key now).1 = <[key := now]> (pending_deletes db)
       ∧ meta (deleteFact db key now).1 = meta db
       ∧ shared_conversation_imports (deleteFact db key now).1
         = shared_conversation_imports db).
Proof.
  split; [| split].
  - destruct (facts db !! key) as [old |] eqn:Hk.
    + rewrite (deleteFact_present db key now) by (rewrite Hk; eauto). simpl.
      apply deleteFact_absent. simpl. apply lookup_delete_eq.
    + rewrite (deleteFact_absent db key now Hk). simpl.
      by apply deleteFact_absent.
  - apply deleteFact_absent.
  - intros Hk. rewrite (deleteFact_present db key now Hk). simpl.
    repeat split.
Qed.

Lemma deleteFact_idempotent_witness :
  is_Some (facts Sample.one_fact !! "k1")
  ∧ pending_deletes (deleteFact Sample.one_fact "k1" "t2").1 !! "k1" = Some "t2"
  ∧ facts (deleteFact Sample.one_fact "k1" "t2").1 !! "k1" = None.
Proof.
  assert (Hk : is_Some (facts Sample.one_fact !! "k1"))
    by (vm_compute; eexists; reflexivity).
  split; [exact Hk |].
  destruct (deleteFact_idempotent Sample.one_fact "k1" "t2" "t3") as (_ & _ & H).
  destruct (H Hk) as (_ & Hf & Hp & _).
  rewrite Hf, Hp. split; [apply lookup_insert_eq | apply lookup_delete_eq].
Defined.

(** ** Shared-conversation imports *)

Lemma hasSharedConversationImport_true db shareId :
  hasSharedConversationImport db shareId = true
  ↔ is_Some (shared_conversation_imports db !! shareId).
Proof. unfold hasSharedConversationImport. apply bool_decide_eq_true. Qed.

Lemma saveSharedConversationImport_present db entry now :
  is_Some (shared_conversation_imports db !! Entry.shareId entry) →
  saveSharedConversationImport db entry now
  = (db, Some (UniqueViolation "shared_conversation_imports.share_id")).
Proof.
  intros [row Hrow]. unfold saveSharedConversationImport, stmt_insert_import.
  simpl. by rewrite Hrow.
Qed.

Lemma saveSharedConversationImport_absent db entry now :
  shared_conversation_imports db !! Entry.shareId entry = None →
  ∃ row, saveSharedConversationImport db entry now
         = (set_imports db (<[Entry.shareId entry := row]> (shared_conversation_imports db)),
            None)
         ∧ ImportRow.tx_id row = Entry.txId entry.
Proof.
  intros Hrow. unfold saveSharedConversationImport, stmt_insert_import.
  simpl. rewrite Hrow. eexists. split; reflexivity.
Qed.

(** C10. [saveSharedConversationImport] is a plain INSERT: when a row with
    the entry's share id is already stored (that is, when
    [hasSharedConversationImport] answers true), the call throws a
    uniqueness violation on [share_id] and leaves the database as it was, so
    the stored row is neither replaced nor is the call silently ignored; in
    particular a second call right after a first one always throws. Only a
    caller that asks [hasSharedConversationImport] first avoids the error. *)
Theorem saveSharedConversationImport_not_idempotent
        (db : Db) (entry : Entry.t) (now now' : string) :
  (hasSharedConversationImport db (Entry.shareId entry) = true →
     saveSharedConversationImport db entry now
     = (db, Some (UniqueViolation "shared_conversation_imports.share_id")))
  ∧ (hasSharedConversationImport db (Entry.shareId entry) = false →
     (saveSharedConversationImport db entry now).2 = None
     ∧ hasSharedConversationImport (saveSharedConversationImport db entry now).1
                                    (Entry.shareId entry) = true)
  ∧ saveSharedConversationImport (saveSharedConversationImport db entry now).1 entry now'
    = ((saveSharedConversationImport db entry now).1,
       Some (UniqueViolation "shared_conversation_imports.share_id")).
Proof.
  assert (Hfst : is_Some (shared_conversation_imports
                            (saveSharedConversationImport db entry now).1
                          !! Entry.shareId entry)).
  { destruct (shared_conversation_imports db !! Entry.shareId entry) as [r |] eqn:Hr.
    - rewrite saveSharedConversationImport_present by (rewrite Hr; eauto).
      simpl. rewrite Hr. eauto.
    - destruct (saveSharedConversationImport_absent db entry now Hr) as (row & -> & _).
      simpl. rewrite lookup_insert_eq. eauto. }
  split; [| split].
  - intros H. apply saveSharedConversationImport_present.
    by apply hasSharedConversationImport_true.
  - intros H. split.
    + destruct (saveSharedConversationImport_absent db entry now) as (row & -> & _);
        [| reflexivity].
      apply eq_None_not_Some. intros Hs.
      apply hasSharedConversationImport_true in Hs. congruence.
    + by apply hasSharedConversationImport_true.
  - by apply saveSharedConversationImport_present.
Qed.

Lemma saveSharedConversationImport_not_idempotent_witness :
  hasSharedConversationImport Sample.imported "share-1" = true
  ∧ saveSharedConversationImport Sample.imported Sample.entry "t9"
    = (Sample.imported, Some (UniqueViolation "shared_conversation_imports.share_id")).
Proof.
  assert (H : hasSharedConversationImport Sample.imported (Entry.shareId Sample.entry) = true)
    by (vm_compute; reflexivity).
  split; [exact H |].
  destruct (saveSharedConversationImport_not_idempotent
              Sample.imported Sample.entry "t9" "t9") as (H1 & _).
  exact (H1 H).
Defined.

(** ** The fact push *)

Lemma filter_none {A} (P : A → Prop) `{∀ x, Decision (P x)} (l : list A) :
  Forall (λ x, ¬ P x) l → filter P l = [].
Proof.
  induction 1 as [| x l Hx _ IH]; [reflexivity |].
  by rewrite filter_cons_False.
Qed.

Lemma getDirtyFacts_clean db m :
  facts db = clean <$> m → getDirtyFacts db = [].
Proof.
  intros Hm. unfold getDirtyFacts. rewrite filter_none; [reflexivity |].
  apply Forall_forall. intros r Hr.
  apply list_elem_of_fmap in Hr as ([k r'] & -> & Hin).
  apply elem_of_map_to_list in Hin. rewrite Hm, lookup_fmap in Hin.
  destruct (m !! k); simplify_eq/=. discriminate.
Qed.

Lemma getPendingDeletes_empty db :
  pending_deletes db = ∅ → getPendingDeletes db = [].
Proof. intros Hm. unfold getPendingDeletes. by rewrite Hm, map_to_list_empty. Qed.

Section PushProperties.
Context {Key Backend : Type}.
Variable createChunkedShards : list Operation → Num → string → list Shard.
Variable serializeShard : Shard → string.
Variable encrypt : string → Key → list byte.
Variable pushShard :
  list byte → Num → string → string → Key → Backend → Exc string string.
Variable String_of_number : Num → string.
Variables (encryptionKey identityKey : Key) (walletAddress : string).

Local Abbreviation one :=
  (push_one serializeShard encrypt pushShard encryptionKey identityKey walletAddress).
Local Abbreviation all :=
  (push_all serializeShard encrypt pushShard encryptionKey identityKey walletAddress).
Local Abbreviation sync :=
  (syncDirtyFacts createChunkedShards serializeShard encrypt pushShard String_of_number
                  encryptionKey identityKey walletAddress).

Lemma push_all_cons backend s rest last :
  all backend (s :: rest) last
  = match push_result (one backend s) with
    | Throw err => (Throw err, [one backend s])
    | Return _ =>
        let '(res, calls) := all backend rest (shard_version s) in
        (res, one backend s :: calls)
    end.
Proof. reflexivity. Qed.

Lemma push_all_stops backend pre shard post last msg :
  (∀ s, s ∈ pre → uploaded (one backend s) = true) →
  push_result (one backend shard) = Throw msg →
  all backend (pre ++ shard :: post) last
  = (Throw msg, one backend <$> (pre ++ [shard])).
Proof.
  revert last. induction pre as [| s pre IH]; intros last Hpre Hshard.
  - rewrite app_nil_l, push_all_cons. by rewrite Hshard.
  - assert (Hs : uploaded (one backend s) = true) by (apply Hpre; left).
    unfold uploaded in Hs.
    rewrite <- app_comm_cons, push_all_cons.
    destruct (push_result (one backend s)) eqn:Hr; [| discriminate].
    rewrite IH; [reflexivity | | done].
    intros s' Hs'. apply Hpre. by right.
Qed.

Lemma nothing_to_sync db :
  ((length (getDirtyFacts db) =? 0)%nat && (length (getPendingDeletes db) =? 0)%nat) = true
  ↔ getDirtyFacts db = [] ∧ getPendingDeletes db = [].
Proof.
  rewrite andb_true_iff, !Nat.eqb_eq.
  split; intros [H1 H2]; split;
    (by apply nil_length_inv) || (by rewrite ?H1, ?H2).
Qed.

Lemma syncDirtyFacts_idle db backend uuid :
  getDirtyFacts db = [] → getPendingDeletes db = [] →
  sync db backend uuid = mkTick db NothingToSync [].
Proof.
  intros H1 H2. unfold syncDirtyFacts.
  by rewrite (proj2 (nothing_to_sync db) (conj H1 H2)).
Qed.

(** What a tick that reaches the end of its [try] block leaves. *)
Lemma syncDirtyFacts_done db backend uuid :
  match outcome (sync db backend uuid) with
  | SyncFailed (UploadError _) => store (sync db backend uuid) = db
  | SyncFailed (StoreError _) => False
  | _ => getDirtyFacts (store (sync db backend uuid)) = []
         ∧ getPendingDeletes (store (sync db backend uuid)) = []
  end.
Proof.
  unfold syncDirtyFacts.
  destruct ((length (getDirtyFacts db) =? 0)%nat
            && (length (getPendingDeletes db) =? 0)%nat) eqn:Hn.
  - simpl. by apply nothing_to_sync.
  - destruct (push_all _ _ _ _ _ _ _ _ _) as [[last | err] cs]; simpl.
    + split.
      * by apply (getDirtyFacts_clean _ (facts db)).
      * by apply getPendingDeletes_empty.
    + reflexivity.
Qed.

(** C1. When the tick has something to push and [pushShard] throws for one
    of the shards (those before it having been uploaded), the tick ends in
    its [catch]: the calls of [pushShard] made are exactly those for the
    shards up to and including the failing one, so no later shard is
    uploaded, and the store is what it was: the same dirty facts, the same
    pending deletes, the same [current_version] and [last_pushed_version].
    The next tick therefore starts from the same set of operations. *)
Theorem syncDirtyFacts_aborts
        (db : Db) (backend : Backend) (uuid : string)
        (pre : list Shard) (shard : Shard) (post : list Shard) (msg : string) :
  getDirtyFacts db ≠ [] ∨ getPendingDeletes db ≠ [] →
  createChunkedShards (pending_operations db)
    (plus_one (parseInt (default "0" (getMeta db "current_version")))) uuid
  = pre ++ shard :: post →
  (∀ s, s ∈ pre → uploaded (one backend s) = true) →
  push_result (one backend shard) = Throw msg →
  outcome (sync db backend uuid) = SyncFailed (UploadError msg)
  ∧ pushes (sync db backend uuid) = one backend <$> (pre ++ [shard])
  ∧ store (sync db backend uuid) = db
  ∧ getDirtyFacts (store (sync db backend uuid)) = getDirtyFacts db
  ∧ getPendingDeletes (store (sync db backend uuid)) = getPendingDeletes db
  ∧ getMeta (store (sync db backend uuid)) "current_version"
    = getMeta db "current_version"
  ∧ getMeta (store (sync db backend uuid)) "last_pushed_version"
    = getMeta db "last_pushed_version"
  ∧ pending_operations (store (sync db backend uuid)) = pending_operations db.
Proof.
  intros Hwork Hshards Hpre Hshard.
  assert (Hrun : sync db backend uuid
                 = mkTick db (SyncFailed (UploadError msg))
                          (one backend <$> (pre ++ [shard]))).
  { unfold syncDirtyFacts.
    destruct ((length (getDirtyFacts db) =? 0)%nat
              && (length (getPendingDeletes db) =? 0)%nat) eqn:Hn.
    - apply nothing_to_sync in Hn as [H1 H2]. destruct Hwork; contradiction.
    - unfold pending_operations in Hshards. rewrite Hshards.
      by rewrite (push_all_stops backend pre shard post _ msg Hpre Hshard). }
  rewrite Hrun. simpl. repeat split.
Qed.

(** C3. A tick that finds no dirty fact and no pending delete calls
    [pushShard] not once and leaves the store, so [current_version] and
    [last_pushed_version], as it was. After a push (a tick that was not
    aborted by a failed upload) there is no dirty fact and no pending delete
    left, so the tick that follows it with no mutation in between, whatever
    the backend then does, pushes nothing and leaves the store unchanged. *)
Theorem syncDirtyFacts_idempotent
        (db : Db) (backend backend' : Backend) (uuid uuid' : string) :
  (getDirtyFacts db = [] → getPendingDeletes db = [] →
     sync db backend uuid = mkTick db NothingToSync [])
  ∧ ((∀ msg, outcome (sync db backend uuid) ≠ SyncFailed (UploadError msg)) →
     sync (store (sync db backend uuid)) backend' uuid'
     = mkTick (store (sync db backend uuid)) NothingToSync []).
Proof.
  split; [apply syncDirtyFacts_idle |].
  intros Hok. pose proof (syncDirtyFacts_done db backend uuid) as Hdone.
  destruct (outcome (sync db backend uuid)) as [| last | [msg | e]].
  - destruct Hdone. by apply syncDirtyFacts_idle.
  - destruct Hdone. by apply syncDirtyFacts_idle.
  - by destruct (Hok msg).
  - destruct Hdone.
Qed.
End PushProperties.

Lemma syncDirtyFacts_aborts_witness :
  outcome (Sample.tick Sample.two_dirty 2) = SyncFailed (UploadError "fetch failed")
  ∧ uploaded <$> pushes (Sample.tick Sample.two_dirty 2) = [true; false]
  ∧ store (Sample.tick Sample.two_dirty 2) = Sample.two_dirty.
Proof.
  destruct (syncDirtyFacts_aborts
              Sample.one_op_per_shard (λ _, "{}") (λ _ _, []) Sample.backend_push
              Sample.show tt tt "wallet" Sample.two_dirty 2 "uuid"
              [mkShard (Fin 1) "uuid" "delta" [upsert (Sample.fact "c" "k3" "v" "t1")]]
              (mkShard (Fin 2) "uuid" "delta" [upsert Sample.jwt])
              []
              "fetch failed")
    as (H1 & H2 & H3 & _).
  - left. vm_compute. discriminate.
  - vm_compute. reflexivity.
  - intros s Hs. apply list_elem_of_singleton in Hs as ->. reflexivity.
  - reflexivity.
  - unfold Sample.tick. rewrite H1, H2, H3. repeat split.
Defined.

Lemma syncDirtyFacts_idempotent_witness :
  outcome (Sample.tick Sample.one_fact 9) = Synced (Fin 1)
  ∧ Sample.tick (store (Sample.tick Sample.one_fact 9)) 0
    = mkTick (store (Sample.tick Sample.one_fact 9)) NothingToSync [].
Proof.
  split; [vm_compute; reflexivity |].
  destruct (syncDirtyFacts_idempotent
              Sample.one_op_per_shard (λ _, "{}") (λ _ _, []) Sample.backend_push
              Sample.show tt tt "wallet" Sample.one_fact 9 0 "uuid" "uuid")
    as [_ H].
  apply H. intros msg. vm_compute. discriminate.
Defined.

(** A tick whose upload fails is no push but an attempt that is repeated: it
    is followed, with no mutation in between, by a tick that uploads the
    shard and advances [current_version]; and with a backend that keeps
    refusing the second shard of a batch, each of two consecutive ticks
    uploads the first shard. *)
Example syncDirtyFacts_retries_after_abort :
  (outcome (Sample.tick Sample.one_fact 0) = SyncFailed (UploadError "fetch failed")
   ∧ uploaded <$> pushes (Sample.tick Sample.one_fact 0) = [false]
   ∧ uploaded <$> pushes (Sample.tick (store (Sample.tick Sample.one_fact 0)) 9) = [true]
   ∧ getMeta (store (Sample.tick Sample.one_fact 0)) "current_version" = None
   ∧ getMeta (store (Sample.tick (store (Sample.tick Sample.one_fact 0)) 9))
             "current_version" = Some "1")
  ∧ (uploaded <$> pushes (Sample.tick Sample.two_dirty 2) = [true; false]
     ∧ uploaded <$> pushes (Sample.tick (store (Sample.tick Sample.two_dirty 2)) 2)
       = [true; false]).
Proof. repeat split; vm_compute; reflexivity. Qed.

(** ** Sorting by a key *)

Section SortByKey.
Context {A : Type} (key : A → Z).

Local Abbreviation by_key := (λ a b : A, key a - key b).

Lemma insert_sorted_perm x l : insert_sorted by_key x l ≡ₚ x :: l.
Proof.
  induction l as [| y l IH]; simpl; [reflexivity |].
  destruct (key x - key y <=? 0); [reflexivity |].
  rewrite IH. apply Permutation_swap.
Qed.

Lemma sort_perm l : sort by_key l ≡ₚ l.
Proof.
  induction l as [| x l IH]; simpl; [reflexivity |].
  rewrite insert_sorted_perm. by rewrite IH.
Qed.

Lemma insert_sorted_sorted x l :
  StronglySorted (λ a b, key a ≤ key b) l →
  StronglySorted (λ a b, key a ≤ key b) (insert_sorted by_key x l).
Proof.
  induction 1 as [| y l Hl IH Hy]; simpl.
  - repeat constructor.
  - destruct (key x - key y <=? 0) eqn:Hc.
    + apply Z.leb_le in Hc. constructor; [by constructor |].
      constructor; [lia |].
      eapply Forall_impl; [exact Hy |]. simpl. intros z Hz. lia.
    + apply Z.leb_gt in Hc. constructor; [exact IH |].
      rewrite (insert_sorted_perm x l). constructor; [lia | exact Hy].
Qed.

Lemma sort_sorted l : StronglySorted (λ a b, key a ≤ key b) (sort by_key l).
Proof.
  induction l as [| x l IH]; simpl; [constructor |].
  by apply insert_sorted_sorted.
Qed.

(** Stability: inserting [x] puts it before every element of equal key. *)
Lemma insert_sorted_stable v x l :
  filter (λ a, key a = v) (insert_sorted by_key x l)
  = filter (λ a, key a = v) (x :: l).
Proof.
  induction l as [| y l IH]; simpl; [reflexivity |].
  destruct (key x - key y <=? 0) eqn:Hc; [reflexivity |].
  apply Z.leb_gt in Hc.
  rewrite (filter_cons _ y), IH, !filter_cons.
  destruct (decide (key y = v)), (decide (key x = v)); try reflexivity; lia.
Qed.

Lemma sort_stable v l :
  filter (λ a, key a = v) (sort by_key l) = filter (λ a, key a = v) l.
Proof.
  induction l as [| x l IH]; simpl; [reflexivity |].
  by rewrite insert_sorted_stable, !filter_cons, IH.
Qed.
End SortByKey.

(** ** queryShards *)

Lemma truthy_true s : truthy s = true ↔ s ≠ EmptyString.
Proof. destruct s; simpl; split; (done || by intros _). Qed.

Lemma parse_type_name rawType t :
  parse_type rawType = Some t → rawType = Some (type_name t).
Proof.
  destruct rawType as [r |]; simpl; [| done].
  destruct (String.eqb r "delta") eqn:H1;
    [apply String.eqb_eq in H1; by intros [= <-]; subst |].
  destruct (String.eqb r "snapshot") eqn:H2;
    [apply String.eqb_eq in H2; by intros [= <-]; subst |].
  destruct (String.eqb r "identity") eqn:H3;
    [apply String.eqb_eq in H3; by intros [= <-]; subst | done].
Qed.

(** Every entry [accept] builds satisfies strict acceptance. *)
Lemma accept_strict toLowerCase w n s : accept toLowerCase w n = Some s → strictly_accepted toLowerCase w n s.
Proof.
  unfold accept, strictly_accepted. cbv zeta.
  destruct (parse_type (tagMap (node_tags n) !! "Type")) as [t |] eqn:Ht; [| done].
  apply parse_type_name in Ht.
  destruct (tagMap (node_tags n) !! "Wallet") as [wallet |] eqn:Hw; simpl; [| done].
  destruct (truthy wallet) eqn:Hwt; simpl; [| done].
  destruct (String.eqb (toLowerCase wallet) (toLowerCase w)) eqn:Hlow; simpl; [| done].
  apply String.eqb_eq in Hlow.
  destruct (tagMap (node_tags n) !! "Signature") as [sig |] eqn:Hsig; simpl.
  2:{ destruct t; [| | done];
        (destruct (tagMap (node_tags n) !! "Version") as [raw |]; [| done];
         destruct (truthy raw); simpl; [| done];
         destruct (parseInt raw) as [| | | z]; try done;
         by destruct (z <? 1)). }
  destruct (truthy (trim sig)) eqn:Hts.
  2:{ destruct t; [| | done];
        (destruct (tagMap (node_tags n) !! "Version") as [raw |]; [| done];
         destruct (truthy raw); simpl; [| done];
         destruct (parseInt raw) as [| | | z]; try done;
         by destruct (z <? 1)). }
  apply truthy_true in Hts.
  assert (Hsig' : ∃ sig0, Some sig = Some sig0 ∧ sig0 ≠ EmptyString ∧ trim sig0 ≠ EmptyString
                          ∧ Some (trim sig) = Some (trim sig0)).
  { exists sig. repeat split; try done. intros ->. by apply Hts. }
  destruct t.
  - destruct (tagMap (node_tags n) !! "Version") as [raw |] eqn:Hraw; [| done].
    destruct (truthy raw); simpl; [| done].
    destruct (parseInt raw) as [| | | z] eqn:Hz; try done.
    destruct (z <? 1) eqn:Hz1; [done |]. apply Z.ltb_ge in Hz1.
    intros [= <-]. simpl. repeat split; try done. exists raw. by rewrite Hz.
  - destruct (tagMap (node_tags n) !! "Version") as [raw |] eqn:Hraw; [| done].
    destruct (truthy raw); simpl; [| done].
    destruct (parseInt raw) as [| | | z] eqn:Hz; try done.
    destruct (z <? 1) eqn:Hz1; [done |]. apply Z.ltb_ge in Hz1.
    intros [= <-]. simpl. repeat split; try done. exists raw. by rewrite Hz.
  - intros [= <-]. simpl. repeat split; done.
Qed.

Lemma accept_txId toLowerCase w n s : accept toLowerCase w n = Some s → ShardInfo.txId s = node_id n.
Proof. intros H. by destruct (accept_strict toLowerCase w n s H). Qed.

Section QueryShards.
Variable toLowerCase : string → string.
Variable gql : string → GqlBody → GqlReply.
Variable endpoints : list string.
Variable w : string.

Local Abbreviation collected_ok := (collected_ok toLowerCase gql endpoints w).

Lemma visit_ok acc e :
  collected_ok acc → served gql endpoints w (node e) → collected_ok (visit toLowerCase w acc e).
Proof.
  intros (Hall & Hnd & Hseen) Hserved. unfold visit.
  destruct (decide (node_id (node e) ∈ seenTxIds acc)) as [Hin | Hnin]; [done |].
  destruct (accept toLowerCase w (node e)) as [s |] eqn:Hacc.
  - split; [| split]; simpl.
    + apply Forall_app. split; [done |]. constructor; [| constructor].
      exists (node e). split; [done | by apply accept_strict].
    + rewrite fmap_app. simpl. apply NoDup_app. split; [done |].
      split; [| apply NoDup_singleton].
      intros x Hx Hx'. apply list_elem_of_singleton in Hx'. subst x.
      apply list_elem_of_fmap in Hx as (s' & Heq & Hs').
      apply Hnin. rewrite <- (accept_txId _ _ _ _ Hacc), Heq. by apply Hseen.
    + intros s' Hs'. apply elem_of_app in Hs' as [Hs' | Hs'].
      * apply elem_of_union_r. by apply Hseen.
      * apply list_elem_of_singleton in Hs' as ->.
        rewrite (accept_txId _ _ _ _ Hacc). apply elem_of_union_l.
        by apply elem_of_singleton.
  - split; [| split]; simpl; try done.
    intros s Hs. apply elem_of_union_r. by apply Hseen.
Qed.

Lemma visit_all_ok es : ∀ acc,
  collected_ok acc → (∀ e, e ∈ es → served gql endpoints w (node e)) →
  collected_ok (foldl (visit toLowerCase w) acc es).
Proof.
  induction es as [| e es IH]; intros acc Hacc Hes; simpl; [done |].
  apply IH.
  - apply visit_ok; [done |]. apply Hes. left.
  - intros e' He'. apply Hes. by right.
Qed.

(** A request that succeeds was answered by one of the endpoints. *)
Lemma gqlRequest_from_answered eps : ∀ body errs json,
  gqlRequest_from gql eps body errs = Return json →
  ∃ endpoint, endpoint ∈ eps ∧ gql endpoint body = GqlOk json.
Proof.
  induction eps as [| ep eps IH]; intros body errs json; simpl; [done |].
  destruct (gql ep body) eqn:Hep.
  - intros H. apply IH in H as (ep' & Hin & Hok). exists ep'. split; [by right | done].
  - intros H. apply IH in H as (ep' & Hin & Hok). exists ep'. split; [by right | done].
  - intros H. apply IH in H as (ep' & Hin & Hok). exists ep'. split; [by right | done].
  - intros [= <-]. exists ep. split; [left | done].
Qed.

Lemma queryShards_pages_ok pages : ∀ acc after found,
  collected_ok acc →
  queryShards_pages toLowerCase gql endpoints pages w acc after = Return found →
  Forall (λ s, ∃ n, served gql endpoints w n ∧ strictly_accepted toLowerCase w n s) found
  ∧ NoDup (ShardInfo.txId <$> found).
Proof.
  induction pages as [| pages IH]; intros acc after found Hacc; simpl; [done |].
  destruct (gqlRequest gql endpoints (mkBody w GQL_PAGE_SIZE after)) as [json |] eqn:Hreq;
    [| done].
  apply gqlRequest_from_answered in Hreq as (ep & Hep & Hok).
  assert (Hbreak : @Return ArweaveError _ (shards acc) = Return found →
                   Forall (λ s, ∃ n, served gql endpoints w n ∧ strictly_accepted toLowerCase w n s) found
                   ∧ NoDup (ShardInfo.txId <$> found)).
  { intros [= <-]. destruct Hacc as (? & ? & _). by split. }
  destruct (errors json) as [[| err errs] |]; [| done |].
  all: destruct ((data json ≫= transactions) ≫= edges) as [[| e es] |] eqn:Hes;
    simpl; try exact Hbreak.
  all: assert (Hacc' : collected_ok (foldl (visit toLowerCase w) (visit toLowerCase w acc e) es))
    by (apply (visit_all_ok (e :: es)); [done |];
        intros e' He'; exists ep, after, json, (e :: es), e'; by repeat split).
  all: destruct (((data json ≫= transactions) ≫= pageInfo) ≫= hasNextPage) as [[|] |];
    simpl; try (intros [= <-]; destruct Hacc' as (? & ? & _); by split).
  all: destruct (truthy (cursor (List.last es e))); simpl;
    try (intros [= <-]; destruct Hacc' as (? & ? & _); by split).
  all: by apply IH.
Qed.

(** C2. Every entry [queryShards] returns is the entry of a transaction
    that a configured gateway served, with the transaction's id; the
    transaction's [Type] tag is delta, snapshot or identity; its [Wallet]
    tag equals the queried address up to letter case; its [Signature] tag is
    present and not empty (nor blank); for delta and snapshot the entry's
    version is the integer parsed from the [Version] tag and is at least 1,
    for identity it is 0. No transaction id occurs twice. The result is
    sorted by version, ascending, and the sort is stable: the entries of
    one version are in the order in which the pages delivered them. *)
Theorem queryShards_strict (found : list ShardInfo.t) :
  queryShards toLowerCase gql endpoints w = Return found →
  Forall (λ s, ∃ n, served gql endpoints w n ∧ strictly_accepted toLowerCase w n s) found
  ∧ NoDup (ShardInfo.txId <$> found)
  ∧ StronglySorted (λ a b, ShardInfo.version a ≤ ShardInfo.version b) found
  ∧ ∃ delivered,
      queryShards_pages toLowerCase gql endpoints GQL_MAX_PAGES w (mkAcc [] ∅) None = Return delivered
      ∧ found ≡ₚ delivered
      ∧ ∀ v, with_version v found = with_version v delivered.
Proof.
  unfold queryShards.
  destruct (queryShards_pages toLowerCase gql endpoints GQL_MAX_PAGES w (mkAcc [] ∅) None)
    as [delivered |] eqn:Hpages; [| done].
  intros [= <-].
  apply queryShards_pages_ok in Hpages as [Hall Hnd].
  2:{ split; [constructor | split; [constructor |]]. intros s Hs. inversion Hs. }
  pose proof (sort_perm ShardInfo.version delivered) as Hperm.
  split; [by rewrite Hperm |].
  split; [by rewrite Hperm |].
  split; [apply sort_sorted |].
  exists delivered. split; [done |]. split; [done |].
  intros v. apply sort_stable.
Qed.
End QueryShards.

Lemma queryShards_strict_witness :
  queryShards lowercase_ascii Sample.gql Sample.gql_endpoints "0xABC" = Return Sample.found
  ∧ NoDup (ShardInfo.txId <$> Sample.found)
  ∧ StronglySorted (λ a b, ShardInfo.version a ≤ ShardInfo.version b) Sample.found.
Proof.
  assert (H : queryShards lowercase_ascii Sample.gql Sample.gql_endpoints "0xABC" = Return Sample.found)
    by (vm_compute; reflexivity).
  split; [exact H |].
  destruct (queryShards_strict lowercase_ascii Sample.gql Sample.gql_endpoints "0xABC" Sample.found H)
    as (_ & Hnd & Hs & _).
  split; [exact Hnd | exact Hs].
Defined.

(** ** gqlRequest *)

Lemma queryShards_pages_S toLowerCase gql eps pages w acc after :
  queryShards_pages toLowerCase gql eps (S pages) w acc after
  = match gqlRequest gql eps (mkBody w GQL_PAGE_SIZE after) with
    | Throw e => Throw e
    | Return json =>
        match errors json with
        | Some (e :: es) => Throw (GraphQLReturnedErrors (error_messages (e :: es)))
        | _ =>
            let transactions := data json ≫= transactions in
            match default [] (transactions ≫= edges) with
            | [] => Return (shards acc)
            | e :: es =>
                let acc' := foldl (visit toLowerCase w) acc (e :: es) in
                let lastCursor := cursor (List.last es e) in
                let more := match (transactions ≫= pageInfo) ≫= hasNextPage with
                            | Some true => true
                            | _ => false
                            end in
                if negb more || negb (truthy lastCursor)
                then Return (shards acc')
                else queryShards_pages toLowerCase gql eps pages w acc' (Some lastCursor)
            end
        end
    end.
Proof. reflexivity. Qed.

Lemma gqlRequest_from_skips gql body failed : ∀ errs rest,
  Forall (λ e, is_Some (failure_of (gql e body))) failed →
  gqlRequest_from gql (failed ++ rest) body errs
  = gqlRequest_from gql rest body (errs ++ failures gql body failed).
Proof.
  induction failed as [| e failed IH]; intros errs rest Hf; simpl.
  - by rewrite app_nil_r.
  - inversion Hf as [| ? ? [f He] Hf']; subst. unfold failures. simpl.
    destruct (gql e body); simpl in He; simplify_eq;
      rewrite IH by done; by rewrite <- app_assoc.
Qed.

Lemma gqlRequest_from_throws gql body eps : ∀ errs err,
  gqlRequest_from gql eps body errs = Throw err →
  Forall (λ e, is_Some (failure_of (gql e body))) eps
  ∧ err = AllGatewaysFailed (errs ++ failures gql body eps).
Proof.
  induction eps as [| e eps IH]; intros errs err; simpl.
  - intros [= <-]. split; [constructor | by rewrite app_nil_r].
  - unfold failures. simpl. destruct (gql e body) eqn:He; simpl; try done.
    all: intros H; apply IH in H as [Hall ->];
      split; [constructor; [rewrite He; simpl; eauto | done] | by rewrite <- app_assoc].
Qed.

Lemma failures_all gql body eps :
  Forall (λ e, is_Some (failure_of (gql e body))) eps →
  (failures gql body eps).*1 = eps.
Proof.
  induction 1 as [| e eps [f He] _ IH]; [reflexivity |].
  unfold failures. simpl. rewrite He. simpl. f_equal. exact IH.
Qed.

(** The page loops and the share lookup throw the GraphQL errors of the
    document they are given. *)
Lemma queryConversationChunks_pages_S toLowerCase gql eps pages w acc after :
  queryConversationChunks_pages toLowerCase gql eps (S pages) w acc after
  = match gqlRequest gql eps (mkBody w GQL_PAGE_SIZE after) with
    | Throw e => Throw e
    | Return json =>
        match errors json with
        | Some (e :: es) => Throw (GraphQLReturnedErrors (error_messages (e :: es)))
        | _ =>
            let transactions := data json ≫= transactions in
            match default [] (transactions ≫= edges) with
            | [] => Return (chunks acc)
            | e :: es =>
                let acc' := foldl (visit_chunk toLowerCase w) acc (e :: es) in
                let lastCursor := cursor (List.last es e) in
                let more := match (transactions ≫= pageInfo) ≫= hasNextPage with
                            | Some true => true
                            | _ => false
                            end in
                if negb more || negb (truthy lastCursor)
                then Return (chunks acc')
                else queryConversationChunks_pages toLowerCase gql eps pages w acc'
                                                   (Some lastCursor)
            end
        end
    end.
Proof. reflexivity. Qed.

(** C8, as amended. [gqlRequest] gives an endpoint up, and goes on to the
    next configured one, when the fetch is rejected, when the status is not
    ok, or when the body is not JSON: its result is the document of the
    first endpoint that answers with one. It throws only when every
    endpoint has failed in one of these ways, and the error then names
    every endpoint, in order, with its reason. A document that carries
    GraphQL errors is an answer like any other: [gqlRequest] returns it, and
    the query that asked for it throws these errors at once, without asking
    the endpoints that are left: [queryShards] and
    [queryConversationChunks] on whichever page the document arrives, the
    first included, and [queryConversationShare] on its one request. *)
Theorem gqlRequest_failover (toLowerCase : string → string)
        (gql : string → GqlBody → GqlReply)
        (endpoints : list string) (body : GqlBody) :
  (∀ failed endpoint rest json,
     endpoints = failed ++ endpoint :: rest →
     Forall (λ e, is_Some (failure_of (gql e body))) failed →
     gql endpoint body = GqlOk json →
     gqlRequest gql endpoints body = Return json)
  ∧ (∀ err,
       gqlRequest gql endpoints body = Throw err →
       Forall (λ e, is_Some (failure_of (gql e body))) endpoints
       ∧ err = AllGatewaysFailed (failures gql body endpoints)
       ∧ (failures gql body endpoints).*1 = endpoints)
  ∧ (∀ json e es,
       gqlRequest gql endpoints body = Return json →
       errors json = Some (e :: es) →
       (var_first body = GQL_PAGE_SIZE →
        (∀ pages acc,
           queryShards_pages toLowerCase gql endpoints (S pages) (var_wallet body) acc
                             (var_after body)
           = Throw (GraphQLReturnedErrors (error_messages (e :: es))))
        ∧ (∀ pages acc,
             queryConversationChunks_pages toLowerCase gql endpoints (S pages)
                                           (var_wallet body) acc (var_after body)
             = Throw (GraphQLReturnedErrors (error_messages (e :: es))))
        ∧ (var_after body = None →
           queryShards toLowerCase gql endpoints (var_wallet body)
           = Throw (GraphQLReturnedErrors (error_messages (e :: es)))
           ∧ ∀ localeCompare,
               queryConversationChunks toLowerCase gql endpoints localeCompare
                                       (var_wallet body)
               = Throw (GraphQLReturnedErrors (error_messages (e :: es)))))
       ∧ ∀ shareId,
           Arweave.queryConversationShare (Return json) shareId
           = Throw (GraphQLReturnedErrors (error_messages (e :: es)))).
Proof.
  split; [| split].
  - intros failed ep rest json -> Hfailed Hok. unfold gqlRequest.
    rewrite gqlRequest_from_skips by done. simpl. by rewrite Hok.
  - intros err H. apply gqlRequest_from_throws in H as [Hall ->].
    split; [done |]. split; [done | by apply failures_all].
  - intros json e es Hreq Herr. split.
    + intros Hfirst.
      assert (Hbody : mkBody (var_wallet body) GQL_PAGE_SIZE (var_after body) = body)
        by (destruct body; simpl in *; by subst).
      assert (Hshards : ∀ pages acc,
                queryShards_pages toLowerCase gql endpoints (S pages) (var_wallet body) acc
                                  (var_after body)
                = Throw (GraphQLReturnedErrors (error_messages (e :: es)))).
      { intros pages acc. by rewrite queryShards_pages_S, Hbody, Hreq, Herr. }
      assert (Hchunks : ∀ pages acc,
                queryConversationChunks_pages toLowerCase gql endpoints (S pages)
                                              (var_wallet body) acc (var_after body)
                = Throw (GraphQLReturnedErrors (error_messages (e :: es)))).
      { intros pages acc. by rewrite queryConversationChunks_pages_S, Hbody, Hreq, Herr. }
      split; [exact Hshards |]. split; [exact Hchunks |].
      intros Hafter. rewrite Hafter in Hshards, Hchunks. split.
      * unfold queryShards. change GQL_MAX_PAGES with (S (Nat.pred GQL_MAX_PAGES)).
        by rewrite Hshards.
      * intros localeCompare. unfold queryConversationChunks.
        change GQL_MAX_PAGES with (S (Nat.pred GQL_MAX_PAGES)).
        by rewrite Hchunks.
    + intros shareId. unfold Arweave.queryConversationShare. by rewrite Herr.
Qed.

Lemma gqlRequest_failover_witness :
  gqlRequest Sample.gql Sample.gql_endpoints (mkBody "0xABC" GQL_PAGE_SIZE None)
  = Return Sample.page1.
Proof.
  destruct (gqlRequest_failover lowercase_ascii Sample.gql Sample.gql_endpoints
              (mkBody "0xABC" GQL_PAGE_SIZE None)) as [H _].
  apply (H ["https://arweave.net/graphql"] "https://g8way.io/graphql" []).
  - reflexivity.
  - constructor; [| constructor]. vm_compute. eexists. reflexivity.
  - reflexivity.
Defined.

(** C8, as stated, fails on the code: when the first gateway answers with
    GraphQL errors the query throws them, although the second gateway, which
    is never asked, would have served the page. *)
Lemma graphql_errors_not_retried :
  queryShards lowercase_ascii Sample.gql_erring Sample.gql_endpoints "0xABC"
  = Throw (GraphQLReturnedErrors ["rate limited"; "unknown"])
  ∧ queryShards lowercase_ascii Sample.gql_erring ["https://g8way.io/graphql"] "0xABC"
    = Return [ShardInfo.mk "t1" 1 delta "1700000000" (Some "sig1") "0xABC"].
Proof. split; vm_compute; reflexivity. Qed.

(** ** downloadShard *)

Lemma declared_too_large_Some maxBytes h declared :
  h ≠ EmptyString → parseInt h = Fin declared → maxBytes < declared →
  declared_too_large maxBytes (Some h) = Some declared.
Proof.
  intros Hh Hp Hlt. unfold declared_too_large.
  rewrite (proj2 (truthy_true h) Hh), Hp.
  by rewrite (proj2 (Z.ltb_lt _ _) Hlt).
Qed.

Section DownloadProperties.
Variable gateway : string → string → DataReply.
Variables (txId : string) (maxBytes : Z).

Lemma attempt_declared endpoint declared :
  declares gateway endpoint txId declared → maxBytes < declared →
  attempt gateway endpoint txId (Some maxBytes)
  = (Throw (BlobTooLarge declared maxBytes), [Fetched endpoint]).
Proof.
  intros (res & h & Hres & Hok & Hh & Hne & Hp) Hlt. unfold attempt.
  rewrite Hres, Hok, Hh. cbn [negb].
  by rewrite (declared_too_large_Some maxBytes h declared).
Qed.

Lemma attempt_oversized endpoint bytes :
  delivers gateway endpoint txId maxBytes bytes →
  maxBytes < Z.of_nat (length bytes) →
  attempt gateway endpoint txId (Some maxBytes)
  = (Throw (BlobTooLarge (Z.of_nat (length bytes)) maxBytes),
     [Fetched endpoint; BodyRead endpoint]).
Proof.
  intros (res & Hres & Hok & Hd & Hb) Hlt. unfold attempt, read_body.
  rewrite Hres, Hok. cbn [negb]. rewrite Hd, Hb.
  by rewrite (proj2 (Z.ltb_lt _ _) Hlt).
Qed.

Lemma attempt_returns endpoint bytes evs :
  attempt gateway endpoint txId (Some maxBytes) = (Return bytes, evs) →
  Z.of_nat (length bytes) ≤ maxBytes.
Proof.
  unfold attempt, read_body.
  destruct (gateway endpoint txId) as [m | res]; [done |].
  destruct (ok res); simpl; [| done].
  destruct (declared_too_large maxBytes (content_length res)); [done |].
  destruct (arrayBuffer res) as [buffer | m]; [| done].
  destruct (maxBytes <? Z.of_nat (length buffer)) eqn:Hlt; [done |].
  intros [= <- _]. by apply Z.ltb_ge.
Qed.

(** An attempt reads a body only from its own endpoint. *)
Lemma attempt_events endpoint other :
  BodyRead other ∈ (attempt gateway endpoint txId (Some maxBytes)).2 → other = endpoint.
Proof.
  unfold attempt, read_body.
  destruct (gateway endpoint txId) as [m | res]; simpl.
  { intros H. apply list_elem_of_singleton in H. discriminate. }
  destruct (ok res); simpl.
  2:{ intros H. apply list_elem_of_singleton in H. discriminate. }
  destruct (declared_too_large maxBytes (content_length res)); simpl.
  { intros H. apply list_elem_of_singleton in H. discriminate. }
  assert (Hev : BodyRead other ∈ [Fetched endpoint; BodyRead endpoint] → other = endpoint).
  { intros H. apply elem_of_cons in H as [H | H]; [discriminate |].
    apply list_elem_of_singleton in H. by injection H. }
  destruct (arrayBuffer res) as [buffer | m]; [| exact Hev].
  destruct (maxBytes <? Z.of_nat (length buffer)); exact Hev.
Qed.

Lemma downloadShard_from_returns eps : ∀ errs bytes,
  (downloadShard_from gateway eps txId (Some maxBytes) errs).1 = Return bytes →
  Z.of_nat (length bytes) ≤ maxBytes.
Proof.
  induction eps as [| ep eps IH]; intros errs bytes; simpl; [done |].
  destruct (attempt gateway ep txId (Some maxBytes)) as [[b | err] evs] eqn:Ha.
  - simpl. intros [= <-]. by eapply attempt_returns.
  - specialize (IH (errs ++ [(ep, err)]) bytes).
    destruct (downloadShard_from gateway eps txId (Some maxBytes) (errs ++ [(ep, err)])).
    simpl in *. exact IH.
Qed.

Lemma downloadShard_from_events eps : ∀ errs endpoint,
  BodyRead endpoint ∈ (downloadShard_from gateway eps txId (Some maxBytes) errs).2 →
  BodyRead endpoint ∈ (attempt gateway endpoint txId (Some maxBytes)).2.
Proof.
  induction eps as [| ep eps IH]; intros errs endpoint; simpl.
  { intros H. inversion H. }
  destruct (attempt gateway ep txId (Some maxBytes)) as [[b | err] evs] eqn:Ha.
  - simpl. intros H. pose proof (attempt_events ep endpoint) as He.
    rewrite Ha in He. pose proof (He H) as ->. by rewrite Ha.
  - specialize (IH (errs ++ [(ep, err)]) endpoint).
    destruct (downloadShard_from gateway eps txId (Some maxBytes) (errs ++ [(ep, err)])).
    simpl in *. intros H. apply elem_of_app in H as [H | H]; [| by apply IH].
    pose proof (attempt_events ep endpoint) as He.
    rewrite Ha in He. pose proof (He H) as ->. by rewrite Ha.
Qed.

(** C7. Given a number [maxBytes], [downloadShard] throws or returns at most
    [maxBytes] bytes. A response whose Content-Length header declares more
    than [maxBytes] makes the attempt on its endpoint throw `blob too
    large` after the fetch alone: the body of that endpoint is never read in
    the whole download. A body that is longer than [maxBytes] makes the
    attempt throw `blob too large` after the body was read. *)
Theorem downloadShard_capped (endpoints : list string) :
  (∀ bytes, (downloadShard gateway endpoints txId (Some maxBytes)).1 = Return bytes →
            Z.of_nat (length bytes) ≤ maxBytes)
  ∧ (∀ endpoint declared,
       declares gateway endpoint txId declared → maxBytes < declared →
       attempt gateway endpoint txId (Some maxBytes)
       = (Throw (BlobTooLarge declared maxBytes), [Fetched endpoint])
       ∧ BodyRead endpoint ∉ (downloadShard gateway endpoints txId (Some maxBytes)).2)
  ∧ (∀ endpoint bytes,
       delivers gateway endpoint txId maxBytes bytes →
       maxBytes < Z.of_nat (length bytes) →
       attempt gateway endpoint txId (Some maxBytes)
       = (Throw (BlobTooLarge (Z.of_nat (length bytes)) maxBytes),
          [Fetched endpoint; BodyRead endpoint])).
Proof.
  split; [| split].
  - intros bytes. apply downloadShard_from_returns.
  - intros endpoint declared Hd Hlt.
    pose proof (attempt_declared endpoint declared Hd Hlt) as Ha.
    split; [exact Ha |].
    intros Hin. apply downloadShard_from_events in Hin. rewrite Ha in Hin.
    apply list_elem_of_singleton in Hin. discriminate.
  - apply attempt_oversized.
Qed.
End DownloadProperties.

Lemma downloadShard_capped_witness :
  downloadShard Sample.blobs Sample.data_endpoints "tx-1" (Some 1024)
  = (Return Sample.blob,
     [Fetched "https://arweave.net"; Fetched "https://g8way.io"; BodyRead "https://g8way.io"])
  ∧ BodyRead "https://arweave.net"
    ∉ (downloadShard Sample.blobs Sample.data_endpoints "tx-1" (Some 1024)).2.
Proof.
  split; [vm_compute; reflexivity |].
  destruct (downloadShard_capped Sample.blobs "tx-1" 1024 Sample.data_endpoints)
    as (_ & H & _).
  apply (H "https://arweave.net" 4096); [| lia].
  eexists _, "4096". repeat split; try reflexivity. discriminate.
Defined.

(** ** syncCommand *)

Section SyncProperties.
Context {Key : Type}.
Variable extractToken : string → Exc string string.
Variable decodeShareToken : string → Exc string (Token.t Key).
Variable verifySignature : list byte → string → string → bool.
Variable decrypt : list byte → Key → Exc string (list byte).
Variable parsePayload : list byte → Exc string SharePayload.

Local Abbreviation fetch :=
  (fetchShare extractToken decodeShareToken verifySignature decrypt parsePayload).
Local Abbreviation command :=
  (syncCommand extractToken decodeShareToken verifySignature decrypt parsePayload).

(** The token is decoded before, and independently of, any network access. *)
Lemma fetchShare_decoded net urlOrToken decoded txId conversation :
  fetch net urlOrToken = Return (decoded, txId, conversation) →
  ∃ token, extractToken urlOrToken = Return token
           ∧ decodeShareToken token = Return decoded.
Proof.
  unfold fetchShare, mbind, Exc_bind, lift.
  destruct (extractToken urlOrToken) as [token | m]; [| done].
  destruct (decodeShareToken token) as [d | m] eqn:Hd; [| done].
  destruct (fetchPayload verifySignature decrypt parsePayload net d) as [[t c] | e];
    [| done].
  intros [= <- _ _]. eauto.
Qed.

Lemma fetchShare_same_token net net' urlOrToken d t c d' t' c' :
  fetch net urlOrToken = Return (d, t, c) →
  fetch net' urlOrToken = Return (d', t', c') →
  d' = d.
Proof.
  intros H H'.
  apply fetchShare_decoded in H as (token & He & Hd).
  apply fetchShare_decoded in H' as (token' & He' & Hd').
  congruence.
Qed.

(** C9, as amended. After a run of the command that imported the share of
    a token, the table has a row under the token's share id, which was not
    there before. Running the command again with the same token, against
    whatever archive, never writes: the database is left as it is. The
    second run reports `Share already imported.` whenever it gets as far as
    the table, that is, whenever the payload is fetched, decrypted and
    validated again, as it is against the archive of the first run; when
    one of these steps throws, the command throws that error instead. *)
Theorem syncCommand_idempotent (net : Network) (db db1 : Db) (urlOrToken now : string) :
  command net (Some db) urlOrToken now = (Some db1, ConversationImported) →
  (∃ decoded txId conversation row,
     fetch net urlOrToken = Return (decoded, txId, conversation)
     ∧ shared_conversation_imports db !! Token.shareId decoded = None
     ∧ shared_conversation_imports db1
       = <[Token.shareId decoded := row]> (shared_conversation_imports db)
     ∧ facts db1 = facts db ∧ pending_deletes db1 = pending_deletes db
     ∧ meta db1 = meta db)
  ∧ (∀ now', command net (Some db1) urlOrToken now' = (Some db1, ShareAlreadyImported))
  ∧ (∀ net' now',
       match fetch net' urlOrToken with
       | Return _ =>
           command net' (Some db1) urlOrToken now' = (Some db1, ShareAlreadyImported)
       | Throw e =>
           command net' (Some db1) urlOrToken now' = (Some db1, SyncThrew e)
       end).
Proof.
  unfold syncCommand at 1.
  destruct (fetch net urlOrToken) as [[[d t] c] | e] eqn:Hfetch; [| done].
  destruct (hasSharedConversationImport db (Token.shareId d)) eqn:Hhas; [done |].
  assert (Hnone : shared_conversation_imports db !! Token.shareId d = None).
  { apply eq_None_not_Some. intros Hs.
    apply hasSharedConversationImport_true in Hs. congruence. }
  destruct (saveSharedConversationImport_absent
              db (Entry.mk (Token.shareId d) (default "unknown" t) c) now Hnone)
    as (row & Hsave & _).
  rewrite Hsave. intros [= <-].
  assert (Hnow : hasSharedConversationImport
                   (set_imports db (<[Token.shareId d := row]>
                                       (shared_conversation_imports db)))
                   (Token.shareId d) = true).
  { apply hasSharedConversationImport_true. simpl. rewrite lookup_insert_eq. eauto. }
  split; [| split].
  - exists d, t, c, row. repeat split; done.
  - intros now'. unfold syncCommand. by rewrite Hfetch, Hnow.
  - intros net' now'. unfold syncCommand.
    destruct (fetch net' urlOrToken) as [[[d' t'] c'] | e'] eqn:Hfetch'; [| done].
    rewrite (fetchShare_same_token net net' urlOrToken d t c d' t' c' Hfetch Hfetch').
    by rewrite Hnow.
Qed.
End SyncProperties.

Lemma syncCommand_idempotent_witness :
  Sample.sync Sample.online (Some Sample.empty) "t8"
  = (Some Sample.imported, ConversationImported)
  ∧ Sample.sync Sample.online (Some Sample.imported) "t9"
    = (Some Sample.imported, ShareAlreadyImported)
  ∧ Sample.sync Sample.elsewhere (Some Sample.imported) "t9"
    = (Some Sample.imported, ShareAlreadyImported).
Proof.
  assert (H : Sample.sync Sample.online (Some Sample.empty) "t8"
              = (Some Sample.imported, ConversationImported))
    by (vm_compute; reflexivity).
  split; [exact H |].
  destruct (syncCommand_idempotent _ _ _ _ _ _ _ _ _ _ H) as (_ & H2 & H3).
  split; [apply H2 |].
  exact (H3 Sample.elsewhere "t9").
Defined.

(** C9, as stated, fails on the code: after a successful redemption, a
    second run with the same token that cannot reach the archive does not
    report that the share is already imported; it throws the error of the
    lookup (the database is left as it is). *)
Lemma syncCommand_second_run_may_throw :
  Sample.sync Sample.online (Some Sample.empty) "t8"
  = (Some Sample.imported, ConversationImported)
  ∧ Sample.sync Sample.offline (Some Sample.imported) "t9"
    = (Some Sample.imported, SyncThrew (Archive (AllGatewaysFailed [])))
  ∧ (Sample.sync Sample.offline (Some Sample.imported) "t9").2 ≠ ShareAlreadyImported.
Proof. repeat split; vm_compute; (reflexivity || discriminate). Qed.

(** * More properties of the store *)

(** ** Sorting with a comparator *)

Section SortBy.
Context {A : Type} (compare : A → A → Z).

Lemma insert_sorted_permutation x l : insert_sorted compare x l ≡ₚ x :: l.
Proof.
  induction l as [| y l IH]; simpl; [reflexivity |].
  destruct (compare x y <=? 0); [reflexivity |].
  rewrite IH. apply Permutation_swap.
Qed.

Lemma sort_permutation l : sort compare l ≡ₚ l.
Proof.
  induction l as [| x l IH]; simpl; [reflexivity |].
  rewrite insert_sorted_permutation. by rewrite IH.
Qed.

(** The comparator is a total preorder. *)
Local Abbreviation before := (before compare).
Hypothesis before_trans : ∀ x y z, before x y → before y z → before x z.
Hypothesis before_total : ∀ x y, before x y ∨ before y x.

Lemma insert_sorted_ordered x l :
  StronglySorted before l → StronglySorted before (insert_sorted compare x l).
Proof.
  induction 1 as [| y l Hl IH Hy]; simpl.
  - repeat constructor.
  - destruct (compare x y <=? 0) eqn:Hc.
    + apply Z.leb_le in Hc. constructor; [by constructor |].
      constructor; [exact Hc |].
      eapply Forall_impl; [exact Hy |]. intros z Hz. by eapply before_trans.
    + apply Z.leb_gt in Hc. constructor; [exact IH |].
      rewrite (insert_sorted_permutation x l). constructor; [| exact Hy].
      destruct (before_total x y) as [H | H]; [unfold before in H; lia | exact H].
Qed.

Lemma sort_ordered l : StronglySorted before (sort compare l).
Proof.
  induction l as [| x l IH]; simpl; [constructor |].
  by apply insert_sorted_ordered.
Qed.

Lemma insert_sorted_front x l :
  Forall (before x) l → insert_sorted compare x l = x :: l.
Proof.
  destruct 1 as [| y l Hy _]; simpl; [reflexivity |].
  by rewrite (proj2 (Z.leb_le _ _) Hy).
Qed.

(** Filtering a sorted list and then inserting is inserting and then
    filtering. *)
Lemma filter_insert_sorted (P : A → Prop) `{∀ x, Decision (P x)} x l :
  StronglySorted before l →
  filter P (insert_sorted compare x l)
  = if decide (P x) then insert_sorted compare x (filter P l) else filter P l.
Proof.
  induction 1 as [| y l Hl IH Hy]; simpl.
  - rewrite filter_cons. by destruct (decide (P x)).
  - destruct (compare x y <=? 0) eqn:Hc.
    + apply Z.leb_le in Hc. rewrite (filter_cons P x).
      destruct (decide (P x)); [| reflexivity].
      rewrite insert_sorted_front; [reflexivity |].
      apply Forall_forall. intros z Hz. apply list_elem_of_filter in Hz as [_ Hz].
      apply elem_of_cons in Hz as [-> | Hz]; [exact Hc |].
      eapply before_trans; [exact Hc |].
      by eapply Forall_forall in Hy.
    + rewrite (filter_cons P y (insert_sorted compare x l)), (filter_cons P y l), IH.
      destruct (decide (P x)), (decide (P y)); try reflexivity.
      change (insert_sorted compare x (y :: filter P l))
        with (if compare x y <=? 0 then x :: y :: filter P l
              else y :: insert_sorted compare x (filter P l)).
      by rewrite Hc.
Qed.

Lemma filter_sort (P : A → Prop) `{∀ x, Decision (P x)} l :
  filter P (sort compare l) = sort compare (filter P l).
Proof.
  induction l as [| x l IH]; simpl; [reflexivity |].
  rewrite filter_insert_sorted by apply sort_ordered.
  rewrite filter_cons, IH. by destruct (decide (P x)).
Qed.
End SortBy.

(** ** Reading facts *)

Lemma StronglySorted_weaken {A} (R S : A → A → Prop) l :
  (∀ x y, R x y → S x y) → StronglySorted R l → StronglySorted S l.
Proof.
  intros HRS. induction 1 as [| x l _ IH Hx]; constructor; [done |].
  eapply Forall_impl; [exact Hx | auto].
Qed.

Lemma StronglySorted_map {A B} (f : A → B) (R : B → B → Prop) l :
  StronglySorted (λ a b, R (f a) (f b)) l → StronglySorted R (f <$> l).
Proof.
  induction 1 as [| x l _ IH Hx]; simpl; constructor; [done |].
  by apply Forall_fmap.
Qed.

Lemma newest_first_before a b :
  before newest_first a b ↔ String.le (Row.last_confirmed b) (Row.last_confirmed a).
Proof.
  unfold before, newest_first, String.le, String.leb.
  destruct (String.compare (Row.last_confirmed b) (Row.last_confirmed a));
    simpl; split; (lia || done).
Qed.

Lemma newest_first_trans x y z :
  before newest_first x y → before newest_first y z → before newest_first x z.
Proof.
  rewrite !newest_first_before. intros Hxy Hyz. by etrans.
Qed.

Lemma newest_first_total x y : before newest_first x y ∨ before newest_first y x.
Proof.
  rewrite !newest_first_before.
  destruct (total String.le (Row.last_confirmed y) (Row.last_confirmed x)); auto.
Qed.

Lemma rows_lookup db r :
  r ∈ (map_to_list (facts db)).*2 ↔ ∃ k, facts db !! k = Some r.
Proof.
  rewrite list_elem_of_fmap. split.
  - intros ([k r'] & -> & Hin). exists k. by apply elem_of_map_to_list.
  - intros [k Hk]. exists (k, r). split; [done | by apply elem_of_map_to_list].
Qed.

Lemma getAllFacts_elem db f :
  f ∈ getAllFacts db ↔ ∃ k r, facts db !! k = Some r ∧ f = rowToFact r.
Proof.
  unfold getAllFacts. rewrite list_elem_of_fmap. split.
  - intros (r & -> & Hr). rewrite sort_permutation in Hr.
    apply rows_lookup in Hr as [k Hk]. eauto.
  - intros (k & r & Hk & ->). exists r. split; [done |].
    rewrite sort_permutation. apply rows_lookup. eauto.
Qed.

Lemma rows_keys_NoDup db :
  schema_ok db → NoDup (Row.key <$> (map_to_list (facts db)).*2).
Proof.
  intros [Hkey _].
  assert (Heq : Row.key <$> (map_to_list (facts db)).*2 = (map_to_list (facts db)).*1).
  { rewrite <- list_fmap_compose. apply list_fmap_ext.
    intros i [k r] Hin. simpl. apply Hkey.
    apply elem_of_map_to_list. by eapply list_elem_of_lookup_2. }
  rewrite Heq. apply NoDup_fst_map_to_list.
Qed.

(** X7. [getAllFacts] lists the stored facts newest first: the list is in
    descending order of [last_confirmed]; in a database that satisfies the
    schema it holds exactly the facts [getFact] finds under their own key,
    and no key twice. *)
Theorem getAllFacts_newest_first (db : Db) :
  schema_ok db →
  StronglySorted (λ a b, String.le (Fact.last_confirmed b) (Fact.last_confirmed a))
                 (getAllFacts db)
  ∧ (∀ f, f ∈ getAllFacts db ↔ getFact db (Fact.key f) = Some f)
  ∧ NoDup (Fact.key <$> getAllFacts db).
Proof.
  intros Hs. split; [| split].
  - unfold getAllFacts. apply StronglySorted_map.
    eapply StronglySorted_weaken;
      [| apply (sort_ordered newest_first newest_first_trans newest_first_total)].
    intros a b Hab. by apply newest_first_before.
  - intros f. rewrite getAllFacts_elem. unfold getFact. split.
    + intros (k & r & Hk & ->). destruct Hs as [Hkey _].
      assert (Fact.key (rowToFact r) = k) as -> by (simpl; by apply Hkey).
      by rewrite Hk.
    + intros Hf. destruct (facts db !! Fact.key f) as [r |] eqn:Hk; [| done].
      simpl in Hf. exists (Fact.key f), r. split; [done | congruence].
  - unfold getAllFacts. rewrite <- list_fmap_compose.
    rewrite (sort_permutation newest_first).
    change (Fact.key ∘ rowToFact) with Row.key. by apply rows_keys_NoDup.
Qed.

(** X8. The two queries agree: [getFactsByScope db scope] is [getAllFacts db]
    restricted to the facts whose scope is [scope] or "global", in the same
    order. *)
Theorem getFactsByScope_filters (db : Db) (scope : string) :
  getFactsByScope db scope
  = filter (λ f, Fact.scope f = scope ∨ Fact.scope f = "global") (getAllFacts db).
Proof.
  unfold getFactsByScope, getAllFacts.
  rewrite <- (filter_sort newest_first newest_first_trans newest_first_total).
  generalize (sort newest_first (map_to_list (facts db)).*2). intros l.
  induction l as [| r l IH]; [reflexivity |].
  rewrite fmap_cons, !filter_cons. simpl.
  destruct (decide (Row.scope r = scope ∨ Row.scope r = "global"));
    rewrite <- IH; reflexivity.
Qed.

(** ** The schema is kept *)

Lemma upsertFact_schema db f : schema_ok db → schema_ok (upsertFact db f).1.
Proof.
  intros [Hkey Hid]. destruct (decide (id_conflict db f)) as [Hc | Hc].
  { by rewrite (upsertFact_conflict db f Hc). }
  rewrite (upsertFact_ok db f Hc). simpl.
  assert (Hnew : ∀ k r, facts db !! k = Some r → Row.id r = Fact.id f → k = Fact.key f).
  { intros k r Hk Hr. destruct (decide (k = Fact.key f)) as [| Hne]; [done |].
    destruct Hc. exists k, r. by repeat split. }
  set (row := match facts db !! Fact.key f with
              | Some old => do_update old (row_of_fact f)
              | None => row_of_fact f
              end).
  assert (Hrow : Row.key row = Fact.key f ∧ Row.id row = Fact.id f).
  { unfold row. destruct (facts db !! Fact.key f) as [old |] eqn:Hold; simpl; [| done].
    split; [by apply Hkey | done]. }
  destruct Hrow as [Hrk Hri]. split; simpl.
  - intros k r. rewrite lookup_insert. case_decide; [| by apply Hkey].
    intros [= <-]. congruence.
  - intros k1 k2 r1 r2. rewrite !lookup_insert.
    repeat case_decide; intros H1 H2 Heq; simplify_eq; try done.
    + symmetry. apply (Hnew k2 r2); congruence.
    + apply (Hnew k1 r1); congruence.
    + by eapply Hid.
Qed.

(** A database whose rows all come from rows of [db], under the same key
    and with the same key and id columns, satisfies the schema when [db]
    does. *)
Lemma schema_ok_rows db db' :
  (∀ k r, facts db' !! k = Some r →
          ∃ r0, facts db !! k = Some r0 ∧ Row.key r0 = Row.key r ∧ Row.id r0 = Row.id r) →
  schema_ok db → schema_ok db'.
Proof.
  intros Hrows [Hkey Hid]. split.
  - intros k r Hk. apply Hrows in Hk as (r0 & Hk0 & <- & _). by apply Hkey.
  - intros k1 k2 r1 r2 H1 H2 Heq.
    apply Hrows in H1 as (r1' & H1 & _ & E1). apply Hrows in H2 as (r2' & H2 & _ & E2).
    eapply Hid; [exact H1 | exact H2 | congruence].
Qed.

Lemma call_schema db m : schema_ok db → schema_ok (call db m).
Proof.
  intros Hs. destruct m as [f | k now | | k | k v | e now]; simpl.
  - by apply upsertFact_schema.
  - apply (schema_ok_rows db); [| done]. intros k' r.
    unfold deleteFact, deleteFact_stmts, stmt_delete_fact.
    destruct (bool_decide (is_Some (facts db !! k))); simpl;
      rewrite lookup_delete; case_decide; (done || eauto).
  - apply (schema_ok_rows db); [| done]. intros k r. simpl.
    rewrite lookup_fmap. destruct (facts db !! k) as [r' |]; [| done].
    intros [= <-]. eauto.
  - apply (schema_ok_rows db); [| done]. intros k' r. simpl.
    rewrite lookup_alter. case_decide; [| eauto].
    subst k'. destruct (facts db !! k) as [r' |]; [| done].
    intros [= <-]. eauto.
  - exact Hs.
  - unfold saveSharedConversationImport, stmt_insert_import. simpl.
    destruct (shared_conversation_imports db !! Entry.shareId e); exact Hs.
Qed.

Lemma calls_schema ms : ∀ db, schema_ok db → schema_ok (calls db ms).
Proof.
  induction ms as [| m ms IH]; intros db Hs; simpl; [done |].
  by apply IH, call_schema.
Qed.

Lemma fresh_schema : schema_ok fresh.
Proof.
  split; [intros k r H | intros k1 k2 r1 r2 H]; simpl in H;
    by rewrite lookup_empty in H.
Qed.

Lemma call_never_both db m : never_both db → never_both (call db m).
Proof.
  intros Hn. destruct m as [f | k now | | k | k v | e now]; simpl.
  - destruct (decide (id_conflict db f)) as [Hc | Hc].
    { by rewrite (upsertFact_conflict db f Hc). }
    rewrite (upsertFact_ok db f Hc). intros k. simpl.
    destruct (decide (Fact.key f = k)) as [<- | Hne].
    + intros _. apply lookup_delete_eq.
    + rewrite lookup_insert_ne, lookup_delete_ne by done. apply Hn.
  - intros k'. destruct (facts db !! k) as [old |] eqn:Hold.
    + rewrite deleteFact_present by (rewrite Hold; eauto). simpl.
      destruct (decide (k = k')) as [<- | Hne].
      * rewrite lookup_delete_eq. by intros [? ?].
      * rewrite lookup_delete_ne, lookup_insert_ne by done. apply Hn.
    + rewrite deleteFact_absent by done. apply Hn.
  - intros k _. simpl. apply lookup_empty.
  - intros k'. simpl. rewrite lookup_alter. case_decide; [| apply Hn].
    subst k'. intros Hs. apply Hn. destruct (facts db !! k); [eauto | by destruct Hs].
  - exact Hn.
  - unfold saveSharedConversationImport, stmt_insert_import. simpl.
    destruct (shared_conversation_imports db !! Entry.shareId e); exact Hn.
Qed.

Lemma calls_never_both ms : ∀ db, never_both db → never_both (calls db ms).
Proof.
  induction ms as [| m ms IH]; intros db Hn; simpl; [done |].
  by apply IH, call_never_both.
Qed.

Lemma fresh_never_both : never_both fresh.
Proof. intros k. simpl. rewrite lookup_empty. by intros [? ?]. Qed.

Lemma getFact_key db k f : schema_ok db → getFact db k = Some f → Fact.key f = k.
Proof.
  intros [Hkey _]. unfold getFact.
  destruct (facts db !! k) as [r |] eqn:Hk; [| done].
  intros [= <-]. simpl. by apply Hkey.
Qed.

(** X1. The writing functions of the store keep the schema: after any
    sequence of calls on a database that satisfies it (a fresh one does),
    the fact found under a key carries that key and two facts with the same
    id are found under the same key. *)
Theorem store_keeps_schema (db : Db) (ms : list Mutation) :
  schema_ok db →
  schema_ok (calls db ms)
  ∧ (∀ k f, getFact (calls db ms) k = Some f → Fact.key f = k)
  ∧ (∀ k1 k2 f1 f2,
       getFact (calls db ms) k1 = Some f1 → getFact (calls db ms) k2 = Some f2 →
       Fact.id f1 = Fact.id f2 → k1 = k2).
Proof.
  intros Hs. pose proof (calls_schema ms db Hs) as Hs'.
  split; [done |]. split; [intros k f; by apply getFact_key |].
  intros k1 k2 f1 f2. unfold getFact.
  destruct (facts (calls db ms) !! k1) as [r1 |] eqn:H1; [| done].
  destruct (facts (calls db ms) !! k2) as [r2 |] eqn:H2; [| done].
  intros [= <-] [= <-]. simpl. destruct Hs' as [_ Hid]. by eapply Hid.
Qed.

Lemma store_keeps_schema_witness :
  schema_ok fresh
  ∧ schema_ok (calls fresh [call_upsertFact Sample.jwt; call_upsertFact Sample.same_id;
                            call_deleteFact "k1" "t2"; call_upsertFact Sample.same_id]).
Proof.
  split; [exact fresh_schema |].
  exact (proj1 (store_keeps_schema fresh _ fresh_schema)).
Defined.

(** X2. No key is at once a stored fact and a pending delete, after any
    sequence of calls on a database where this holds (a fresh one); hence
    the operations of a push never hold an upsert and a delete of the same
    key. *)
Theorem store_never_both (db : Db) (ms : list Mutation) :
  schema_ok db → never_both db →
  never_both (calls db ms)
  ∧ ∀ f, upsert f ∈ pending_operations (calls db ms) →
         delete_op (Fact.key f) ∉ pending_operations (calls db ms).
Proof.
  intros Hs Hn.
  pose proof (calls_schema ms db Hs) as Hs'.
  pose proof (calls_never_both ms db Hn) as Hn'.
  split; [done |]. generalize dependent (calls db ms). clear. intros db' [Hkey _] Hn f.
  unfold pending_operations. rewrite !elem_of_app. intros [Hf | Hf] [Hd | Hd].
  - apply list_elem_of_fmap in Hd as (f' & Heq & _). discriminate.
  - apply list_elem_of_fmap in Hf as (f' & [= <-] & Hf).
    apply list_elem_of_fmap in Hd as (k & [= <-] & Hd).
    unfold getDirtyFacts in Hf. apply list_elem_of_fmap in Hf as (r & -> & Hr).
    apply list_elem_of_filter in Hr as [_ Hr]. apply rows_lookup in Hr as [k Hk].
    unfold getPendingDeletes in Hd.
    apply list_elem_of_fmap in Hd as ([k' t] & Hk' & Hd). simpl in Hk'.
    apply elem_of_map_to_list in Hd.
    assert (Row.key r = k) by by apply Hkey. simpl in Hk'. subst.
    rewrite Hn in Hd by eauto. discriminate.
  - apply list_elem_of_fmap in Hf as (k & Heq & _). discriminate.
  - apply list_elem_of_fmap in Hf as (k & Heq & _). discriminate.
Qed.

Lemma store_never_both_witness :
  never_both (calls fresh [call_upsertFact Sample.jwt; call_deleteFact "k1" "t2";
                           call_upsertFact Sample.jwt_again]).
Proof.
  exact (proj1 (store_never_both fresh _ fresh_schema fresh_never_both)).
Defined.

Lemma getAllFacts_newest_first_witness :
  Fact.key <$> getAllFacts (calls fresh [call_upsertFact (Sample.fact "a" "k1" "JWT" "t0");
                                         call_upsertFact (Sample.fact "d" "k2" "w" "t2");
                                         call_upsertFact (Sample.fact "c" "k3" "v" "t1")])
  = ["k2"; "k3"; "k1"]
  ∧ StronglySorted
      (λ a b, String.le (Fact.last_confirmed b) (Fact.last_confirmed a))
      (getAllFacts (calls fresh [call_upsertFact (Sample.fact "a" "k1" "JWT" "t0");
                                 call_upsertFact (Sample.fact "d" "k2" "w" "t2");
                                 call_upsertFact (Sample.fact "c" "k3" "v" "t1")]))
  ∧ NoDup (Fact.key <$>
             getAllFacts (calls fresh [call_upsertFact (Sample.fact "a" "k1" "JWT" "t0");
                                       call_upsertFact (Sample.fact "d" "k2" "w" "t2");
                                       call_upsertFact (Sample.fact "c" "k3" "v" "t1")])).
Proof.
  split; [by vm_compute |].
  destruct (getAllFacts_newest_first
              (calls fresh [call_upsertFact (Sample.fact "a" "k1" "JWT" "t0");
                            call_upsertFact (Sample.fact "d" "k2" "w" "t2");
                            call_upsertFact (Sample.fact "c" "k3" "v" "t1")]))
    as (Hsorted & _ & Hnd); [apply calls_schema, fresh_schema |].
  by split.
Defined.

(** ** Writing and reading back *)

Lemma double_of_integer_exact z : - 2 ^ 53 < z < 2 ^ 53 → double_of_integer z = z.
Proof.
  intros Hz. unfold double_of_integer, round53.
  assert (H : (Z.abs z <? 2 ^ 53) = true) by (apply Z.ltb_lt; lia).
  rewrite H. destruct z; simpl; lia.
Qed.

Lemma rowToFact_row_of_fact f :
  rowToFact (row_of_fact f)
  = Fact.mk (Fact.id f) (Fact.scope f) (Fact.key f) (Fact.value f) (Fact.tags f)
            (Fact.confidence f)
            (match Fact.source_session f with
             | Some s => if truthy s then Some s else None
             | None => None
             end)
            (Fact.created f) (Fact.last_confirmed f)
            (double_of_integer (Fact.access_count f)).
Proof.
  unfold rowToFact, row_of_fact. simpl.
  destruct (Fact.source_session f) as [[| c s] |]; reflexivity.
Qed.

(** What [getFact] finds after an upsert that does not fail. *)
Lemma upsertFact_reads db f :
  schema_ok db → ¬ id_conflict db f →
  getFact (upsertFact db f).1 (Fact.key f) = Some (read_back db f)
  ∧ ∀ k, k ≠ Fact.key f → getFact (upsertFact db f).1 k = getFact db k.
Proof.
  intros [Hkey _] Hc. rewrite (upsertFact_ok db f Hc). unfold getFact. simpl. split.
  - rewrite lookup_insert_eq. simpl. unfold read_back.
    destruct (facts db !! Fact.key f) as [old |] eqn:Hold.
    + unfold rowToFact, do_update, row_of_fact. simpl.
      rewrite (Hkey _ _ Hold).
      destruct (Fact.source_session f) as [[| c s] |]; reflexivity.
    + by rewrite rowToFact_row_of_fact.
  - intros k Hk. by rewrite lookup_insert_ne.
Qed.

(** X3. Round trip. When the id of [f] is not used under another key,
    [getFact] after [upsertFact db f] finds, under the key of [f], the fact
    [f] itself, but for two columns: [created] is the stored one when the
    key was already there, and an empty [source_session] is read back as
    null (the access count, a double, is read back as it is). The facts
    under the other keys are read as before. *)
Theorem upsertFact_getFact (db : Db) (f : Fact.t) :
  schema_ok db → ¬ id_conflict db f →
  getFact (upsertFact db f).1 (Fact.key f) = Some (read_back db f)
  ∧ ∀ k, k ≠ Fact.key f → getFact (upsertFact db f).1 k = getFact db k.
Proof. apply upsertFact_reads. Qed.

Lemma upsertFact_getFact_witness :
  getFact (upsertFact Sample.one_fact Sample.jwt_again).1 "k1"
  = Some (read_back Sample.one_fact Sample.jwt_again)
  ∧ Fact.created (read_back Sample.one_fact Sample.jwt_again) = "t0".
Proof.
  split; [| reflexivity].
  refine (proj1 (upsertFact_getFact Sample.one_fact Sample.jwt_again _ _)).
  - apply (calls_schema [call_upsertFact Sample.jwt]), fresh_schema.
  - apply (bool_decide_unpack _). vm_compute. exact I.
Defined.

(** X4. The later of an upsert and a delete of one key wins. Deleting a key
    right after a successful upsert leaves no fact and a pending delete;
    upserting right after a delete leaves the fact, with the [created] of
    the new fact (the old row is gone), and no pending delete. *)
Theorem upsert_delete_last_wins (db : Db) (f : Fact.t) (now : string) :
  (¬ id_conflict db f →
     getFact (deleteFact (upsertFact db f).1 (Fact.key f) now).1 (Fact.key f) = None
     ∧ pending_deletes (deleteFact (upsertFact db f).1 (Fact.key f) now).1 !! Fact.key f
       = Some now)
  ∧ (¬ id_conflict (deleteFact db (Fact.key f) now).1 f →
     (Fact.created <$> getFact (upsertFact (deleteFact db (Fact.key f) now).1 f).1 (Fact.key f))
     = Some (Fact.created f)
     ∧ pending_deletes (upsertFact (deleteFact db (Fact.key f) now).1 f).1 !! Fact.key f
       = None).
Proof.
  split.
  - intros Hc. rewrite (upsertFact_ok db f Hc).
    rewrite deleteFact_present by (simpl; rewrite lookup_insert_eq; eauto).
    unfold getFact. simpl. by rewrite lookup_delete_eq, lookup_insert_eq.
  - intros Hc. rewrite (upsertFact_ok _ f Hc). unfold getFact. simpl.
    rewrite lookup_insert_eq, lookup_delete_eq. split; [| done].
    assert (Hgone : facts (deleteFact db (Fact.key f) now).1 !! Fact.key f = None).
    { destruct (facts db !! Fact.key f) as [old |] eqn:Hold.
      - rewrite deleteFact_present by (rewrite Hold; eauto). simpl. apply lookup_delete_eq.
      - by rewrite deleteFact_absent. }
    by rewrite Hgone.
Qed.

Lemma upsert_delete_last_wins_witness :
  getFact (deleteFact (upsertFact fresh Sample.jwt).1 "k1" "t2").1 "k1" = None
  ∧ pending_deletes (deleteFact (upsertFact fresh Sample.jwt).1 "k1" "t2").1 !! "k1"
    = Some "t2".
Proof.
  refine (proj1 (upsert_delete_last_wins fresh Sample.jwt "t2") _).
  apply (bool_decide_unpack _). vm_compute. exact I.
Defined.

(** X5. [clearDirtyState] forgets what was to be pushed and nothing else:
    afterwards no fact is dirty and no delete is pending, while [getFact]
    finds every fact as before and [meta] and the imports are untouched. *)
Theorem clearDirtyState_clears (db : Db) :
  (clearDirtyState db).2 = None
  ∧ getDirtyFacts (clearDirtyState db).1 = []
  ∧ getPendingDeletes (clearDirtyState db).1 = []
  ∧ (∀ k, getFact (clearDirtyState db).1 k = getFact db k)
  ∧ meta (clearDirtyState db).1 = meta db
  ∧ shared_conversation_imports (clearDirtyState db).1 = shared_conversation_imports db.
Proof.
  split; [reflexivity |]. split; [by apply (getDirtyFacts_clean _ (facts db)) |].
  split; [by apply getPendingDeletes_empty |]. split; [| done].
  intros k. unfold getFact. simpl. rewrite lookup_fmap.
  by destruct (facts db !! k).
Qed.

Lemma getDirtyFacts_nil db :
  getDirtyFacts db = [] ↔ ∀ k r, facts db !! k = Some r → Row.dirty r ≠ 1.
Proof.
  unfold getDirtyFacts. split.
  - intros Hnil k r Hk Hd. apply fmap_nil_inv in Hnil.
    eapply (filter_nil_not_elem_of _ _ r Hnil); [exact Hd |].
    apply rows_lookup. eauto.
  - intros Hall. rewrite filter_none; [reflexivity |].
    apply Forall_forall. intros r Hr. apply rows_lookup in Hr as [k Hk]. by eapply Hall.
Qed.

Lemma add_one_exact z : - 2 ^ 63 ≤ z < 2 ^ 63 → add_one z = z + 1.
Proof.
  intros Hz. unfold add_one.
  assert (H1 : (- 2 ^ 63 <=? z) = true) by (apply Z.leb_le; lia).
  assert (H2 : (z <? 2 ^ 63) = true) by (apply Z.ltb_lt; lia).
  by rewrite H1, H2.
Qed.

Lemma rowToFact_bump r :
  0 ≤ Row.access_count r < 2 ^ 53 - 1 → rowToFact (bump r) = accessed (rowToFact r).
Proof.
  intros Hr. unfold rowToFact, bump, accessed. simpl.
  rewrite add_one_exact by lia. by rewrite !double_of_integer_exact by lia.
Qed.

(** X6. [incrementAccessCount] on a key without fact changes nothing. On a
    stored key whose count is below 2^53 - 1 (and not negative) it raises
    the access count that is read back by one; a count of 2^53 is read
    back unchanged, the row holding a number that no double is. In every
    case it leaves the other facts, every dirty flag, the pending deletes,
    [meta] and the imports as they are. Counting an access never queues a
    fact for the next push: when no fact was dirty, none is. *)
Theorem incrementAccessCount_counts (db : Db) (key : string) :
  (facts db !! key = None → incrementAccessCount db key = (db, None))
  ∧ (∀ r, facts db !! key = Some r → 0 ≤ Row.access_count r < 2 ^ 53 - 1 →
          getFact (incrementAccessCount db key).1 key = accessed <$> getFact db key)
  ∧ (∀ r, facts db !! key = Some r → Row.access_count r = 2 ^ 53 →
          getFact (incrementAccessCount db key).1 key = getFact db key)
  ∧ (∀ k, k ≠ key → getFact (incrementAccessCount db key).1 k = getFact db k)
  ∧ (∀ k, Row.dirty <$> facts (incrementAccessCount db key).1 !! k
          = Row.dirty <$> facts db !! k)
  ∧ (getDirtyFacts db = [] → getDirtyFacts (incrementAccessCount db key).1 = [])
  ∧ pending_deletes (incrementAccessCount db key).1 = pending_deletes db
  ∧ meta (incrementAccessCount db key).1 = meta db
  ∧ shared_conversation_imports (incrementAccessCount db key).1
    = shared_conversation_imports db.
Proof.
  assert (Hdirty : ∀ k, Row.dirty <$> alter bump key (facts db) !! k
                        = Row.dirty <$> facts db !! k).
  { intros k. rewrite lookup_alter. case_decide; [| done].
    subst k. by destruct (facts db !! key). }
  assert (Hread : ∀ r, facts db !! key = Some r →
            getFact (incrementAccessCount db key).1 key = Some (rowToFact (bump r))).
  { intros r Hr. unfold getFact.
    change (facts (incrementAccessCount db key).1) with (alter bump key (facts db)).
    by rewrite lookup_alter_eq, Hr. }
  split; [| split; [| split; [| split; [| split; [| split]]]]]; try done.
  - intros Hk. unfold incrementAccessCount, stmt_increment_access. simpl.
    by rewrite alter_id', set_facts_same.
  - intros r Hr Hcount. rewrite (Hread r Hr). unfold getFact. rewrite Hr. simpl.
    by rewrite rowToFact_bump.
  - intros r Hr Hcount. rewrite (Hread r Hr). unfold getFact. rewrite Hr. simpl.
    f_equal. unfold rowToFact, bump. simpl. rewrite Hcount. by vm_compute.
  - intros k Hk. unfold getFact. simpl. by rewrite lookup_alter_ne.
  - rewrite !getDirtyFacts_nil. intros Hall k r Hk. simpl in Hk.
    specialize (Hdirty k). rewrite Hk in Hdirty. simpl in Hdirty.
    destruct (facts db !! k) as [r0 |] eqn:Hk0; [| done].
    simpl in Hdirty. injection Hdirty as ->. by eapply Hall.
Qed.

Lemma incrementAccessCount_counts_witness :
  Fact.access_count <$> getFact Sample.two_dirty "k1" = Some 0
  ∧ Fact.access_count <$> getFact (incrementAccessCount Sample.two_dirty "k1").1 "k1"
    = Some 1
  ∧ getFact (incrementAccessCount Sample.two_dirty "k1").1 "k3"
    = getFact Sample.two_dirty "k3".
Proof.
  destruct (incrementAccessCount_counts Sample.two_dirty "k1")
    as (_ & Hone & _ & Hothers & _).
  split; [reflexivity |]. split.
  - rewrite (Hone (row_of_fact Sample.jwt)); [reflexivity | reflexivity |].
    simpl. lia.
  - by apply Hothers.
Defined.

(** * More properties of the server *)

(** ** Numbers written as text and read back *)

Lemma digit_pretty_char d : (d < 10)%N → digit (pretty_N_char d) = Some (Z.of_N d).
Proof.
  intros Hd.
  assert (d = 0 ∨ d = 1 ∨ d = 2 ∨ d = 3 ∨ d = 4 ∨ d = 5 ∨ d = 6 ∨ d = 7 ∨ d = 8 ∨ d = 9)%N
    as Hcases by lia.
  repeat (destruct Hcases as [-> | Hcases]; [reflexivity |]). by subst.
Qed.

Lemma digits_pretty_go x : ∀ s,
  (0 < x)%N → digits (pretty_N_go x s) None = digits s (Some (Z.of_N x)).
Proof.
  induction (N.lt_wf_0 x) as [x _ IH]. intros s Hx.
  rewrite pretty_N_go_step by done.
  assert (Hmod : (x `mod` 10 < 10)%N) by (apply N.mod_lt; lia).
  assert (Hdiv : (x = 10 * (x `div` 10) + x `mod` 10)%N) by (apply N.div_mod; lia).
  destruct (decide (x `div` 10 = 0)%N) as [H0 | H0].
  - rewrite H0, pretty_N_go_0. simpl. rewrite (digit_pretty_char _ Hmod). simpl.
    f_equal. f_equal. lia.
  - rewrite IH; [| apply N.div_lt; lia | lia].
    simpl. rewrite (digit_pretty_char _ Hmod). simpl. f_equal. f_equal. lia.
Qed.

Lemma pretty_go_first x : ∀ s,
  (0 < x)%N → ∃ d s', (d < 10)%N ∧ pretty_N_go x s = String (pretty_N_char d) s'.
Proof.
  induction (N.lt_wf_0 x) as [x _ IH]. intros s Hx.
  rewrite pretty_N_go_step by done.
  destruct (decide (x `div` 10 = 0)%N) as [H0 | H0].
  - rewrite H0, pretty_N_go_0. eexists _, _. split; [| reflexivity].
    apply N.mod_lt. lia.
  - apply IH; [apply N.div_lt; lia | by apply N.neq_0_lt_0].
Qed.

(** A character of one byte that is not white space starts no white-space
    character. *)
Lemma trimStart_ascii c s :
  is_white c = false → code c < 128 → trimStart (String c s) = String c s.
Proof.
  intros Hw Hc. cbn [trimStart]. rewrite Hw.
  assert (H194 : (code c =? 194) = false) by (apply Z.eqb_neq; lia).
  assert (H225 : (code c =? 225) = false) by (apply Z.eqb_neq; lia).
  assert (H226 : (code c =? 226) = false) by (apply Z.eqb_neq; lia).
  assert (H227 : (code c =? 227) = false) by (apply Z.eqb_neq; lia).
  assert (H239 : (code c =? 239) = false) by (apply Z.eqb_neq; lia).
  destruct s as [| c2 r2]; [reflexivity |].
  unfold is_white2. rewrite H194. cbn [andb].
  destruct r2 as [| c3 r3]; [reflexivity |].
  unfold is_white3. rewrite H225, H226, H227, H239. reflexivity.
Qed.

Lemma parseInt_digit_first d s :
  (d < 10)%N →
  parseInt (String (pretty_N_char d) s)
  = match digits (String (pretty_N_char d) s) None with
    | None => NaN
    | Some m => number_of_Z m
    end.
Proof.
  intros Hd.
  assert (d = 0 ∨ d = 1 ∨ d = 2 ∨ d = 3 ∨ d = 4 ∨ d = 5 ∨ d = 6 ∨ d = 7 ∨ d = 8 ∨ d = 9)%N
    as Hcases by lia.
  unfold parseInt.
  repeat (destruct Hcases as [-> | Hcases];
          [rewrite trimStart_ascii by (vm_compute; done); reflexivity |]).
  subst. rewrite trimStart_ascii by (vm_compute; done). reflexivity.
Qed.

Lemma number_of_Z_exact z : 0 ≤ z < 2 ^ 53 → number_of_Z z = Fin z.
Proof.
  intros [H0 H53]. unfold number_of_Z, round53.
  rewrite Z.abs_eq by done.
  rewrite (proj2 (Z.ltb_lt _ _) H53).
  assert (Hsmall : (2 ^ 1024 <=? z) = false).
  { apply Z.leb_gt. eapply Z.lt_trans; [exact H53 |]. reflexivity. }
  rewrite Hsmall. f_equal. destruct z; simpl; lia.
Qed.

(** The decimal notation of a natural number is read back by [parseInt] as
    that number (rounded to a double). *)
Lemma parseInt_pretty_N (x : N) : parseInt (pretty x) = number_of_Z (Z.of_N x).
Proof.
  unfold pretty, pretty_N. case_decide as Hx; [by subst |].
  destruct (pretty_go_first x EmptyString) as (d & s' & Hd & Heq); [lia |].
  pose proof (digits_pretty_go x EmptyString) as Hdig. rewrite Heq in *.
  rewrite parseInt_digit_first by done. rewrite Hdig by lia. reflexivity.
Qed.

Lemma parseInt_pretty_nat (n : nat) :
  Z.of_nat n < 2 ^ 53 → parseInt (pretty n) = Fin (Z.of_nat n).
Proof.
  intros Hn. unfold pretty, pretty_nat. rewrite parseInt_pretty_N.
  rewrite nat_N_Z. apply number_of_Z_exact. lia.
Qed.


(** ** store_fact *)

Lemma prefix_app p : ∀ s t, String.prefix p s = true → String.prefix p (s +:+ t) = true.
Proof.
  induction p as [| a p IH]; intros s t H; [by destruct (s +:+ t) |].
  destruct s as [| b s]; [done |].
  change (String b s +:+ t) with (String b (s +:+ t)). simpl in *.
  destruct (ascii_dec a b); [by apply IH | done].
Qed.

Lemma prefix_self_app p t : String.prefix p (p +:+ t) = true.
Proof.
  induction p as [| a p IH]; [by destruct t |].
  change (String a p +:+ t) with (String a (p +:+ t)). simpl.
  by destruct (ascii_dec a a).
Qed.

(** X9. [store_fact] files a fact under a namespaced key: the key it is
    given when that starts with "global:" or "project:", otherwise the
    scope, a colon and the key. For the scope "global" and for the scopes
    that start with "project:" the stored key is itself namespaced, so that
    storing under the stored key again addresses the same fact. *)
Theorem fullKey_namespaces (key factScope : string) :
  (startsWith key "global:" || startsWith key "project:" = true → fullKey key factScope = key)
  ∧ (startsWith key "global:" || startsWith key "project:" = false →
     fullKey key factScope = factScope +:+ ":" +:+ key)
  ∧ (factScope = "global" ∨ startsWith factScope "project:" = true →
     fullKey (fullKey key factScope) factScope = fullKey key factScope).
Proof.
  unfold fullKey. split; [| split].
  - by intros ->.
  - by intros ->.
  - intros Hs.
    destruct (startsWith key "global:" || startsWith key "project:") eqn:Hk.
    + by rewrite Hk.
    + assert (Hp : startsWith (factScope +:+ ":" +:+ key) "global:"
                   || startsWith (factScope +:+ ":" +:+ key) "project:" = true).
      { destruct Hs as [-> | Hs].
        - change ("global" +:+ ":" +:+ key) with ("global:" +:+ key).
          unfold startsWith. by rewrite prefix_self_app.
        - apply orb_true_iff. right. by apply prefix_app. }
      by rewrite Hp.
Qed.

Lemma fullKey_namespaces_witness :
  fullKey "auth:strategy" "project:shop" = "project:shop:auth:strategy"
  ∧ fullKey (fullKey "auth:strategy" "project:shop") "project:shop"
    = "project:shop:auth:strategy".
Proof.
  destruct (fullKey_namespaces "auth:strategy" "project:shop") as (_ & H2 & H3).
  rewrite H3 by (right; reflexivity). split; reflexivity.
Defined.

(** X10. When the id drawn for it is not the id of a fact under another
    key, [store_fact] answers `Stored: <key>` and the fact can be read back
    under that key with the value, tags and scope given, [last_confirmed]
    set to the time of the call and no pending delete. Storing over a fact
    that is already there keeps its [created] but starts its access count
    again from 0. *)
Theorem store_fact_reads_back (db : Db) (key value : string) (tags : list string)
        (scope : option string) (uuid now : string) :
  schema_ok db →
  ¬ id_conflict db (new_fact key value tags scope uuid now) →
  (store_fact db key value tags scope uuid now).2
  = Return ("Stored: " +:+ fullKey key (default "global" scope))
  ∧ getFact (store_fact db key value tags scope uuid now).1
            (fullKey key (default "global" scope))
    = Some (Fact.mk uuid (default "global" scope) (fullKey key (default "global" scope))
                    value tags (Qmake 1 1) None
                    (match getFact db (fullKey key (default "global" scope)) with
                     | Some old => Fact.created old
                     | None => now
                     end)
                    now 0)
  ∧ pending_deletes (store_fact db key value tags scope uuid now).1
    !! fullKey key (default "global" scope) = None.
Proof.
  intros Hs Hc. unfold store_fact.
  destruct (upsertFact_reads db _ Hs Hc) as [Hget _].
  rewrite (upsertFact_ok db _ Hc) in *. simpl in *.
  split; [reflexivity |]. split; [| apply lookup_delete_eq].
  rewrite Hget. unfold read_back, getFact. simpl.
  by destruct (facts db !! fullKey key (default "global" scope)).
Qed.

Lemma store_fact_reads_back_witness :
  (Fact.created <$> getFact (store_fact Sample.one_fact "k1" "HS256" ["auth"]
                                        (Some "project:") "b" "t5").1 "project::k1")
  = Some "t5".
Proof.
  assert (Hs : schema_ok Sample.one_fact)
    by apply (calls_schema [call_upsertFact Sample.jwt]), fresh_schema.
  assert (Hc : ¬ id_conflict Sample.one_fact
                 (new_fact "k1" "HS256" ["auth"] (Some "project:") "b" "t5"))
    by (apply (bool_decide_unpack _); vm_compute; exact I).
  destruct (store_fact_reads_back Sample.one_fact "k1" "HS256" ["auth"]
              (Some "project:") "b" "t5" Hs Hc) as (_ & H & _).
  change (fullKey "k1" (default "global" (Some "project:"))) with "project::k1" in H.
  rewrite H. reflexivity.
Defined.

(** ** The messages shown of a recalled conversation *)

Lemma fill_from_end_spec latest_first : ∀ msgs totalChars,
  totalChars = chars msgs → totalChars ≤ charBudget →
  ∃ taken rest,
    latest_first = taken ++ rest
    ∧ fill_from_end latest_first msgs totalChars = reverse taken ++ msgs
    ∧ chars (reverse taken ++ msgs) ≤ charBudget
    ∧ match rest with
      | [] => True
      | msg :: _ => charBudget < chars (reverse taken ++ msgs) + msgChars msg
      end.
Proof.
  induction latest_first as [| msg older IH]; intros msgs total Htotal Hle; simpl.
  - exists [], []. repeat split; simpl; congruence || lia.
  - destruct (charBudget <? total + msgChars msg) eqn:Hfit.
    + apply Z.ltb_lt in Hfit. exists [], (msg :: older).
      repeat split; simpl; lia.
    + apply Z.ltb_ge in Hfit.
      destruct (IH (msg :: msgs) (total + msgChars msg)) as (taken & rest & -> & Hfill & Hc & Hr).
      { simpl. lia. }
      { done. }
      exists (msg :: taken), rest. rewrite reverse_cons, <- app_assoc. simpl.
      repeat split; done.
Qed.

(** X11. [recall_conversation] shows a tail of the conversation that fits
    the budget of 76800 characters and cannot be extended: the messages
    shown are the last ones, in order; counted at content + role + 10
    characters each they stay within the budget; and when a message is
    left out, the one just before the tail would not have fitted. *)
Theorem shown_is_longest_tail (messages : list Message.t) :
  ∃ dropped,
    messages = dropped ++ shown messages
    ∧ chars (shown messages) ≤ 76800
    ∧ match List.last (Some <$> dropped) None with
      | None => dropped = []
      | Some msg => 76800 < chars (shown messages) + msgChars msg
      end.
Proof.
  unfold shown.
  destruct (fill_from_end_spec (reverse messages) [] 0) as (taken & rest & Hsplit & -> & Hc & Hr);
    [reflexivity | by vm_compute |].
  change charBudget with 76800 in *.
  rewrite app_nil_r in *.
  exists (reverse rest). split; [| split].
  - rewrite <- reverse_app, <- Hsplit. by rewrite reverse_involutive.
  - exact Hc.
  - destruct rest as [| msg rest]; [reflexivity |].
    rewrite reverse_cons, fmap_app. simpl.
    rewrite last_last. exact Hr.
Qed.

(** ** The conversation watcher of the server *)

Lemma resume_offset_after db conversation value :
  resume_offset (setMeta db (stateKey conversation) value).1 conversation
  = match parseInt value with Fin n => n | _ => 0 end.
Proof.
  unfold resume_offset, getMeta, setMeta. simpl.
  by rewrite lookup_insert_eq.
Qed.

(** X12. The cursor of a conversation moves only when a chunk was uploaded:
    when [pushConversationDelta] throws or uploads nothing, the callback
    leaves the store as it was; when it uploaded a chunk, the next call for
    the conversation resumes from the number of messages the conversation
    had (which is below 2^53, an array length). The callback never touches
    the facts, the pending deletes, the imported shares or another meta
    key. *)
Theorem on_conversation_cursor
        (pushConversationDelta : Conversation.t → Z → Exc string (list string))
        (db : Db) (conversation : Conversation.t) :
  Z.of_nat (length (Conversation.messages conversation)) < 2 ^ 53 →
  let db' := on_conversation pushConversationDelta db conversation in
  match pushConversationDelta conversation (resume_offset db conversation) with
  | Return (_ :: _) =>
      resume_offset db' conversation
      = Z.of_nat (length (Conversation.messages conversation))
  | _ => db' = db
  end
  ∧ facts db' = facts db
  ∧ pending_deletes db' = pending_deletes db
  ∧ shared_conversation_imports db' = shared_conversation_imports db
  ∧ ∀ key, key ≠ stateKey conversation → getMeta db' key = getMeta db key.
Proof.
  intros Hlen db'. subst db'. unfold on_conversation.
  destruct (pushConversationDelta conversation (resume_offset db conversation))
    as [[| txId txIds] | err]; try by repeat split.
  split; [| repeat split].
  - rewrite resume_offset_after. by rewrite parseInt_pretty_nat.
  - intros key Hkey. unfold getMeta, setMeta. simpl.
    by rewrite lookup_insert_ne.
Qed.

Lemma on_conversation_cursor_witness :
  resume_offset
    (on_conversation (λ _ _, Return ["tx-9"]) Sample.empty Sample.talk) Sample.talk = 2
  ∧ resume_offset Sample.empty Sample.talk = 0.
Proof.
  split; [| reflexivity].
  destruct (on_conversation_cursor (λ _ _, Return ["tx-9"]) Sample.empty Sample.talk)
    as [H _]; [by vm_compute | exact H].
Defined.

(** ** A tick that uploads every shard *)



Section TickProperties.
Context {Key Backend : Type}.
Variable createChunkedShards : list Operation → Num → string → list Shard.
Variable serializeShard : Shard → string.
Variable encrypt : string → Key → list byte.
Variable pushShard :
  list byte → Num → string → string → Key → Backend → Exc string string.
Variable String_of_number : Num → string.
Variables (encryptionKey identityKey : Key) (walletAddress : string).

Local Abbreviation upload :=
  (push_one serializeShard encrypt pushShard encryptionKey identityKey walletAddress).
Local Abbreviation upload_all :=
  (push_all serializeShard encrypt pushShard encryptionKey identityKey walletAddress).
Local Abbreviation tick :=
  (syncDirtyFacts createChunkedShards serializeShard encrypt pushShard String_of_number
                  encryptionKey identityKey walletAddress).

Lemma push_all_uploads backend shards : ∀ lastVersion,
  (∀ s, s ∈ shards → uploaded (upload backend s) = true) →
  upload_all backend shards lastVersion
  = (Return (default lastVersion (shard_version <$> last shards)),
     upload backend <$> shards).
Proof.
  induction shards as [| s rest IH]; intros lastVersion Hup; [reflexivity |].
  assert (Hs : uploaded (upload backend s) = true) by (apply Hup; left).
  unfold uploaded in Hs.
  change (upload_all backend (s :: rest) lastVersion)
    with (match push_result (upload backend s) with
          | Throw err => (Throw err, [upload backend s])
          | Return _ =>
              let '(res, calls) := upload_all backend rest (shard_version s) in
              (res, upload backend s :: calls)
          end).
  destruct (push_result (upload backend s)); [| discriminate].
  rewrite IH by (intros s' Hs'; apply Hup; by right).
  rewrite last_cons. by destruct (last rest).
Qed.

Lemma push_all_shape backend shards : ∀ lastVersion,
  (∃ n, (upload_all backend shards lastVersion).2 = upload backend <$> take n shards)
  ∧ match (upload_all backend shards lastVersion).1 with
    | Return _ =>
        (upload_all backend shards lastVersion).2 = upload backend <$> shards
        ∧ Forall (λ c, uploaded c = true) (upload_all backend shards lastVersion).2
    | Throw _ => True
    end.
Proof.
  induction shards as [| s rest IH]; intros lastVersion.
  { split; [by exists 0%nat | by split]. }
  change (upload_all backend (s :: rest) lastVersion)
    with (match push_result (upload backend s) with
          | Throw err => (Throw err, [upload backend s])
          | Return _ =>
              let '(res, calls) := upload_all backend rest (shard_version s) in
              (res, upload backend s :: calls)
          end).
  destruct (push_result _) as [txId | err] eqn:Hs.
  - destruct (IH (shard_version s)) as [[n Hn] Hok].
    destruct (upload_all backend rest (shard_version s)) as [res calls].
    simpl in *. split.
    + exists (S n). simpl. by rewrite Hn.
    + destruct res as [v | e]; [| done]. destruct Hok as [-> Hall].
      split; [done |]. constructor; [| done]. unfold uploaded, push_one. simpl. by rewrite Hs.
  - split; [by exists 1%nat | done].
Qed.

(** X13. When the tick has something to push and every shard is uploaded,
    it calls [pushShard] once for each shard, in the order of the shards,
    and ends with the version of the last shard (the current version when
    there is no shard): that version, printed, is then both
    [current_version] and [last_pushed_version]; every fact is clean and
    otherwise as it was, no delete is pending, and the imported shares are
    untouched. *)
Theorem syncDirtyFacts_pushes_all
        (db : Db) (backend : Backend) (uuid : string) (shards : list Shard) :
  getDirtyFacts db ≠ [] ∨ getPendingDeletes db ≠ [] →
  createChunkedShards (pending_operations db)
    (plus_one (parseInt (default "0" (getMeta db "current_version")))) uuid
  = shards →
  (∀ s, s ∈ shards → uploaded (upload backend s) = true) →
  let version := default (parseInt (default "0" (getMeta db "current_version")))
                         (shard_version <$> last shards) in
  outcome (tick db backend uuid) = Synced version
  ∧ pushes (tick db backend uuid) = upload backend <$> shards
  ∧ store (tick db backend uuid)
    = mkDb (clean <$> facts db) ∅
           (<["last_pushed_version" := String_of_number version]>
              (<["current_version" := String_of_number version]> (meta db)))
           (shared_conversation_imports db)
  ∧ (∀ key, getFact (store (tick db backend uuid)) key = getFact db key)
  ∧ pending_operations (store (tick db backend uuid)) = [].
Proof.
  intros Hwork Hshards Hup version.
  assert (Hrun : tick db backend uuid
                 = mkTick (mkDb (clean <$> facts db) ∅
                             (<["last_pushed_version" := String_of_number version]>
                                (<["current_version" := String_of_number version]>
                                   (meta db)))
                             (shared_conversation_imports db))
                          (Synced version) (upload backend <$> shards)).
  { unfold syncDirtyFacts.
    destruct ((length (getDirtyFacts db) =? 0)%nat
              && (length (getPendingDeletes db) =? 0)%nat) eqn:Hn.
    - apply nothing_to_sync in Hn as [H1 H2]. destruct Hwork; contradiction.
    - unfold pending_operations in Hshards. rewrite Hshards.
      by rewrite (push_all_uploads backend shards _ Hup). }
  rewrite Hrun. simpl. split; [done |]. split; [done |]. split; [done |].
  split.
  - intros key. unfold getFact. simpl. rewrite lookup_fmap.
    by destruct (facts db !! key).
  - unfold pending_operations.
    rewrite (getDirtyFacts_clean _ (facts db)) by done.
    by rewrite getPendingDeletes_empty.
Qed.

(** X15. Whatever the backend does, a tick calls [pushShard] for a prefix of
    the shards, in their order, and it writes to the store only after every
    shard was uploaded: either the store is what it was, or [pushShard] was
    called for each shard and each call succeeded. *)
Theorem syncDirtyFacts_all_or_nothing (db : Db) (backend : Backend) (uuid : string) :
  let shards :=
    createChunkedShards (pending_operations db)
      (plus_one (parseInt (default "0" (getMeta db "current_version")))) uuid in
  (∃ n, pushes (tick db backend uuid) = upload backend <$> take n shards)
  ∧ (store (tick db backend uuid) = db
     ∨ (pushes (tick db backend uuid) = upload backend <$> shards
        ∧ Forall (λ c, uploaded c = true) (pushes (tick db backend uuid)))).
Proof.
  intros shards. subst shards. unfold syncDirtyFacts, pending_operations.
  destruct ((length (getDirtyFacts db) =? 0)%nat
            && (length (getPendingDeletes db) =? 0)%nat).
  { split; [by exists 0%nat | by left]. }
  match goal with
  | |- context [push_all _ _ _ _ _ _ ?b ?ss ?v] =>
      destruct (push_all_shape b ss v) as [Hprefix Hall];
      destruct (push_all serializeShard encrypt pushShard encryptionKey identityKey
                         walletAddress b ss v) as [[lastVersion | err] cs]
  end; simpl in *.
  - split; [exact Hprefix | by right].
  - split; [exact Hprefix | by left].
Qed.

End TickProperties.

Lemma syncDirtyFacts_pushes_all_witness :
  outcome (Sample.tick Sample.two_dirty 9) = Synced (Fin 2)
  ∧ uploaded <$> pushes (Sample.tick Sample.two_dirty 9) = [true; true]
  ∧ getMeta (store (Sample.tick Sample.two_dirty 9)) "last_pushed_version" = Some "2".
Proof.
  destruct (syncDirtyFacts_pushes_all
              Sample.one_op_per_shard (λ _, "{}") (λ _ _, []) Sample.backend_push
              Sample.show tt tt "wallet" Sample.two_dirty 9 "uuid"
              [mkShard (Fin 1) "uuid" "delta" [upsert (Sample.fact "c" "k3" "v" "t1")];
               mkShard (Fin 2) "uuid" "delta" [upsert Sample.jwt]])
    as (H1 & H2 & H3 & _).
  - left. vm_compute. discriminate.
  - vm_compute. reflexivity.
  - intros s Hs. apply elem_of_cons in Hs as [-> | Hs]; [reflexivity |].
    apply list_elem_of_singleton in Hs as ->. reflexivity.
  - unfold Sample.tick. rewrite H1, H2, H3. repeat split.
Defined.


(** ** More of share redemption (cli/sync.ts) *)

Lemma download_capped net txId bytes :
  download net txId = Return bytes → Z.of_nat (length bytes) ≤ MAX_SHARE_BYTES.
Proof. unfold download, downloadShard. apply downloadShard_from_returns. Qed.

Lemma validatePayload_Return payload conversation :
  validatePayload payload = Return conversation →
  payload_v payload = Some 1
  ∧ (Conversation.client conversation = "cursor"
     ∨ Conversation.client conversation = "claude-code")
  ∧ ∃ raw, payload_conversation payload = Some raw
           ∧ raw_id raw = Some (Conversation.id conversation)
           ∧ raw_client raw = Some (Conversation.client conversation)
           ∧ raw_project raw = Some (Conversation.project conversation)
           ∧ raw_messages raw = Some (Conversation.messages conversation)
           ∧ raw_startedAt raw = Some (Conversation.startedAt conversation)
           ∧ raw_updatedAt raw = Some (Conversation.updatedAt conversation).
Proof.
  unfold validatePayload.
  destruct (payload_v payload) as [[| [| |] |] |]; try done.
  destruct (payload_conversation payload) as [raw |]; [| done].
  destruct (raw_id raw) eqn:Hid; [| done].
  destruct (raw_client raw) as [client |] eqn:Hcl; [| done].
  destruct (raw_project raw) eqn:Hpr; [| done].
  destruct (raw_messages raw) eqn:Hms; [| done].
  destruct (raw_startedAt raw) eqn:Hst; [| done].
  destruct (raw_updatedAt raw) eqn:Hup; [| done].
  destruct (String.eqb client "cursor" || String.eqb client "claude-code") eqn:Hc;
    [| done].
  intros [= <-]. simpl. split; [done |]. split.
  - apply orb_true_iff in Hc as [Hc | Hc]; apply String.eqb_eq in Hc; auto.
  - exists raw. by repeat split.
Qed.

Section SyncMore.
Context {Key : Type}.
Variable extractToken : string → Exc string string.
Variable decodeShareToken : string → Exc string (Token.t Key).
Variable decrypt : list byte → Key → Exc string (list byte).
Variable parsePayload : list byte → Exc string SharePayload.

Local Abbreviation payload_of verifySignature :=
  (fetchPayload verifySignature decrypt parsePayload).
Local Abbreviation share_of verifySignature :=
  (fetchShare extractToken decodeShareToken verifySignature decrypt parsePayload).
Local Abbreviation redeem verifySignature :=
  (syncCommand extractToken decodeShareToken verifySignature decrypt parsePayload).

(** What a payload that [fetchPayload] returns went through. *)
Lemma fetchPayload_Return verifySignature net (decoded : Token.t Key) txId conversation :
  payload_of verifySignature net decoded = Return (txId, conversation) →
  ∃ t bytes plain payload,
    txId = Some t
    ∧ download net t = Return bytes
    ∧ decrypt bytes (Token.key decoded) = Return plain
    ∧ parsePayload plain = Return payload
    ∧ validatePayload payload = Return conversation
    ∧ (Token.txId decoded = Some t ∧ truthy t = true
       ∨ ∃ info, queryConversationShare net (Token.shareId decoded) = Return (Some info)
                 ∧ ShareInfo.txId info = t
                 ∧ ∀ sig, ShareInfo.signature info = Some sig →
                          truthy sig = true → truthy (ShareInfo.wallet info) = true →
                          verifySignature bytes sig (ShareInfo.wallet info) = true).
Proof.
  unfold fetchPayload, mbind, Exc_bind, archive.
  set (direct := match Token.txId decoded with
                 | Some t => if truthy t
                             then match download net t with
                                  | Return bytes => Some bytes
                                  | Throw _ => None
                                  end
                             else None
                 | None => None
                 end).
  assert (Hdirect : ∀ bytes, direct = Some bytes →
            ∃ t, Token.txId decoded = Some t ∧ truthy t = true
                 ∧ download net t = Return bytes).
  { subst direct. intros bytes.
    destruct (Token.txId decoded) as [t |]; [| done].
    destruct (truthy t) eqn:Ht; [| done].
    destruct (download net t) as [b |] eqn:Hd; [| done].
    intros [= <-]. eauto. }
  destruct direct as [bytes |].
  - destruct (Hdirect bytes eq_refl) as (t & Ht & Htruthy & Hd). simpl.
    destruct (decrypt bytes (Token.key decoded)) as [plain |] eqn:Hplain; [| done].
    destruct (parsePayload plain) as [payload |] eqn:Hparse; [| done].
    destruct (validatePayload payload) as [c |] eqn:Hvalid; [| done].
    intros [= <- <-]. exists t, bytes, plain, payload. by repeat split; auto.
  - destruct (queryConversationShare net (Token.shareId decoded)) as [[info |] |] eqn:Hq;
      try done.
    destruct (download net (ShareInfo.txId info)) as [bytes |] eqn:Hd; [| done].
    match goal with
    | |- context [negb ?v] => destruct v eqn:Hvalid_sig; [| done]
    end.
    simpl.
    destruct (decrypt bytes (Token.key decoded)) as [plain |] eqn:Hplain; [| done].
    destruct (parsePayload plain) as [payload |] eqn:Hparse; [| done].
    destruct (validatePayload payload) as [c |] eqn:Hvalid; [| done].
    intros [= <- <-]. exists (ShareInfo.txId info), bytes, plain, payload.
    repeat split; try done. right. exists info. repeat split; try done.
    intros sig Hsig Hs Hw. rewrite Hsig, Hs, Hw in Hvalid_sig. exact Hvalid_sig.
Qed.

Lemma validatePayload_Throw payload e :
  validatePayload payload = Throw e →
  e = InvalidPayloadVersion ∨ e = InvalidConversation.
Proof. unfold validatePayload. repeat case_match; intros [= <-]; auto. Qed.

(** [fetchPayload] does not touch the database. *)
Lemma fetchPayload_Throw verifySignature net (decoded : Token.t Key) e :
  payload_of verifySignature net decoded = Throw (Sqlite e) → False.
Proof.
  unfold fetchPayload, mbind, Exc_bind, archive.
  repeat case_match; simplify_eq; try done.
  all: intros [= ->];
    match goal with
    | H : validatePayload _ = Throw _ |- _ =>
        by apply validatePayload_Throw in H as [? | ?]
    end.
Qed.

(** X16. The command writes to the database only when it reports
    `Conversation imported.`: with every other outcome the database file is
    what it was. It stops with `Sharme not initialized` exactly when the
    file does not exist, and the INSERT it makes after
    [hasSharedConversationImport] said no never violates the primary key. *)
Theorem syncCommand_writes_only_on_import
        (verifySignature : list byte → string → string → bool)
        (net : Network) (home : option Db) (urlOrToken now : string) :
  ((redeem verifySignature net home urlOrToken now).2 ≠ ConversationImported →
   (redeem verifySignature net home urlOrToken now).1 = home)
  ∧ (∀ e, (redeem verifySignature net home urlOrToken now).2 ≠ SyncThrew (Sqlite e))
  ∧ ((redeem verifySignature net home urlOrToken now).2 = NotInitialized ↔ home = None).
Proof.
  unfold syncCommand. destruct home as [db |]; [| by repeat split].
  destruct (share_of verifySignature net urlOrToken) as [[[d t] c] | e] eqn:Hfetch.
  - destruct (hasSharedConversationImport db (Token.shareId d)) eqn:Hhas;
      [by repeat split |].
    assert (Hnone : shared_conversation_imports db !! Token.shareId d = None).
    { apply eq_None_not_Some. intros Hs.
      apply hasSharedConversationImport_true in Hs. congruence. }
    destruct (saveSharedConversationImport_absent
                db (Entry.mk (Token.shareId d) (default "unknown" t) c) now Hnone)
      as (row & -> & _).
    by repeat split.
  - simpl. split; [done |]. split; [| by split].
    intros e' [= ->]. revert Hfetch.
    unfold fetchShare, mbind, Exc_bind, lift.
    destruct (extractToken urlOrToken) as [token |]; [| done].
    destruct (decodeShareToken token) as [d |]; [| done].
    destruct (payload_of verifySignature net d) as [[t c] | e] eqn:Hp; [done |].
    intros [= ->]. by apply fetchPayload_Throw in Hp.
Qed.

(** X17. A token that names a transaction whose download succeeds is
    redeemed without the Share-Id lookup and without [verifySignature]:
    the command ends the same way and leaves the same database whatever
    the lookup would answer and whatever [verifySignature] would say. *)
Theorem direct_download_skips_lookup
        (verifySignature verifySignature' : list byte → string → string → bool)
        (net net' : Network) (home : option Db) (urlOrToken now : string)
        (token : string) (decoded : Token.t Key) (t : string) (bytes : list byte) :
  extractToken urlOrToken = Return token →
  decodeShareToken token = Return decoded →
  Token.txId decoded = Some t → truthy t = true →
  download net t = Return bytes →
  data_gateway net' = data_gateway net →
  data_endpoints net' = data_endpoints net →
  redeem verifySignature' net' home urlOrToken now
  = redeem verifySignature net home urlOrToken now.
Proof.
  intros He Hd Ht Htruthy Hbytes Hg Heps.
  assert (Hbytes' : download net' t = Return bytes).
  { unfold download in *. by rewrite Hg, Heps. }
  assert (Hsame : share_of verifySignature' net' urlOrToken
                  = share_of verifySignature net urlOrToken).
  { unfold fetchShare, mbind, Exc_bind, lift. rewrite He, Hd.
    unfold fetchPayload, mbind, Exc_bind, archive.
    by rewrite Ht, Htruthy, Hbytes, Hbytes'. }
  unfold syncCommand. by rewrite Hsame.
Qed.

(** X18. Where an imported row comes from. When the command reports
    `Conversation imported.`, the row it wrote under the token's share id
    names the transaction whose bytes were downloaded (never `unknown`),
    those bytes were at most [MAX_SHARE_BYTES] long, they decrypted under
    the key of the token to a payload of version 1 that [validatePayload]
    accepted, and the row carries the id, client (cursor or claude-code),
    project and message count of that conversation. The transaction is the
    one the token names or the one the Share-Id lookup found; in the latter
    case a signature that the share carries together with a wallet was
    verified against the downloaded bytes. *)
Theorem import_provenance
        (verifySignature : list byte → string → string → bool)
        (net : Network) (db db1 : Db) (urlOrToken now : string) :
  redeem verifySignature net (Some db) urlOrToken now = (Some db1, ConversationImported) →
  ∃ token decoded t bytes plain payload conversation row,
    extractToken urlOrToken = Return token
    ∧ decodeShareToken token = Return decoded
    ∧ download net t = Return bytes
    ∧ Z.of_nat (length bytes) ≤ MAX_SHARE_BYTES
    ∧ decrypt bytes (Token.key decoded) = Return plain
    ∧ parsePayload plain = Return payload
    ∧ payload_v payload = Some 1
    ∧ validatePayload payload = Return conversation
    ∧ shared_conversation_imports db1 !! Token.shareId decoded = Some row
    ∧ row = ImportRow.mk t (Conversation.id conversation)
                         (Conversation.client conversation)
                         (Conversation.project conversation)
                         (Z.of_nat (length (Conversation.messages conversation)))
                         now (Conversation.json conversation)
    ∧ (Conversation.client conversation = "cursor"
       ∨ Conversation.client conversation = "claude-code")
    ∧ (Token.txId decoded = Some t ∧ truthy t = true
       ∨ ∃ info, queryConversationShare net (Token.shareId decoded) = Return (Some info)
                 ∧ ShareInfo.txId info = t
                 ∧ ∀ sig, ShareInfo.signature info = Some sig →
                          truthy sig = true → truthy (ShareInfo.wallet info) = true →
                          verifySignature bytes sig (ShareInfo.wallet info) = true).
Proof.
  unfold syncCommand.
  destruct (share_of verifySignature net urlOrToken) as [[[d txId] c] | e] eqn:Hfetch;
    [| done].
  destruct (hasSharedConversationImport db (Token.shareId d)) eqn:Hhas; [done |].
  assert (Hnone : shared_conversation_imports db !! Token.shareId d = None).
  { apply eq_None_not_Some. intros Hs.
    apply hasSharedConversationImport_true in Hs. congruence. }
  revert Hfetch. unfold fetchShare, mbind, Exc_bind, lift.
  destruct (extractToken urlOrToken) as [token |]; [| done].
  destruct (decodeShareToken token) as [d' |] eqn:Hd; [| done].
  destruct (payload_of verifySignature net d') as [[t' c'] |] eqn:Hp; [| done].
  intros [= -> -> ->].
  apply fetchPayload_Return in Hp
    as (t & bytes & plain & payload & -> & Hdown & Hplain & Hparse & Hvalid & Hpath).
  destruct (validatePayload_Return _ _ Hvalid) as (Hv & Hclient & _).
  unfold saveSharedConversationImport, stmt_insert_import. simpl. rewrite Hnone.
  intros [= <-].
  exists token, d, t, bytes, plain, payload, c. eexists.
  split; [done |]. split; [done |]. split; [done |].
  split; [by apply (download_capped net t) |].
  split; [done |]. split; [done |]. split; [done |]. split; [done |].
  split; [simpl; by rewrite lookup_insert_eq |].
  split; [reflexivity |]. split; [done |]. exact Hpath.
Qed.
End SyncMore.

Lemma direct_download_skips_lookup_witness :
  Sample.sync Sample.online (Some Sample.empty) "t8"
  = syncCommand (λ url, Return url) (λ _, Return Sample.token) (λ _ _ _, false)
                (λ bytes _, Return bytes) (λ _, Return Sample.payload)
                (mkNetwork Sample.blobs Sample.data_endpoints
                           (λ _, Throw (AllGatewaysFailed [])))
                (Some Sample.empty) "sharme://share/abc" "t8".
Proof.
  symmetry.
  apply (direct_download_skips_lookup
           (λ url, Return url) (λ _, Return Sample.token)
           (λ bytes _, Return bytes) (λ _, Return Sample.payload)
           (λ _ _ _, true) (λ _ _ _, false) Sample.online _
           (Some Sample.empty) "sharme://share/abc" "t8"
           "sharme://share/abc" Sample.token "tx-1" (Sample.blob ++ Sample.blob));
    reflexivity || (vm_compute; reflexivity).
Defined.

Lemma import_provenance_witness :
  ∃ row, shared_conversation_imports Sample.imported !! "share-1" = Some row
         ∧ ImportRow.tx_id row = "tx-1"
         ∧ ImportRow.message_count row = 2.
Proof.
  destruct (import_provenance
              (λ url, Return url) (λ _, Return Sample.token)
              (λ bytes _, Return bytes) (λ _, Return Sample.payload)
              (λ _ _ _, true) Sample.online Sample.empty Sample.imported
              "sharme://share/abc" "t8")
    as (token & decoded & t & bytes & plain & payload & conversation & row
        & _ & Hd & _ & _ & _ & Hp & _ & Hc & Hrow & -> & _).
  - vm_compute. reflexivity.
  - injection Hd as <-. injection Hp as <-. injection Hc as <-.
    eexists. split; [exact Hrow |]. simpl in Hrow. vm_compute in Hrow.
    injection Hrow as <-. split; reflexivity.
Defined.

(** ** The handler of [recall_context] *)

Lemma bump_iter_dirty n r : Row.dirty (Nat.iter n bump r) = Row.dirty r.
Proof. induction n as [| n IH]; [reflexivity |]. simpl. exact IH. Qed.

Lemma add_one_iter n z :
  0 ≤ z → z + Z.of_nat n < 2 ^ 63 → Nat.iter n add_one z = z + Z.of_nat n.
Proof.
  intros Hz. induction n as [| n IH]; intros Hn.
  - simpl. lia.
  - change (Nat.iter (S n) add_one z) with (add_one (Nat.iter n add_one z)).
    rewrite IH by lia. rewrite add_one_exact by lia. lia.
Qed.

Lemma bump_iter_row n r :
  Nat.iter n bump r
  = Row.mk (Row.id r) (Row.scope r) (Row.key r) (Row.value r) (Row.tags r)
           (Row.confidence r) (Row.source_session r) (Row.created r)
           (Row.last_confirmed r) (Nat.iter n add_one (Row.access_count r))
           (Row.dirty r).
Proof.
  induction n as [| n IH]; [by destruct r |].
  change (Nat.iter (S n) bump r) with (bump (Nat.iter n bump r)).
  by rewrite IH.
Qed.

Lemma bump_iter_fact n r :
  0 ≤ Row.access_count r → Row.access_count r + Z.of_nat n < 2 ^ 53 →
  rowToFact (Nat.iter n bump r) = accessed_times n (rowToFact r).
Proof.
  intros H0 Hn. rewrite bump_iter_row. unfold rowToFact, accessed_times. simpl.
  rewrite add_one_iter by lia. by rewrite !double_of_integer_exact by lia.
Qed.

Lemma recall_rows results : ∀ db key,
  let db' := foldl (λ db fact, (incrementAccessCount db (Fact.key fact)).1) db results in
  facts db' !! key = Nat.iter (times_recalled key results) bump <$> facts db !! key
  ∧ pending_deletes db' = pending_deletes db
  ∧ meta db' = meta db
  ∧ shared_conversation_imports db' = shared_conversation_imports db.
Proof.
  induction results as [| f rest IH]; intros db key; cbn [foldl].
  { split; [by destruct (facts db !! key) | done]. }
  destruct (IH (incrementAccessCount db (Fact.key f)).1 key) as (Hf & Hp & Hm & Hi).
  split; [| split; [exact Hp | split; [exact Hm | exact Hi]]].
  rewrite Hf. unfold times_recalled.
  change (facts (incrementAccessCount db (Fact.key f)).1)
    with (alter bump (Fact.key f) (facts db)).
  destruct (decide (Fact.key f = key)) as [Hk | Hne].
  - rewrite filter_cons_True by done. rewrite Hk, lookup_alter_eq. simpl.
    destruct (facts db !! key) as [r |]; [| done]. simpl.
    by rewrite <- Nat.iter_succ_r.
  - rewrite filter_cons_False by done. by rewrite lookup_alter_ne.
Qed.

(** X19. [recall_context] raises the access count that is read back of a
    fact by the number of times the fact is among the results, as long as
    the count stays below 2^53 (and was not negative), and changes nothing
    else: no fact appears or disappears, no fact becomes dirty or clean,
    and pending deletes, meta values and imported shares stay as they are.
    Recalling creates no work for the push. *)
Theorem recall_context_counts
        (recallContext : string → string → list Fact.t → list Fact.t)
        (defaultScope : string) (db : Db) (topic : string) (scope : option string) :
  let db' := (recall_context recallContext defaultScope db topic scope).1 in
  let results := (recall_context recallContext defaultScope db topic scope).2 in
  (∀ key r, facts db !! key = Some r →
            0 ≤ Row.access_count r →
            Row.access_count r + Z.of_nat (times_recalled key results) < 2 ^ 53 →
            getFact db' key
            = accessed_times (times_recalled key results) <$> getFact db key)
  ∧ (∀ key, is_Some (getFact db' key) ↔ is_Some (getFact db key))
  ∧ (∀ key, times_recalled key results = 0%nat → getFact db' key = getFact db key)
  ∧ (∀ key, Row.dirty <$> facts db' !! key = Row.dirty <$> facts db !! key)
  ∧ getPendingDeletes db' = getPendingDeletes db
  ∧ meta db' = meta db
  ∧ shared_conversation_imports db' = shared_conversation_imports db.
Proof.
  intros db' results. subst db' results. unfold recall_context. cbn [fst snd].
  set (results := recallContext topic (default defaultScope scope) (getAllFacts db)).
  split; [| split; [| split; [| split]]].
  - intros key r Hr H0 Hn. unfold getFact.
    destruct (recall_rows results db key) as (-> & _). rewrite Hr. simpl.
    by rewrite bump_iter_fact.
  - intros key. unfold getFact. destruct (recall_rows results db key) as (-> & _).
    rewrite !fmap_is_Some. done.
  - intros key Hnone. unfold getFact.
    destruct (recall_rows results db key) as (-> & _). rewrite Hnone.
    by destruct (facts db !! key).
  - intros key. destruct (recall_rows results db key) as (-> & _).
    destruct (facts db !! key) as [r |]; [| done]. simpl. by rewrite bump_iter_dirty.
  - destruct (recall_rows results db EmptyString) as (_ & Hp & Hm & Hi).
    unfold getPendingDeletes. by rewrite Hp.
Qed.

Lemma recall_context_counts_witness :
  Fact.access_count <$>
    getFact (recall_context (λ _ _ allFacts, allFacts ++ allFacts) "project:demo"
                            Sample.two_dirty "auth" None).1 "k1"
  = Some 2.
Proof.
  destruct (recall_context_counts (λ _ _ allFacts, allFacts ++ allFacts) "project:demo"
                                  Sample.two_dirty "auth" None) as (Hcount & _).
  rewrite (Hcount "k1" (row_of_fact Sample.jwt)); [| reflexivity | by vm_compute |].
  - reflexivity.
  - apply Z.ltb_lt. by vm_compute.
Defined.

(** ** The endpoint lists *)

Lemma strip_slashes_end s : ∀ s', strip_slashes s ≠ s' +:+ "/".
Proof.
  induction s as [| c rest IH]; intros s'; simpl.
  { by destruct s'. }
  destruct (strip_slashes rest) as [| k kept] eqn:Hrest.
  - destruct (Ascii.eqb c "/") eqn:Hc.
    + by destruct s'.
    + destruct s' as [| c' s'']; simpl.
      * intros [= ->]. by rewrite Ascii.eqb_refl in Hc.
      * intros [= _ H]. by destruct s''.
  - destruct s' as [| c' s'']; simpl; [done |].
    intros [= _ H]. by apply (IH s'').
Qed.

Lemma strip_slashes_kept s : ∃ n, s = strip_slashes s +:+ slashes n.
Proof.
  induction s as [| c rest [n IH]]; [by exists 0%nat |].
  cbn [strip_slashes].
  destruct (strip_slashes rest) as [| k kept] eqn:Hrest.
  - change (EmptyString +:+ slashes n) with (slashes n) in IH.
    destruct (Ascii.eqb c "/") eqn:Hc.
    + apply Ascii.eqb_eq in Hc as ->. exists (S n). by rewrite IH.
    + exists n. by rewrite IH.
  - exists n. rewrite IH at 1. reflexivity.
Qed.

Lemma strip_slashes_slashes n : strip_slashes (slashes n) = EmptyString.
Proof.
  induction n as [| n IH]; [reflexivity |].
  change (slashes (S n)) with (String "/" (slashes n)).
  cbn [strip_slashes]. by rewrite IH.
Qed.

(** X20. [parseEndpointList] gives the fallback when the variable is unset,
    empty or blank. Otherwise it trims the pieces between the commas and
    drops the empty ones: when none is left it gives the fallback, and when
    some are left it gives these entries, each without the slashes at its
    end and otherwise as it is, in their order. An entry that consists of
    slashes alone is therefore kept, as the empty endpoint. With a
    non-empty fallback the result is never empty, so neither gateway list
    of the module is. *)
Theorem parseEndpointList_entries (envValue : option string) (fallback : list string) :
  ((envValue = None ∨ ∃ v, envValue = Some v ∧ trim v = EmptyString) →
   parseEndpointList envValue fallback = fallback)
  ∧ (∀ v, envValue = Some v → trim v ≠ EmptyString →
       let entries := filter (λ s, truthy s = true) (trim <$> split "," v) in
       (entries = [] → parseEndpointList envValue fallback = fallback)
       ∧ (entries ≠ [] →
          parseEndpointList envValue fallback = strip_slashes <$> entries)
       ∧ (∀ n, slashes (S n) ∈ entries →
               EmptyString ∈ parseEndpointList envValue fallback))
  ∧ (∀ s, (∀ s', strip_slashes s ≠ s' +:+ "/")
          ∧ (∃ n, s = strip_slashes s +:+ slashes n))
  ∧ (∀ n, strip_slashes (slashes n) = EmptyString)
  ∧ (fallback ≠ [] → parseEndpointList envValue fallback ≠ [])
  ∧ ARWEAVE_GQL_ENDPOINTS envValue ≠ [] ∧ ARWEAVE_DATA_ENDPOINTS envValue ≠ [].
Proof.
  assert (Hne : ∀ fb, fb ≠ [] → parseEndpointList envValue fb ≠ []).
  { intros fb Hfb. unfold parseEndpointList. destruct envValue as [v |]; [| done].
    destruct (negb (truthy v) || String.eqb (trim v) EmptyString); [done |].
    set (values := strip_slashes <$> _).
    destruct (0 <? length values)%nat eqn:Hlen; [| done].
    intros Hnil. rewrite Hnil in Hlen. discriminate. }
  assert (Hentries : ∀ v, envValue = Some v → trim v ≠ EmptyString →
            parseEndpointList envValue fallback
            = match filter (λ s, truthy s = true) (trim <$> split "," v) with
              | [] => fallback
              | entry :: entries => strip_slashes <$> (entry :: entries)
              end).
  { intros v -> Hv. unfold parseEndpointList.
    assert (Ht : truthy v = true).
    { destruct v; [| done]. by destruct Hv. }
    apply String.eqb_neq in Hv. rewrite Ht, Hv. simpl.
    by destruct (filter (λ s, truthy s = true) (trim <$> split "," v)). }
  split; [| split; [| split; [| split; [| split]]]].
  - intros [-> | (v & -> & Hv)]; [reflexivity |].
    unfold parseEndpointList. rewrite Hv. simpl. by rewrite orb_true_r.
  - intros v Hsome Hv entries. subst entries. rewrite (Hentries v Hsome Hv).
    split; [by intros -> |]. split.
    + by destruct (filter (λ s, truthy s = true) (trim <$> split "," v)).
    + intros n Hin.
      destruct (filter (λ s, truthy s = true) (trim <$> split "," v)) as [| entry entries];
        [by apply elem_of_nil in Hin |].
      rewrite <- (strip_slashes_slashes (S n)). by apply list_elem_of_fmap_2.
  - intros s. split; [apply strip_slashes_end | apply strip_slashes_kept].
  - apply strip_slashes_slashes.
  - apply Hne.
  - split; by apply Hne.
Qed.

Lemma parseEndpointList_entries_witness :
  parseEndpointList (Some " https://a.example// ,, / ") DEFAULT_DATA_ENDPOINTS
  = ["https://a.example"; EmptyString]
  ∧ parseEndpointList (Some " , ") DEFAULT_DATA_ENDPOINTS = DEFAULT_DATA_ENDPOINTS.
Proof.
  destruct (parseEndpointList_entries (Some " https://a.example// ,, / ")
                                      DEFAULT_DATA_ENDPOINTS)
    as (_ & Hsome & _).
  destruct (Hsome " https://a.example// ,, / " eq_refl) as (_ & Hkept & _);
    [by vm_compute |].
  destruct (parseEndpointList_entries (Some " , ") DEFAULT_DATA_ENDPOINTS)
    as (_ & Hnone & _).
  destruct (Hnone " , " eq_refl) as (Hfallback & _); [by vm_compute |].
  split.
  - rewrite Hkept; [reflexivity | by vm_compute].
  - by apply Hfallback.
Defined.

(** ** Failover of [downloadShard] *)

Section DownloadFailover.
Variable gateway : string → string → DataReply.
Variables (txId : string) (maxBytes : option Z).

Lemma downloadShard_from_all_fail endpoints : ∀ errors,
  Forall (λ endpoint, ∃ err, (attempt gateway endpoint txId maxBytes).1 = Throw err)
         endpoints →
  downloadShard_from gateway endpoints txId maxBytes errors
  = (Throw (AllGatewaysFailed
              (errors ++ download_failures gateway txId maxBytes endpoints)),
     download_events gateway txId maxBytes endpoints).
Proof.
  induction endpoints as [| ep eps IH]; intros errors Hall.
  { unfold download_failures, download_events. simpl. by rewrite app_nil_r. }
  apply Forall_cons in Hall as [[err Herr] Hall].
  unfold download_failures, download_events in *. simpl.
  destruct (attempt gateway ep txId maxBytes) as [[bytes | err'] evs];
    simpl in *; [done |].
  rewrite (IH _ Hall). by rewrite <- app_assoc.
Qed.

Lemma downloadShard_from_first endpoints : ∀ errors endpoint rest bytes,
  Forall (λ endpoint, ∃ err, (attempt gateway endpoint txId maxBytes).1 = Throw err)
         endpoints →
  (attempt gateway endpoint txId maxBytes).1 = Return bytes →
  downloadShard_from gateway (endpoints ++ endpoint :: rest) txId maxBytes errors
  = (Return bytes, download_events gateway txId maxBytes (endpoints ++ [endpoint])).
Proof.
  induction endpoints as [| ep eps IH]; intros errors endpoint rest bytes Hall Hok.
  { unfold download_events. simpl.
    destruct (attempt gateway endpoint txId maxBytes) as [[b | err'] evs];
      simpl in *; [| done].
    injection Hok as ->. by rewrite app_nil_r. }
  apply Forall_cons in Hall as [[err Herr] Hall].
  unfold download_events in *. simpl.
  destruct (attempt gateway ep txId maxBytes) as [[b | err'] evs];
    simpl in *; [done |].
  by rewrite (IH _ endpoint rest bytes Hall Hok).
Qed.

(** X21. [downloadShard] returns what the first gateway that delivers
    returns: when the gateways before it all fail, the bytes are those of
    that gateway, the network sees the attempts up to it, in order, and
    the gateways after it are not contacted. When every gateway fails the
    error lists one failure for each gateway, in configuration order. *)
Theorem downloadShard_failover (failing : list string) :
  Forall (λ endpoint, ∃ err, (attempt gateway endpoint txId maxBytes).1 = Throw err)
         failing →
  (∀ endpoint rest bytes,
     (attempt gateway endpoint txId maxBytes).1 = Return bytes →
     downloadShard gateway (failing ++ endpoint :: rest) txId maxBytes
     = (Return bytes, download_events gateway txId maxBytes (failing ++ [endpoint])))
  ∧ downloadShard gateway failing txId maxBytes
    = (Throw (AllGatewaysFailed (download_failures gateway txId maxBytes failing)),
       download_events gateway txId maxBytes failing)
  ∧ (download_failures gateway txId maxBytes failing).*1 = failing.
Proof.
  intros Hall. split; [| split].
  - intros endpoint rest bytes Hok. unfold downloadShard.
    by apply downloadShard_from_first.
  - unfold downloadShard. by rewrite downloadShard_from_all_fail.
  - clear -Hall. induction Hall as [| ep eps [err Herr] _ IH]; [reflexivity |].
    unfold download_failures in *. simpl. rewrite Herr. simpl. f_equal. exact IH.
Qed.
End DownloadFailover.

Lemma downloadShard_failover_witness :
  downloadShard Sample.blobs Sample.data_endpoints "tx-1" (Some 5)
  = (Return Sample.blob,
     [Fetched "https://arweave.net"; Fetched "https://g8way.io"; BodyRead "https://g8way.io"]).
Proof.
  destruct (downloadShard_failover Sample.blobs "tx-1" (Some 5) ["https://arweave.net"])
    as (H & _).
  - constructor; [| constructor]. eexists. vm_compute. reflexivity.
  - change Sample.data_endpoints with (["https://arweave.net"] ++ ["https://g8way.io"]).
    rewrite (H "https://g8way.io" [] Sample.blob); reflexivity.
Defined.

(** ** More of [queryShards] *)

Section QueryShardsMore.
Variable toLowerCase : string → string.
Variable gql : string → GqlBody → GqlReply.
Variable endpoints : list string.
Variable w : string.

Lemma queryShards_pages_endless pages : ∀ acc after,
  (∀ after, ∃ json, gqlRequest gql endpoints (mkBody w GQL_PAGE_SIZE after) = Return json
                    ∧ announces_more json) →
  queryShards_pages toLowerCase gql endpoints pages w acc after = Throw PaginationExceeded.
Proof.
  induction pages as [| pages IH]; intros acc after Hmore; [reflexivity |].
  rewrite queryShards_pages_S.
  destruct (Hmore after) as (json & -> & Herr & e & es & Hedges & Hnext & Hcursor).
  assert (Hnone : match errors json with
                  | Some (_ :: _) => False
                  | _ => True
                  end) by (by destruct Herr as [-> | ->]).
  destruct (errors json) as [[| e' es'] |]; try done.
  all: cbv zeta; rewrite Hedges, Hnext; simpl; rewrite Hcursor; simpl; by apply IH.
Qed.

(** X22. Pagination is bounded. When the gateways answer every page request
    with a page that announces another one, [queryShards] does not go on
    for ever and does not return what it has collected: it throws
    `pagination exceeded`. *)
Theorem queryShards_pagination_bound :
  (∀ after, ∃ json, gqlRequest gql endpoints (mkBody w GQL_PAGE_SIZE after) = Return json
                    ∧ announces_more json) →
  queryShards toLowerCase gql endpoints w = Throw PaginationExceeded.
Proof.
  intros Hmore. unfold queryShards.
  by rewrite (queryShards_pages_endless GQL_MAX_PAGES (mkAcc [] ∅) None Hmore).
Qed.

Lemma identities_first (l : list ShardInfo.t) :
  StronglySorted (λ a b, ShardInfo.version a ≤ ShardInfo.version b) l →
  Forall (λ s, ShardInfo.type s = identity ∧ ShardInfo.version s = 0
               ∨ ShardInfo.type s ≠ identity ∧ 1 ≤ ShardInfo.version s) l →
  ∃ identities others,
    l = identities ++ others
    ∧ Forall (λ s, ShardInfo.type s = identity ∧ ShardInfo.version s = 0) identities
    ∧ Forall (λ s, ShardInfo.type s ≠ identity ∧ 1 ≤ ShardInfo.version s) others.
Proof.
  induction 1 as [| x l Hsorted IH Hx]; intros Hall.
  { exists [], []. by repeat split. }
  apply Forall_cons in Hall as [Hhead Hall].
  destruct Hhead as [Hid | Hother].
  - destruct (IH Hall) as (ids & others & -> & Hids & Hothers).
    exists (x :: ids), others. repeat split; [by constructor | done].
  - exists [], (x :: l). repeat split; [constructor |].
    constructor; [done |].
    rewrite Forall_forall in Hall, Hx. apply Forall_forall. intros s Hs.
    specialize (Hx s Hs). destruct (Hall s Hs) as [[_ H0] | H1]; [lia | done].
Qed.

(** X23. The result of [queryShards] lists the identity records first, all
    with version 0, and after them the deltas and snapshots, whose versions
    are at least 1. *)
Theorem queryShards_identity_first (found : list ShardInfo.t) :
  queryShards toLowerCase gql endpoints w = Return found →
  ∃ identities others,
    found = identities ++ others
    ∧ Forall (λ s, ShardInfo.type s = identity ∧ ShardInfo.version s = 0) identities
    ∧ Forall (λ s, ShardInfo.type s ≠ identity ∧ 1 ≤ ShardInfo.version s) others.
Proof.
  unfold queryShards.
  destruct (queryShards_pages toLowerCase gql endpoints GQL_MAX_PAGES w (mkAcc [] ∅) None)
    as [delivered |] eqn:Hpages; [| done].
  intros [= <-].
  apply queryShards_pages_ok in Hpages as [Hall _].
  2:{ split; [constructor | split; [constructor |]]. intros s Hs. inversion Hs. }
  apply identities_first; [apply sort_sorted |].
  rewrite (sort_perm ShardInfo.version delivered).
  eapply Forall_impl; [exact Hall |].
  intros s (n & _ & _ & _ & _ & _ & Hversion).
  destruct (ShardInfo.type s); [right | right | left].
  - destruct Hversion as (raw & _ & _ & Hv). by split.
  - destruct Hversion as (raw & _ & _ & Hv). by split.
  - by split.
Qed.
End QueryShardsMore.

Lemma queryShards_pagination_bound_witness :
  queryShards lowercase_ascii Sample.endless Sample.gql_endpoints "0xABC" = Throw PaginationExceeded.
Proof.
  apply queryShards_pagination_bound. intros after. exists Sample.page1.
  split; [reflexivity |]. split; [by left |].
  eexists _, _. repeat split; reflexivity.
Defined.

Lemma queryShards_identity_first_witness :
  queryShards lowercase_ascii Sample.gql Sample.gql_endpoints "0xABC" = Return Sample.found
  ∧ ∃ identities others,
      Sample.found = identities ++ others
      ∧ Forall (λ s, ShardInfo.type s = identity ∧ ShardInfo.version s = 0) identities
      ∧ Forall (λ s, ShardInfo.type s ≠ identity ∧ 1 ≤ ShardInfo.version s) others.
Proof.
  assert (H : queryShards lowercase_ascii Sample.gql Sample.gql_endpoints "0xABC" = Return Sample.found)
    by (vm_compute; reflexivity).
  split; [exact H |].
  exact (queryShards_identity_first lowercase_ascii Sample.gql Sample.gql_endpoints "0xABC" Sample.found H).
Defined.

(** ** The share lookup *)

(** What a share that [queryConversationShare] returns was read from. *)
Lemma queryConversationShare_found
        (reply : Exc ArweaveError GqlJson) (shareId : string) (info : ShareInfo.t) :
  Arweave.queryConversationShare reply shareId = Return (Some info) →
  ∃ json edge rest,
    reply = Return json
    ∧ (data json ≫= transactions) ≫= edges = Some (edge :: rest)
    ∧ ShareInfo.txId info = node_id (node edge)
    ∧ ShareInfo.shareId info = shareId
    ∧ tagMap (node_tags (node edge)) !! "Type" = Some "conversation-share"
    ∧ tagMap (node_tags (node edge)) !! "Share-Id" = Some shareId
    ∧ ShareInfo.wallet info = default EmptyString (tagMap (node_tags (node edge)) !! "Wallet")
    ∧ match tagMap (node_tags (node edge)) !! "Signature" with
      | Some raw => ShareInfo.signature info
                    = if truthy (trim raw) then Some (trim raw) else None
      | None => ShareInfo.signature info = None
      end.
Proof.
  unfold Arweave.queryConversationShare.
  destruct reply as [json | e]; [| done].
  destruct (errors json) as [[| e es] |]; [| done |];
    (destruct ((data json ≫= transactions) ≫= edges) as [[| edge rest] |] eqn:Hedges;
       try done;
     simpl;
     destruct (bool_decide (tagMap (node_tags (node edge)) !! "Type"
                            ≠ Some "conversation-share")) eqn:Htype; [done |];
     destruct (bool_decide (tagMap (node_tags (node edge)) !! "Share-Id" ≠ Some shareId))
       eqn:Hsid; [done |];
     apply bool_decide_eq_false in Htype, Hsid;
     apply dec_stable in Htype, Hsid;
     simpl; intros [= <-]; exists json, edge, rest; simpl;
     repeat split; try done;
     by destruct (tagMap (node_tags (node edge)) !! "Signature")).
Qed.

(** X24. [queryConversationShare] looks at the first edge of the reply
    only. What it returns is that transaction, which is tagged as a
    conversation share of the share id asked for; the signature is the
    trimmed Signature tag when that is not blank. A transaction without
    signature is returned too, with a null signature. *)
Theorem queryConversationShare_first_edge
        (reply : Exc ArweaveError GqlJson) (shareId : string) (info : ShareInfo.t) :
  Arweave.queryConversationShare reply shareId = Return (Some info) →
  ∃ json edge rest,
    reply = Return json
    ∧ (data json ≫= transactions) ≫= edges = Some (edge :: rest)
    ∧ ShareInfo.txId info = node_id (node edge)
    ∧ ShareInfo.shareId info = shareId
    ∧ tagMap (node_tags (node edge)) !! "Type" = Some "conversation-share"
    ∧ tagMap (node_tags (node edge)) !! "Share-Id" = Some shareId
    ∧ ShareInfo.wallet info = default EmptyString (tagMap (node_tags (node edge)) !! "Wallet")
    ∧ match tagMap (node_tags (node edge)) !! "Signature" with
      | Some raw => ShareInfo.signature info
                    = if truthy (trim raw) then Some (trim raw) else None
      | None => ShareInfo.signature info = None
      end.
Proof. apply queryConversationShare_found. Qed.

Lemma queryConversationShare_first_edge_witness :
  Arweave.queryConversationShare (Return Demo.unsigned_share) "share-1"
  = Return (Some (ShareInfo.mk "tx-1" "share-1" "0xabc" EmptyString None))
  ∧ ∃ edge rest,
      (data Demo.unsigned_share ≫= transactions) ≫= edges = Some (edge :: rest)
      ∧ node_id (node edge) = "tx-1"
      ∧ tagMap (node_tags (node edge)) !! "Share-Id" = Some "share-1".
Proof.
  assert (H : Arweave.queryConversationShare (Return Demo.unsigned_share) "share-1"
              = Return (Some (ShareInfo.mk "tx-1" "share-1" "0xabc" EmptyString None)))
    by reflexivity.
  split; [exact H |].
  destruct (queryConversationShare_first_edge _ _ _ H)
    as (json & edge & rest & Hjson & Hedges & Htx & _ & _ & Hsid & _).
  injection Hjson as <-. exists edge, rest.
  split; [exact Hedges |]. split; [symmetry; exact Htx | exact Hsid].
Defined.

Section Unverified.
Context {Key : Type}.
Variable extractToken : string → Exc string string.
Variable decodeShareToken : string → Exc string (Token.t Key).
Variable decrypt : list byte → Key → Exc string (list byte).
Variable parsePayload : list byte → Exc string SharePayload.

(** X25. A share that carries no signature, or no wallet, is imported
    unverified. When the lookup answers with a reply whose first
    transaction has no Signature tag, or a blank one, or no Wallet tag,
    the command ends the same way and leaves the same database whatever
    [verifySignature] would say. *)
Theorem unsigned_share_is_not_verified
        (verifySignature verifySignature' : list byte → string → string → bool)
        (net : Network) (home : option Db) (urlOrToken now : string)
        (token : string) (decoded : Token.t Key)
        (json : GqlJson) (edge : Edge) (rest : list Edge) :
  extractToken urlOrToken = Return token →
  decodeShareToken token = Return decoded →
  queryConversationShare net (Token.shareId decoded)
  = Arweave.queryConversationShare (Return json) (Token.shareId decoded) →
  (data json ≫= transactions) ≫= edges = Some (edge :: rest) →
  default EmptyString (trim <$> tagMap (node_tags (node edge)) !! "Signature") = EmptyString
  ∨ default EmptyString (tagMap (node_tags (node edge)) !! "Wallet") = EmptyString →
  syncCommand extractToken decodeShareToken verifySignature' decrypt parsePayload
              net home urlOrToken now
  = syncCommand extractToken decodeShareToken verifySignature decrypt parsePayload
                net home urlOrToken now.
Proof.
  intros He Hd Hq Hedges Hunsigned.
  assert (Hinfo : ∀ info,
            queryConversationShare net (Token.shareId decoded) = Return (Some info) →
            ShareInfo.signature info = None ∨ truthy (ShareInfo.wallet info) = false).
  { intros info Hinfo. rewrite Hq in Hinfo.
    apply queryConversationShare_found in Hinfo
      as (json' & edge' & rest' & [= <-] & Hedges' & _ & _ & _ & _ & Hw & Hs).
    rewrite Hedges in Hedges'. injection Hedges' as <- <-.
    destruct Hunsigned as [Hsig | Hwallet].
    - left. destruct (tagMap (node_tags (node edge)) !! "Signature") as [raw |];
        [| done].
      simpl in Hsig. by rewrite Hs, Hsig.
    - right. by rewrite Hw, Hwallet. }
  assert (Hsame : fetchShare extractToken decodeShareToken verifySignature' decrypt
                             parsePayload net urlOrToken
                  = fetchShare extractToken decodeShareToken verifySignature decrypt
                               parsePayload net urlOrToken).
  { unfold fetchShare, mbind, Exc_bind, lift. rewrite He, Hd.
    unfold fetchPayload, mbind, Exc_bind, archive.
    match goal with
    | |- context [match ?direct with Some bytes => Return (None, _, bytes) | None => _ end] =>
        destruct direct as [bytes |]; [reflexivity |]
    end.
    destruct (queryConversationShare net (Token.shareId decoded)) as [[info |] |] eqn:Hfound;
      try reflexivity.
    destruct (download net (ShareInfo.txId info)) as [bytes |]; [| reflexivity].
    destruct (Hinfo info eq_refl) as [-> | Hw]; [reflexivity |].
    destruct (ShareInfo.signature info) as [sig |]; [| reflexivity].
    by rewrite Hw, andb_false_r. }
  unfold syncCommand. by rewrite Hsame.
Qed.
End Unverified.

Lemma unsigned_share_is_not_verified_witness :
  Demo.sync (λ _ _ _, false) (Some Sample.empty) "t8"
  = Demo.sync (λ _ _ _, true) (Some Sample.empty) "t8"
  ∧ (Demo.sync (λ _ _ _, false) (Some Sample.empty) "t8").2 = ConversationImported.
Proof.
  split; [| by vm_compute].
  apply (unsigned_share_is_not_verified
           (λ url, Return url) (λ _, Return Demo.legacy_token)
           (λ bytes _, Return bytes) (λ _, Return Sample.payload)
           (λ _ _ _, true) (λ _ _ _, false) Demo.lookup_only
           (Some Sample.empty) "sharme://share/abc" "t8" "sharme://share/abc"
           Demo.legacy_token Demo.unsigned_share
           (mkEdge "c" (mkNode "tx-1" [("App-Name", "sharme");
                                      ("Type", "conversation-share");
                                      ("Share-Id", "share-1");
                                      ("Wallet", "0xabc");
                                      ("Signature", "  ")])) []);
    try reflexivity.
  left. reflexivity.
Defined.

(** ** The share token *)

Lemma isShareTokenV1_true value :
  isShareTokenV1 value = true →
  ∃ sid k, member value "v" = Some (JNumber (Fin 1))
           ∧ member value "sid" = Some (JString sid) ∧ sid ≠ EmptyString
           ∧ member value "k" = Some (JString k) ∧ k ≠ EmptyString
           ∧ (member value "t" = None ∨ ∃ t, member value "t" = Some (JString t)).
Proof.
  unfold isShareTokenV1. destruct value as [| | | | | | members]; try done.
  destruct (member (JObject members) "v") as [[| | [| | | [| [| |] |]] | | | |] |];
    try done.
  destruct (member (JObject members) "sid") as [[| | | | sid | |] |]; try done.
  destruct (member (JObject members) "k") as [[| | | | k | |] |]; try done.
  intros H. apply andb_true_iff in H as [H Ht]. apply andb_true_iff in H as [Hsid Hk].
  exists sid, k. repeat split; try done.
  - by destruct sid.
  - by destruct k.
  - destruct (member (JObject members) "t") as [[| | | | t | |] |]; try done; eauto.
Qed.

Lemma member_token_object sid k t :
  member (token_object sid k t) "v" = Some (JNumber (Fin 1))
  ∧ member (token_object sid k t) "sid" = Some (JString sid)
  ∧ member (token_object sid k t) "k" = Some (JString k)
  ∧ member (token_object sid k t) "t" = JString <$> t.
Proof. by destruct t. Qed.

Section ShareTokenProperties.
Variable parse_text : string → Exc string Json.
Variable encode_text : Json → string.
Variable base64url : string → list byte.
Variable URL_parse : string → option Url.

(** X26. A token that [decodeShareToken] accepts is a version-1 token with
    a share id that is not empty and a key of exactly 32 bytes; the
    transaction id is the one the token carries, if it carries one. *)
Theorem decodeShareToken_valid (token : string) (decoded : Token.t (list byte)) :
  decodeShareToken parse_text base64url token = Return decoded →
  Token.shareId decoded ≠ EmptyString
  ∧ length (Token.key decoded) = 32%nat
  ∧ ∃ parsed k,
      parse_text token = Return parsed
      ∧ member parsed "v" = Some (JNumber (Fin 1))
      ∧ member parsed "sid" = Some (JString (Token.shareId decoded))
      ∧ member parsed "k" = Some (JString k) ∧ k ≠ EmptyString
      ∧ Token.key decoded = base64url k
      ∧ member parsed "t" = JString <$> Token.txId decoded.
Proof.
  unfold decodeShareToken.
  destruct (parse_text token) as [parsed |]; [| done].
  destruct (isShareTokenV1 parsed) eqn:Hv1; [| done]. simpl.
  apply isShareTokenV1_true in Hv1 as (sid & k & Hv & Hsid & Hsid' & Hk & Hk' & Ht).
  rewrite Hsid, Hk.
  destruct (length (base64url k) =? 32)%nat eqn:Hlen; [| done]. simpl.
  apply Nat.eqb_eq in Hlen. intros [= <-]. simpl.
  split; [done |]. split; [done |].
  exists parsed, k. repeat split; try done.
  destruct Ht as [-> | [t ->]]; done.
Qed.

(** X27. Round trip of the token. When the text that [encodeShareToken]
    produces parses back to the object it was made from,
    [decodeShareToken] returns the share id, the decoded key and the
    transaction id that went in, provided the share id is not empty and the
    key decodes to 32 bytes; an empty share id or key is refused as an
    invalid payload, and a key of another length as an invalid key
    length. *)
Theorem share_token_round_trip (sid k : string) (t : option string) :
  parse_text (encode_text (token_object sid k t)) = Return (token_object sid k t) →
  decodeShareToken parse_text base64url (encodeShareToken encode_text sid k t)
  = if negb (truthy sid && truthy k) then Throw "Invalid share token payload."
    else if negb (length (base64url k) =? 32)%nat
         then Throw "Invalid share token key length."
         else Return (Token.mk sid (base64url k) t).
Proof.
  intros Hparse. unfold decodeShareToken, encodeShareToken. rewrite Hparse.
  destruct (member_token_object sid k t) as (Hv & Hsid & Hk & Ht).
  assert (Hv1 : isShareTokenV1 (token_object sid k t) = truthy sid && truthy k).
  { unfold isShareTokenV1. change (token_object sid k t) with
      (JObject ([("v", JNumber (Fin 1)); ("sid", JString sid); ("k", JString k)]
                ++ match t with Some t => [("t", JString t)] | None => [] end)) at 1.
    rewrite Hv, Hsid, Hk, Ht. destruct t; simpl; by rewrite andb_true_r. }
  rewrite Hv1. destruct (truthy sid && truthy k); [| done]. cbn [negb].
  rewrite Hsid, Hk, Ht.
  destruct (length (base64url k) =? 32)%nat; [| done]. cbn [negb].
  by destruct t.
Qed.

(** X28. [extractToken] never returns an empty token, and an input that
    holds no [://] is returned as it is, trimmed. *)
Theorem extractToken_nonempty (input token : string) :
  extractToken URL_parse input = Return token →
  token ≠ EmptyString
  ∧ (includes (trim input) "://" = false → token = trim input).
Proof.
  unfold extractToken.
  destruct (String.eqb (trim input) EmptyString) eqn:Hempty; [done |].
  apply String.eqb_neq in Hempty.
  destruct (includes (trim input) "://") eqn:Hurl; simpl.
  2:{ intros [= <-]. by split. }
  assert (Hlast : ∀ parts,
            match last (filter (λ s, truthy s = true) parts) with
            | Some part => Return part
            | None => Throw "Could not extract token from URL."
            end = Return token → token ≠ EmptyString).
  { intros parts.
    destruct (last (filter (λ s, truthy s = true) parts)) as [part |] eqn:Hl; [| done].
    intros [= <-]. apply last_Some_elem_of, list_elem_of_filter in Hl as [Hl _].
    by destruct part. }
  destruct (URL_parse (trim input)) as [url |]; [| done].
  destruct (token_param url) as [fromQuery |].
  - destruct (truthy fromQuery) eqn:Hq.
    + intros [= <-]. split; [by destruct fromQuery | done].
    + intros H. split; [by apply Hlast in H | done].
  - intros H. split; [by apply Hlast in H | done].
Qed.
End ShareTokenProperties.

Lemma decodeShareToken_valid_witness :
  decodeShareToken (λ _, Return (token_object "share-1" "a2V5" None)) (λ _, Demo.key32)
                   "eyJ2IjoxfQ"
  = Return (Token.mk "share-1" Demo.key32 None)
  ∧ length Demo.key32 = 32%nat.
Proof.
  assert (H : decodeShareToken (λ _, Return (token_object "share-1" "a2V5" None))
                               (λ _, Demo.key32) "eyJ2IjoxfQ"
              = Return (Token.mk "share-1" Demo.key32 None)) by reflexivity.
  split; [exact H |].
  exact (proj1 (proj2 (decodeShareToken_valid _ _ _ _ H))).
Defined.

Lemma share_token_round_trip_witness :
  decodeShareToken (λ _, Return (token_object "share-1" "a2V5" (Some "tx-1")))
                   (λ _, Demo.key32)
                   (encodeShareToken (λ _, "eyJ2IjoxfQ") "share-1" "a2V5" (Some "tx-1"))
  = Return (Token.mk "share-1" Demo.key32 (Some "tx-1")).
Proof.
  rewrite (share_token_round_trip
             (λ _, Return (token_object "share-1" "a2V5" (Some "tx-1")))
             (λ _, "eyJ2IjoxfQ") (λ _, Demo.key32) "share-1" "a2V5" (Some "tx-1"));
    reflexivity.
Defined.

Lemma extractToken_nonempty_witness :
  extractToken (λ _, Some (mkUrl None "/abc123")) " sharme://share/abc123 "
  = Return "abc123"
  ∧ "abc123" ≠ EmptyString.
Proof.
  assert (H : extractToken (λ _, Some (mkUrl None "/abc123")) " sharme://share/abc123 "
              = Return "abc123") by reflexivity.
  split; [exact H |].
  exact (proj1 (extractToken_nonempty _ _ _ H)).
Defined.

(** ** Conversation chunks *)

Lemma accept_chunk_txId toLowerCase w n c : accept_chunk toLowerCase w n = Some c → ChunkInfo.txId c = node_id n.
Proof.
  unfold accept_chunk. cbv zeta. repeat case_match; try done. by intros [= <-].
Qed.

Lemma accept_chunk_well_formed toLowerCase w n c :
  accept_chunk toLowerCase w n = Some c → well_formed_chunk toLowerCase w n c.
Proof.
  unfold accept_chunk, well_formed_chunk. cbv zeta.
  destruct (tagMap (node_tags n) !! "Wallet") as [wallet |] eqn:Hw; simpl; [| done].
  destruct (truthy wallet) eqn:Hwt; simpl; [| done].
  destruct (String.eqb (toLowerCase wallet) (toLowerCase w)) eqn:Hlow; simpl; [| done].
  apply String.eqb_eq in Hlow.
  destruct (tagMap (node_tags n) !! "Client") as [client |] eqn:Hc; [| done].
  destruct (negb (String.eqb client "cursor") && negb (String.eqb client "claude-code"))
    eqn:Hclient; [done |].
  assert (Hcl : client = "cursor" ∨ client = "claude-code").
  { apply andb_false_iff in Hclient as [H | H]; apply negb_false_iff, String.eqb_eq in H;
      auto. }
  destruct (tagMap (node_tags n) !! "Project") as [project |] eqn:Hp; simpl; [| done].
  destruct (truthy project) eqn:Hpt; simpl; [| done].
  destruct (tagMap (node_tags n) !! "Session") as [session |] eqn:Hs; simpl; [| done].
  destruct (truthy session) eqn:Hst; simpl; [| done].
  destruct (parseInt _) as [| | | chunkIndex]; try done.
  destruct (parseInt _) as [| | | chunkTotal]; try done.
  destruct (chunkIndex <? 1) eqn:Hi; [done |].
  destruct (chunkTotal <? 1) eqn:Ht; [done |].
  destruct (chunkTotal <? chunkIndex) eqn:Hit; [done |]. simpl.
  apply Z.ltb_ge in Hi, Hit.
  destruct (parse_or_zero _) as [| | | offset]; try done.
  destruct (parse_or_zero _) as [| | | count]; try done.
  destruct (offset <? 0) eqn:Ho; [done |].
  destruct (count <? 0) eqn:Hn; [done |]. simpl.
  apply Z.ltb_ge in Ho, Hn.
  destruct (tagMap (node_tags n) !! "Signature") as [raw |] eqn:Hsig; simpl; [| done].
  destruct (truthy (trim raw)) eqn:Hraw; [| done].
  intros [= <-]. simpl.
  repeat split; try done.
  - by destruct project.
  - by destruct session.
  - exists raw. repeat split. by destruct (trim raw).
Qed.

Section ChunkProperties.
Variable toLowerCase : string → string.
Variable gql : string → GqlBody → GqlReply.
Variable endpoints : list string.
Variable localeCompare : string → string → Z.
Variable w : string.

(** What the loop over the edges of [queryConversationChunks] maintains. *)
Local Abbreviation chunks_ok acc :=
  (Forall (λ c, ∃ n, served gql endpoints w n ∧ well_formed_chunk toLowerCase w n c) (chunks acc)
   ∧ NoDup (ChunkInfo.txId <$> chunks acc)
   ∧ ∀ c, c ∈ chunks acc → ChunkInfo.txId c ∈ seenChunkTxIds acc).

Lemma visit_chunk_ok acc e :
  chunks_ok acc → served gql endpoints w (node e) → chunks_ok (visit_chunk toLowerCase w acc e).
Proof.
  intros (Hall & Hnd & Hseen) Hserved. unfold visit_chunk.
  destruct (decide (node_id (node e) ∈ seenChunkTxIds acc)) as [Hin | Hnin]; [done |].
  destruct (accept_chunk toLowerCase w (node e)) as [c |] eqn:Hacc.
  - split; [| split]; simpl.
    + apply Forall_app. split; [done |]. constructor; [| constructor].
      exists (node e). split; [done | by apply accept_chunk_well_formed].
    + rewrite fmap_app. simpl. apply NoDup_app. split; [done |].
      split; [| apply NoDup_singleton].
      intros x Hx Hx'. apply list_elem_of_singleton in Hx'. subst x.
      apply list_elem_of_fmap in Hx as (c' & Heq & Hc').
      apply Hnin. rewrite <- (accept_chunk_txId _ _ _ _ Hacc), Heq. by apply Hseen.
    + intros c' Hc'. apply elem_of_app in Hc' as [Hc' | Hc'].
      * apply elem_of_union_r. by apply Hseen.
      * apply list_elem_of_singleton in Hc' as ->.
        rewrite (accept_chunk_txId _ _ _ _ Hacc). apply elem_of_union_l.
        by apply elem_of_singleton.
  - split; [| split]; simpl; try done.
    intros c Hc. apply elem_of_union_r. by apply Hseen.
Qed.

Lemma visit_chunks_ok es : ∀ acc,
  chunks_ok acc → (∀ e, e ∈ es → served gql endpoints w (node e)) →
  chunks_ok (foldl (visit_chunk toLowerCase w) acc es).
Proof.
  induction es as [| e es IH]; intros acc Hacc Hes; simpl; [done |].
  apply IH.
  - apply visit_chunk_ok; [done |]. apply Hes. left.
  - intros e' He'. apply Hes. by right.
Qed.

Lemma queryConversationChunks_pages_ok pages : ∀ acc after found,
  chunks_ok acc →
  queryConversationChunks_pages toLowerCase gql endpoints pages w acc after = Return found →
  Forall (λ c, ∃ n, served gql endpoints w n ∧ well_formed_chunk toLowerCase w n c) found
  ∧ NoDup (ChunkInfo.txId <$> found).
Proof.
  induction pages as [| pages IH]; intros acc after found Hacc; simpl; [done |].
  destruct (gqlRequest gql endpoints (mkBody w GQL_PAGE_SIZE after)) as [json |] eqn:Hreq;
    [| done].
  apply gqlRequest_from_answered in Hreq as (ep & Hep & Hok).
  assert (Hbreak : @Return ArweaveError _ (chunks acc) = Return found →
                   Forall (λ c, ∃ n, served gql endpoints w n ∧ well_formed_chunk toLowerCase w n c)
                          found
                   ∧ NoDup (ChunkInfo.txId <$> found)).
  { intros [= <-]. destruct Hacc as (? & ? & _). by split. }
  destruct (errors json) as [[| err errs] |]; [| done |].
  all: destruct ((data json ≫= transactions) ≫= edges) as [[| e es] |] eqn:Hes;
    simpl; try exact Hbreak.
  all: assert (Hacc' : chunks_ok (foldl (visit_chunk toLowerCase w) (visit_chunk toLowerCase w acc e) es))
    by (apply (visit_chunks_ok (e :: es)); [done |];
        intros e' He'; exists ep, after, json, (e :: es), e'; by repeat split).
  all: destruct (((data json ≫= transactions) ≫= pageInfo) ≫= hasNextPage) as [[|] |];
    simpl; try (intros [= <-]; destruct Hacc' as (? & ? & _); by split).
  all: destruct (truthy (cursor (List.last es e))); simpl;
    try (intros [= <-]; destruct Hacc' as (? & ? & _); by split).
  all: by apply IH.
Qed.

(** X29. Every chunk [queryConversationChunks] returns is the entry of a
    transaction that a configured gateway served: its wallet tag equals
    the queried address up to letter case, its client is cursor or
    claude-code, project and session are not empty, the chunk index is
    between 1 and the chunk total, offset and count are not negative, and
    the signature is the trimmed Signature tag, which is not blank. No
    transaction id occurs twice, and the result is a rearrangement of what
    the pages delivered. *)
Theorem queryConversationChunks_sound (found : list ChunkInfo.t) :
  queryConversationChunks toLowerCase gql endpoints localeCompare w = Return found →
  Forall (λ c, ∃ n, served gql endpoints w n ∧ well_formed_chunk toLowerCase w n c) found
  ∧ NoDup (ChunkInfo.txId <$> found)
  ∧ ∃ delivered,
      queryConversationChunks_pages toLowerCase gql endpoints GQL_MAX_PAGES w (mkChunkAcc [] ∅) None
      = Return delivered
      ∧ found ≡ₚ delivered.
Proof.
  unfold queryConversationChunks.
  destruct (queryConversationChunks_pages toLowerCase gql endpoints GQL_MAX_PAGES w (mkChunkAcc [] ∅) None)
    as [delivered |] eqn:Hpages; [| done].
  intros [= <-].
  apply queryConversationChunks_pages_ok in Hpages as [Hall Hnd].
  2:{ split; [constructor | split; [constructor |]]. intros c Hc. inversion Hc. }
  pose proof (sort_permutation (compare_chunks localeCompare) delivered) as Hperm.
  split; [by rewrite Hperm |].
  split; [by rewrite Hperm |].
  by exists delivered.
Qed.
End ChunkProperties.

Lemma queryConversationChunks_sound_witness :
  ∃ found,
    queryConversationChunks lowercase_ascii Demo.chunk_gql ["https://arweave.net/graphql"]
                            Demo.byte_order "0xABC" = Return found
    ∧ ChunkInfo.txId <$> found = ["c1"; "c2"]
    ∧ Forall (λ c, ∃ n, served Demo.chunk_gql ["https://arweave.net/graphql"] "0xABC" n
                        ∧ well_formed_chunk lowercase_ascii "0xABC" n c) found.
Proof.
  assert (H : ∃ found,
            queryConversationChunks lowercase_ascii Demo.chunk_gql ["https://arweave.net/graphql"]
                                    Demo.byte_order "0xABC" = Return found
            ∧ ChunkInfo.txId <$> found = ["c1"; "c2"]).
  { eexists. split; [by vm_compute | reflexivity]. }
  destruct H as (found & Hq & Hids). exists found.
  split; [exact Hq |]. split; [exact Hids |].
  exact (proj1 (queryConversationChunks_sound _ _ _ _ _ _ Hq)).
Defined.
